(** * FinMate: the receipt field extractor and the transaction classifiers

    A shallow embedding of
      - [utils/formatter.py]                      ([extract_amount], [extract_date]),
      - [ocr/ocr_engine.py], [ocr/receipt_parser.py] ([extract_receipt_data]),
      - [backend/app/services/ai_service.py]      ([categorize_transaction]),
      - [src/expense_tracker.py]                  ([ExpenseTracker.predict_category]),
    together with the part of the Python runtime these functions call:
    [str] methods, the backtracking matcher of [re], [float], and
    [datetime.strptime]. *)

From Stdlib Require Import Ascii String NArith ZArith QArith Bool Lia List Sorted.
Import ListNotations.

Close Scope Q_scope.
Open Scope N_scope.

(* ================================================================== *)
(** * Python values: exceptions, code points, text *)
(* ================================================================== *)

(** The exceptions that can reach the modelled code.  [External] stands for
    whatever an outside collaborator (OCR engine, HTTP client) throws. *)
Inductive exn : Type :=
| ValueError
| IndexError
| AttributeError
| External (name : string).

(** The outcome of evaluating a Python expression. *)
Inductive result (A : Type) : Type :=
| Ok (a : A)
| Raise (e : exn).

Arguments Ok {A} a.
Arguments Raise {A} e.

Definition bind {A B : Type} (m : result A) (k : A -> result B) : result B :=
  match m with
  | Ok a => k a
  | Raise e => Raise e
  end.

Declare Scope py_scope.
Delimit Scope py_scope with py.
Notation "x <- m ;; k" := (bind m (fun x => k))
  (at level 61, m at next level, right associativity) : py_scope.

(** A Python [str] is a sequence of Unicode code points. *)
Definition char : Type := N.
Definition text : Type := list char.

Definition code (a : ascii) : char := N_of_ascii a.

(** [txt] reads an ASCII literal of the source as a [text]. *)
Fixpoint txt (s : string) : text :=
  match s with
  | EmptyString => []
  | String a s' => code a :: txt s'
  end.

Definition char_eqb (a b : char) : bool := N.eqb a b.

Fixpoint text_eqb (a b : text) : bool :=
  match a, b with
  | [], [] => true
  | x :: a', y :: b' => char_eqb x y && text_eqb a' b'
  | _, _ => false
  end.

(** The part of the Unicode character database the code depends on, for the
    code points outside ASCII.  Inside ASCII every property is written out
    below and these tables are never consulted. *)
Record UnicodeDB : Type := {
  u_decimal : char -> option N;   (* the value of a decimal digit (category Nd) *)
  u_isspace : char -> bool;       (* [str.isspace] *)
  u_isalnum : char -> bool;       (* [str.isalnum] *)
  u_lower   : text -> text        (* [str.lower] on a string that is not pure ASCII *)
}.

(** A database with no entry outside ASCII; enough for ASCII inputs. *)
Definition ascii_only : UnicodeDB :=
  {| u_decimal := fun _ => None;
     u_isspace := fun _ => false;
     u_isalnum := fun _ => false;
     u_lower   := fun s => s |}.

Definition between (lo hi c : char) : bool := N.leb lo c && N.leb c hi.

Definition is_ascii (c : char) : bool := N.ltb c 128.

Section Str.
Context (U : UnicodeDB).

(** The decimal value of a digit: what [\d] tests and [float]/[int] read. *)
Definition decimal (c : char) : option N :=
  if is_ascii c
  then if between 48 57 c then Some (c - 48) else None
  else u_decimal U c.

Definition isdecimal (c : char) : bool :=
  match decimal c with Some _ => true | None => false end.

(** Whitespace: TAB..CR, FS..US and SPACE in ASCII. *)
Definition isspace (c : char) : bool :=
  if is_ascii c
  then between 9 13 c || between 28 31 c || char_eqb c 32
  else u_isspace U c.

(** [\w]: alphanumeric or underscore. *)
Definition isword (c : char) : bool :=
  if is_ascii c
  then between 48 57 c || between 65 90 c || between 97 122 c || char_eqb c 95
  else u_isalnum U c.

Definition ascii_lower (c : char) : char :=
  if between 65 90 c then c + 32 else c.

(** [s.lower()] *)
Definition lower (s : text) : text :=
  if forallb is_ascii s then map ascii_lower s else u_lower U s.

Fixpoint lstrip (s : text) : text :=
  match s with
  | [] => []
  | c :: s' => if isspace c then lstrip s' else s
  end.

Definition rstrip (s : text) : text := rev (lstrip (rev s)).

(** [s.strip()] *)
Definition strip (s : text) : text := lstrip (rstrip s).
End Str.

(** [s.split(sep)] for a one-character separator. *)
Fixpoint split (sep : char) (s : text) : list text :=
  match s with
  | [] => [[]]
  | c :: s' =>
      if char_eqb c sep then [] :: split sep s'
      else match split sep s' with
           | [] => [[c]]
           | h :: t => (c :: h) :: t
           end
  end.

Fixpoint startswith (p s : text) : bool :=
  match p, s with
  | [], _ => true
  | _ :: _, [] => false
  | a :: p', b :: s' => char_eqb a b && startswith p' s'
  end.

(** [needle in hay] *)
Fixpoint contains (needle hay : text) : bool :=
  startswith needle hay ||
  match hay with
  | [] => false
  | _ :: hay' => contains needle hay'
  end.

(** [s.replace(c, '')] for a one-character [c]. *)
Definition remove_char (c : char) (s : text) : text :=
  filter (fun x => negb (char_eqb x c)) s.

(** Truth value of a string. *)
Definition nonempty (s : text) : bool :=
  match s with [] => false | _ :: _ => true end.

(* ================================================================== *)
(** * The matcher of [re] *)
(* ================================================================== *)

(** Character classes of the patterns in use. *)
Inductive cclass : Type :=
| CLit (c : char)          (* a literal character *)
| CDigit                   (* [\d] *)
| CSpace                   (* [\s] *)
| CRange (lo hi : char)    (* [[lo-hi]] *)
| COneOf (cs : text).      (* [[abc]] *)

Inductive regex : Type :=
| Eps
| Cls (k : cclass)
| WordB                            (* [\b] *)
| Seq (r1 r2 : regex)
| Alt (r1 r2 : regex)              (* [r1|r2], left first *)
| Opt (r : regex)                  (* [r?], greedy *)
| Star (r : regex)                 (* [r*], greedy *)
| Group (name : string) (r : regex). (* a capturing group *)

Definition Chr (a : ascii) : regex := Cls (CLit (code a)).

Fixpoint Lit (s : text) : regex :=
  match s with
  | [] => Eps
  | c :: s' => Seq (Cls (CLit c)) (Lit s')
  end.

Fixpoint Upto (n : nat) (r : regex) : regex :=   (* [r{0,n}] *)
  match n with
  | O => Eps
  | S k => Opt (Seq r (Upto k r))
  end.

Fixpoint Exactly (n : nat) (r rest : regex) : regex :=
  match n with
  | O => rest
  | S k => Seq r (Exactly k r rest)
  end.

(** [r{lo,hi}], greedy *)
Definition Rep (lo hi : nat) (r : regex) : regex :=
  Exactly lo r (Upto (hi - lo)%nat r).

(** The matcher's position in the subject: the text to the left of the
    cursor (nearest character first), the text to the right, and the groups
    captured so far. *)
Record cursor : Type := {
  before : text;
  after  : text;
  groups : list (string * text)
}.

Definition consumed (z z' : cursor) : text :=
  rev (firstn (length (before z') - length (before z))%nat (before z')).

Definition capture (name : string) (z z' : cursor) : cursor :=
  {| before := before z'; after := after z';
     groups := (name, consumed z z') :: groups z' |}.

Fixpoint group (name : string) (gs : list (string * text)) : option text :=
  match gs with
  | [] => None
  | (n, w) :: gs' => if String.eqb n name then Some w else group name gs'
  end.

Definition progress (z z' : cursor) : bool :=
  Nat.ltb (length (after z')) (length (after z)).

(** Greedy iteration: every way to run [step] some number of times, more
    iterations first.  An iteration that consumes nothing is not repeated. *)
Fixpoint iterate (step : cursor -> list cursor) (fuel : nat) (z : cursor)
  : list cursor :=
  match fuel with
  | O => [z]
  | S f => flat_map (iterate step f) (filter (progress z) (step z)) ++ [z]
  end.

Section Re.
Context (U : UnicodeDB).

Definition in_class (k : cclass) (c : char) : bool :=
  match k with
  | CLit a => char_eqb c a
  | CDigit => isdecimal U c
  | CSpace => isspace U c
  | CRange lo hi => between lo hi c
  | COneOf cs => existsb (char_eqb c) cs
  end.

Definition word_at (s : text) : bool :=
  match s with [] => false | c :: _ => isword U c end.

(** Every way [r] can match at the cursor, in the order the backtracking
    matcher tries them; the head of the list is the match it reports. *)
Fixpoint run (r : regex) (z : cursor) : list cursor :=
  match r with
  | Eps => [z]
  | Cls k =>
      match after z with
      | c :: rest =>
          if in_class k c
          then [{| before := c :: before z; after := rest; groups := groups z |}]
          else []
      | [] => []
      end
  | WordB => if xorb (word_at (before z)) (word_at (after z)) then [z] else []
  | Seq r1 r2 => flat_map (run r2) (run r1 z)
  | Alt r1 r2 => run r1 z ++ run r2 z
  | Opt r1 => run r1 z ++ [z]
  | Star r1 => iterate (run r1) (length (after z)) z
  | Group name r1 => map (capture name z) (run r1 z)
  end.

(** One match of the pattern with its left end at the cursor. *)
Definition match_here (r : regex) (bef aft : text) : option cursor :=
  hd_error (run r {| before := bef; after := aft; groups := [] |}).

(** A match found by a scan: where it starts and ends, and its groups. *)
Record found : Type := {
  start : nat;
  stop : nat;
  whole : text;
  captures : list (string * text)
}.

Definition found_of (bef : text) (z : cursor) : found :=
  {| start := length bef;
     stop := length (before z);
     whole := consumed {| before := bef; after := []; groups := [] |} z;
     captures := groups z |}.

(** [re.finditer]: the non-overlapping matches, left to right.  [skip]
    counts the characters still covered by the previous match.  (After an
    empty match the scan moves on by one character; the patterns in use
    match no empty word.) *)
Fixpoint scan (r : regex) (skip : nat) (bef aft : text) : list found :=
  match skip with
  | S k =>
      match aft with
      | [] => []
      | c :: aft' => scan r k (c :: bef) aft'
      end
  | O =>
      match match_here r bef aft with
      | Some z =>
          found_of bef z ::
          match aft with
          | [] => []
          | c :: aft' => scan r (length (before z) - length bef - 1)%nat (c :: bef) aft'
          end
      | None =>
          match aft with
          | [] => []
          | c :: aft' => scan r 0%nat (c :: bef) aft'
          end
      end
  end.

Definition finditer (r : regex) (s : text) : list found := scan r 0%nat [] s.

(** [re.findall] for a pattern without groups: the matched substrings. *)
Definition findall0 (r : regex) (s : text) : list text :=
  map whole (finditer r s).

(** [re.findall] for a pattern with one group: the group's text (empty
    when the group took no part in the match). *)
Definition findall1 (r : regex) (s : text) : list text :=
  map (fun m => match group "1" (captures m) with Some w => w | None => [] end)
      (finditer r s).

(** [pattern.match(s)]: a match anchored at the start of [s]. *)
Definition re_match (r : regex) (s : text) : option cursor := match_here r [] s.
End Re.

(* ================================================================== *)
(** * [float] and [datetime.date] *)
(* ================================================================== *)

(** The floats that reading an unsigned decimal can give: a finite double,
    kept as the exact decimal it is the nearest double to, or [inf]. *)
Inductive pyfloat : Type :=
| Finite (q : Q)
| Inf.

(** Half-way between the largest double and [2^1024]: a decimal from here
    on is read as [inf] (ties go to the even mantissa, which is the upper
    one). *)
Definition float_overflow : Z := (2 ^ 1024 - 2 ^ 970)%Z.

Definition nearest_double (q : Q) : pyfloat :=
  if Qle_bool (inject_Z float_overflow) q then Inf else Finite q.

(** [x >= 0.0] *)
Definition float_nonneg (x : pyfloat) : Prop :=
  match x with
  | Finite q => (0 <= q)%Q
  | Inf => True
  end.

Section Numbers.
Context (U : UnicodeDB).

(** The digits of [s] read as a base-ten number, [None] when a character
    is not a decimal digit. *)
Fixpoint digits_value (acc : N) (s : text) : option N :=
  match s with
  | [] => Some acc
  | c :: s' =>
      match decimal U c with
      | Some d => digits_value (acc * 10 + d) s'
      | None => None
      end
  end.

Fixpoint break_at (c : char) (s : text) : text * option text :=
  match s with
  | [] => ([], None)
  | x :: s' =>
      if char_eqb x c then ([], Some s')
      else let '(l, r) := break_at c s' in (x :: l, r)
  end.

Fixpoint pow10 (n : nat) : positive :=
  match n with
  | O => 1%positive
  | S k => (10 * pow10 k)%positive
  end.

(** [float(s)] on unsigned decimal notation, [digits[.digits]] with a digit
    on at least one side.  Whatever else [float] accepts (signs, exponents,
    padding, [inf], [nan]) is outside this fragment and is answered by
    [ValueError]; the strings the extractor passes are inside it. *)
Definition float (s : text) : result pyfloat :=
  let '(ip, fp) := break_at (code ".") s in
  let fp := match fp with Some f => f | None => [] end in
  if nonempty ip || nonempty fp then
    match digits_value 0 (ip ++ fp) with
    | Some n => Ok (nearest_double (Qmake (Z.of_N n) (pow10 (length fp))))
    | None => Raise ValueError
    end
  else Raise ValueError.

(** [int(s)] on unsigned decimal notation, with the leading blanks [int]
    strips. *)
Definition int (s : text) : result N :=
  match lstrip U s with
  | [] => Raise ValueError
  | d => match digits_value 0 d with
         | Some n => Ok n
         | None => Raise ValueError
         end
  end.
End Numbers.

(** A calendar date, as [datetime.date] holds it. *)
Record calendar_date : Type := {
  year : N;
  month : N;
  day : N
}.

Definition is_leap (y : N) : bool :=
  (y mod 4 =? 0) && (negb (y mod 100 =? 0) || (y mod 400 =? 0)).

Definition days_in_month (y m : N) : N :=
  match m with
  | 1 | 3 | 5 | 7 | 8 | 10 | 12 => 31
  | 4 | 6 | 9 | 11 => 30
  | 2 => if is_leap y then 29 else 28
  | _ => 0
  end.

Definition valid_date (d : calendar_date) : bool :=
  between 1 9999 (year d) && between 1 12 (month d) &&
  between 1 (days_in_month (year d) (month d)) (day d).

(** The constructor [date(y, m, d)], which refuses what is not on the
    calendar. *)
Definition make_date (y m d : N) : result calendar_date :=
  let r := {| year := y; month := m; day := d |} in
  if valid_date r then Ok r else Raise ValueError.

(* ================================================================== *)
(** * [datetime.strptime] *)
(* ================================================================== *)

Definition digit_range (lo hi : ascii) : regex := Cls (CRange (code lo) (code hi)).

(** The pattern of each directive, as [_strptime.TimeRE] defines it. *)
Definition directive_d : regex :=      (* 3[0-1]|[1-2]\d|0[1-9]|[1-9]| [1-9] *)
  Group "d"
    (Alt (Seq (Chr "3") (digit_range "0" "1"))
    (Alt (Seq (digit_range "1" "2") (Cls CDigit))
    (Alt (Seq (Chr "0") (digit_range "1" "9"))
    (Alt (digit_range "1" "9")
         (Seq (Chr " ") (digit_range "1" "9")))))).

Definition directive_m : regex :=      (* 1[0-2]|0[1-9]|[1-9] *)
  Group "m"
    (Alt (Seq (Chr "1") (digit_range "0" "2"))
    (Alt (Seq (Chr "0") (digit_range "1" "9"))
         (digit_range "1" "9"))).

Definition directive_Y : regex :=      (* \d\d\d\d *)
  Group "Y" (Seq (Cls CDigit) (Seq (Cls CDigit) (Seq (Cls CDigit) (Cls CDigit)))).

Definition directive_y : regex :=      (* \d\d *)
  Group "y" (Seq (Cls CDigit) (Cls CDigit)).

Definition directive (c : char) : option regex :=
  if char_eqb c (code "d") then Some directive_d
  else if char_eqb c (code "m") then Some directive_m
  else if char_eqb c (code "Y") then Some directive_Y
  else if char_eqb c (code "y") then Some directive_y
  else None.

(** The pattern a format stands for: each directive replaced by its
    pattern, every other character taken literally.  (The formats in use
    hold no blank and no directive besides [%d %m %Y %y]; any other
    directive is refused.) *)
Fixpoint format_regex (fmt : text) : option regex :=
  match fmt with
  | [] => Some Eps
  | c :: rest =>
      if char_eqb c (code "%") then
        match rest with
        | [] => None
        | d :: rest' =>
            match directive d, format_regex rest' with
            | Some r, Some r' => Some (Seq r r')
            | _, _ => None
            end
        end
      else
        match format_regex rest with
        | Some r' => Some (Seq (Cls (CLit c)) r')
        | None => None
        end
  end.

Section Strptime.
Context (U : UnicodeDB).

Definition int_group (name : string) (default : N) (gs : list (string * text))
  : result N :=
  match group name gs with
  | Some w => int U w
  | None => Ok default
  end.

(** The year: [%Y] as written; [%y] with the pivot 69 (00..68 are 20xx,
    69..99 are 19xx); 1900 when the format has neither. *)
Definition year_of (gs : list (string * text)) : result N :=
  match group "Y" gs with
  | Some w => int U w
  | None =>
      match group "y" gs with
      | Some w =>
          (y <- int U w ;;
           Ok (if y <=? 68 then y + 2000 else y + 1900))%py
      | None => Ok 1900
      end
  end.

(** [datetime.strptime(data, fmt).date()]: the format's pattern must match
    at the start of [data] and leave nothing over, and the fields must
    name a date of the calendar. *)
Definition strptime (data fmt : text) : result calendar_date :=
  match format_regex fmt with
  | None => Raise ValueError
  | Some r =>
      match re_match U r data with
      | None => Raise ValueError               (* does not match format *)
      | Some z =>
          if nonempty (after z) then Raise ValueError   (* unconverted data remains *)
          else
            (y <- year_of (groups z) ;;
             m <- int_group "m" 1 (groups z) ;;
             d <- int_group "d" 1 (groups z) ;;
             make_date y m d)%py
      end
  end.
End Strptime.

(* ================================================================== *)
(** * utils/formatter.py *)
(* ================================================================== *)

(** The three code points the source file spells before [|Rs\.?|INR]. *)
Definition rupee_literal : text := [226; 8218; 185].

(** (?:<rupee>|Rs\.?|INR)?\s?(\d{1,3}(?:,\d{3})*(?:\.\d{1,2})?) *)
Definition number_pattern : regex :=
  Seq (Rep 1 3 (Cls CDigit))
      (Seq (Star (Seq (Chr ",") (Rep 3 3 (Cls CDigit))))
           (Opt (Seq (Chr ".") (Rep 1 2 (Cls CDigit))))).

Definition amount_pattern : regex :=
  Seq (Opt (Alt (Lit rupee_literal)
           (Alt (Seq (Lit (txt "Rs")) (Opt (Chr ".")))
                (Lit (txt "INR")))))
      (Seq (Opt (Cls CSpace))
           (Group "1" number_pattern)).

(** \b\d{1,2}[/-]\d{1,2}[/-]\d{2,4}\b *)
Definition date_pattern : regex :=
  Seq WordB
      (Seq (Rep 1 2 (Cls CDigit))
      (Seq (Cls (COneOf (txt "/-")))
      (Seq (Rep 1 2 (Cls CDigit))
      (Seq (Cls (COneOf (txt "/-")))
      (Seq (Rep 2 4 (Cls CDigit))
           WordB))))).

Definition date_formats : list text :=
  [txt "%d/%m/%Y"; txt "%d-%m-%Y"; txt "%m/%d/%Y"; txt "%d/%m/%y"].

(** [try: body except: handler] with a bare [except], which catches
    everything. *)
Definition try_except {A : Type} (body : result A) (handler : result A) : result A :=
  match body with
  | Ok a => Ok a
  | Raise _ => handler
  end.

Section Formatter.
Context (U : UnicodeDB).

Definition extract_amount (s : text) : result pyfloat :=
  let matches := findall1 U amount_pattern s in
  match matches with
  | _ :: _ => float U (remove_char (code ",") (last matches []))
  | [] => Ok (Finite 0)
  end.

(** The inner loop of [extract_date]: the first format that parses
    [date_str] returns from the function ([Some]); running off the end of
    the formats falls through to the next candidate ([None]). *)
Fixpoint try_formats (date_str : text) (fmts : list text) : result (option calendar_date) :=
  match fmts with
  | [] => Ok None
  | fmt :: rest =>
      try_except
        (d <- strptime U date_str fmt ;; Ok (Some d))%py
        (try_formats date_str rest)
  end.

(** The outer loop over the candidates, in text order. *)
Fixpoint try_candidates (matches : list text) : result (option calendar_date) :=
  match matches with
  | [] => Ok None
  | date_str :: rest =>
      (r <- try_formats date_str date_formats ;;
       match r with
       | Some d => Ok (Some d)
       | None => try_candidates rest
       end)%py
  end.

Definition extract_date (s : text) : result (option calendar_date) :=
  try_candidates (findall0 U date_pattern s).
End Formatter.

(* ================================================================== *)
(** * What the library keeps between calls *)
(* ================================================================== *)

(** [formatter.py] has no global, attribute or default argument of its
    own.  What outlives a call is inside the library: the cache of
    compiled patterns of [re], and the caches of [_strptime], which are
    rebuilt when the locale has changed.  They are made explicit here. *)
Module Stateful.

(** The text a pattern is compiled from: the two pattern strings of
    [formatter.py], and the pattern string [_strptime] builds from a
    format. *)
Inductive source : Type :=
| AmountSource
| DateSource
| FormatSource (fmt : text).

Definition source_eqb (a b : source) : bool :=
  match a, b with
  | AmountSource, AmountSource => true
  | DateSource, DateSource => true
  | FormatSource f, FormatSource g => text_eqb f g
  | _, _ => false
  end.

(** What compiling a source gives ([None]: a format with a directive that
    [_strptime] does not know, for which no pattern string is built). *)
Definition sre_compile (src : source) : option regex :=
  match src with
  | AmountSource => Some amount_pattern
  | DateSource => Some date_pattern
  | FormatSource fmt => format_regex fmt
  end.

(** What [_strptime] compares before it trusts its caches: the language
    of [LC_TIME], [time.tzname] and [time.daylight]. *)
Record locale : Type := {
  lc_time : text;
  tzname : text * text;
  daylight : bool
}.

Definition locale_eqb (a b : locale) : bool :=
  text_eqb (lc_time a) (lc_time b) &&
  text_eqb (fst (tzname a)) (fst (tzname b)) &&
  text_eqb (snd (tzname a)) (snd (tzname b)) &&
  Bool.eqb (daylight a) (daylight b).

Record runtime : Type := {
  re_cache : list (source * regex);   (* [re._cache], oldest entry first *)
  TimeRE_locale : locale;             (* [_strptime._TimeRE_cache.locale_time] *)
  regex_cache : list (text * regex)   (* [_strptime._regex_cache] *)
}.

(** A computation that reads and writes the runtime; an exception leaves
    the runtime as it was when it was raised. *)
Definition stateful (A : Type) : Type := runtime -> result A * runtime.

(** [cache.get(key)] *)
Fixpoint cached {K V : Type} (eqb : K -> K -> bool) (key : K) (cache : list (K * V))
  : option V :=
  match cache with
  | [] => None
  | (k, v) :: rest => if eqb k key then Some v else cached eqb key rest
  end.

Definition _MAXCACHE : nat := 512.
Definition _CACHE_MAX_SIZE : nat := 5.

(** [re._compile]: the compiled pattern from the cache, or compiled now
    and stored, the oldest entry dropped when the cache is full. *)
Definition _compile (src : source) : stateful regex := fun rt =>
  match cached source_eqb src (re_cache rt) with
  | Some p => (Ok p, rt)
  | None =>
      match sre_compile src with
      | None => (Raise (External "KeyError"), rt)
      | Some p =>
          let kept := if Nat.leb _MAXCACHE (length (re_cache rt))
                      then tl (re_cache rt) else re_cache rt in
          (Ok p, {| re_cache := kept ++ [(src, p)];
                    TimeRE_locale := TimeRE_locale rt;
                    regex_cache := regex_cache rt |})
      end
  end.

Section Calls.
Context (U : UnicodeDB).

(** What [extract_amount] does with the matches. *)
Definition amount_of (matches : list text) : result pyfloat :=
  match matches with
  | _ :: _ => float U (remove_char (code ",") (last matches []))
  | [] => Ok (Finite 0)
  end.

Definition extract_amount (s : text) : stateful pyfloat := fun rt =>
  match _compile AmountSource rt with
  | (Ok p, rt') => (amount_of (findall1 U p s), rt')
  | (Raise e, rt') => (Raise e, rt')
  end.

(** What [_strptime] does once it has the compiled format. *)
Definition parse (format_regex : regex) (data : text) : result calendar_date :=
  match re_match U format_regex data with
  | None => Raise ValueError
  | Some z =>
      if nonempty (after z) then Raise ValueError
      else
        (y <- year_of U (groups z) ;;
         m <- int_group U "m" 1 (groups z) ;;
         d <- int_group U "d" 1 (groups z) ;;
         make_date y m d)%py
  end.

(** [_strptime._strptime], with the locale the process is in at the call:
    a changed locale empties the caches, more than five cached formats
    empty the format cache, and a format not cached is compiled and
    stored. *)
Definition strptime (env : locale) (data fmt : text) : stateful calendar_date :=
  fun rt =>
    let rt :=
      if locale_eqb env (TimeRE_locale rt) then rt
      else {| re_cache := re_cache rt; TimeRE_locale := env; regex_cache := [] |} in
    let rt :=
      if Nat.ltb _CACHE_MAX_SIZE (length (regex_cache rt))
      then {| re_cache := re_cache rt; TimeRE_locale := TimeRE_locale rt;
              regex_cache := [] |}
      else rt in
    match cached text_eqb fmt (regex_cache rt) with
    | Some format_regex => (parse format_regex data, rt)
    | None =>
        match _compile (FormatSource fmt) rt with
        | (Raise _, rt') => (Raise ValueError, rt')
        | (Ok format_regex, rt') =>
            (parse format_regex data,
             {| re_cache := re_cache rt'; TimeRE_locale := TimeRE_locale rt';
                regex_cache := regex_cache rt' ++ [(fmt, format_regex)] |})
        end
    end.

Fixpoint try_formats (env : locale) (date_str : text) (fmts : list text)
  : stateful (option calendar_date) := fun rt =>
  match fmts with
  | [] => (Ok None, rt)
  | fmt :: rest =>
      match strptime env date_str fmt rt with
      | (Ok d, rt') => (Ok (Some d), rt')
      | (Raise _, rt') => try_formats env date_str rest rt'
      end
  end.

Fixpoint try_candidates (env : locale) (matches : list text)
  : stateful (option calendar_date) := fun rt =>
  match matches with
  | [] => (Ok None, rt)
  | date_str :: rest =>
      match try_formats env date_str date_formats rt with
      | (Ok (Some d), rt') => (Ok (Some d), rt')
      | (Ok None, rt') => try_candidates env rest rt'
      | (Raise e, rt') => (Raise e, rt')
      end
  end.

Definition extract_date (env : locale) (s : text) : stateful (option calendar_date) :=
  fun rt =>
    match _compile DateSource rt with
    | (Ok p, rt') => try_candidates env (findall0 U p s) rt'
    | (Raise e, rt') => (Raise e, rt')
    end.
End Calls.

(** A runtime as the library can have left it: every cached pattern is
    what compiling its source gives. *)
Definition coherent (rt : runtime) : Prop :=
  (forall src p, In (src, p) (re_cache rt) -> sre_compile src = Some p) /\
  (forall fmt r, In (fmt, r) (regex_cache rt) -> format_regex fmt = Some r).

(** The runtime of an interpreter that has just imported the module. *)
Definition fresh (env : locale) : runtime :=
  {| re_cache := []; TimeRE_locale := env; regex_cache := [] |}.

End Stateful.

(** Two locales, and a runtime with entries in both caches, for examples. *)
Definition locale_C : Stateful.locale :=
  {| Stateful.lc_time := txt "C"; Stateful.tzname := (txt "UTC", txt "UTC");
     Stateful.daylight := false |}.

Definition locale_de : Stateful.locale :=
  {| Stateful.lc_time := txt "de_DE"; Stateful.tzname := (txt "CET", txt "CEST");
     Stateful.daylight := true |}.

Definition warm_runtime : Stateful.runtime :=
  {| Stateful.re_cache :=
       [(Stateful.DateSource, date_pattern);
        (Stateful.FormatSource (txt "%d/%m/%y"),
         Seq directive_d (Seq (Cls (CLit (code "/")))
           (Seq directive_m (Seq (Cls (CLit (code "/"))) (Seq directive_y Eps)))))];
     Stateful.TimeRE_locale := locale_C;
     Stateful.regex_cache :=
       [(txt "%d/%m/%Y",
         Seq directive_d (Seq (Cls (CLit (code "/")))
           (Seq directive_m (Seq (Cls (CLit (code "/"))) (Seq directive_Y Eps)))));
        (txt "%d/%m/%y",
         Seq directive_d (Seq (Cls (CLit (code "/")))
           (Seq directive_m (Seq (Cls (CLit (code "/"))) (Seq directive_y Eps)))))] |}.

(* ================================================================== *)
(** * backend/app/services/ai_service.py *)
(* ================================================================== *)

(** [any(word in s for word in words)] *)
Definition any_in (words : list string) (s : text) : bool :=
  existsb (fun word => contains (txt word) s) words.

(** [x in xs] for a list of strings. *)
Definition member (x : text) (xs : list text) : bool :=
  existsb (text_eqb x) xs.

Module AiService.

Definition TRANSACTION_CATEGORIES : list text :=
  map txt
    [ "Food & Dining"; "Transportation"; "Shopping"; "Entertainment";
      "Healthcare"; "Utilities"; "Housing"; "Insurance"; "Education";
      "Travel"; "Investment"; "Salary"; "Freelance"; "Gifts"; "Other" ]%string.

(** What the chat-completion request answers: the [message.content] of
    each of [response.choices] ([None] for a message without content). *)
Definition response : Type := list (option text).

Section Service.
Context (U : UnicodeDB).
(** [settings.OPENAI_API_KEY]; the empty string when not configured. *)
Context (OPENAI_API_KEY : text).
(** [await openai.ChatCompletion.acreate(...)]: the request is fixed but
    for the description embedded in the prompt.  Whatever it raises is an
    [Exception], which is what the [except] clause below catches. *)
Context (acreate : text -> result response).

Definition _simple_categorization (description : text) : text :=
  let description_lower := lower U description in
  if any_in ["restaurant"; "food"; "dining"; "cafe"; "coffee"; "pizza"; "burger"]%string
            description_lower
  then txt "Food & Dining"
  else if any_in ["uber"; "lyft"; "taxi"; "gas"; "fuel"; "parking"; "metro"; "bus"]%string
            description_lower
  then txt "Transportation"
  else if any_in ["amazon"; "walmart"; "target"; "shop"; "store"; "mall"]%string
            description_lower
  then txt "Shopping"
  else if any_in ["netflix"; "spotify"; "movie"; "game"; "concert"; "theater"]%string
            description_lower
  then txt "Entertainment"
  else if any_in ["doctor"; "hospital"; "pharmacy"; "medical"; "health"]%string
            description_lower
  then txt "Healthcare"
  else if any_in ["electric"; "water"; "gas"; "internet"; "phone"; "utility"]%string
            description_lower
  then txt "Utilities"
  else if any_in ["rent"; "mortgage"; "home"; "apartment"]%string
            description_lower
  then txt "Housing"
  else if any_in ["salary"; "payroll"; "income"; "deposit"]%string
            description_lower
  then txt "Salary"
  else txt "Other".

(** [response.choices[0].message.content.strip()] *)
Definition first_content (r : response) : result text :=
  match r with
  | [] => Raise IndexError
  | None :: _ => Raise AttributeError
  | Some content :: _ => Ok (strip U content)
  end.

Definition categorize_transaction (description : text) : result (text * Q) :=
  if negb (nonempty OPENAI_API_KEY) then
    Ok (_simple_categorization description, 0.7%Q)
  else
    try_except
      (r <- acreate description ;;
       category <- first_content r ;;
       let category :=
         if negb (member category TRANSACTION_CATEGORIES)
         then txt "Other" else category in
       Ok (category, 0.9%Q))%py
      (Ok (_simple_categorization description, 0.5%Q)).
End Service.

End AiService.

(* ================================================================== *)
(** * src/expense_tracker.py *)
(* ================================================================== *)

Module ExpenseTracker.

(** [self.categories] *)
Definition categories : list text :=
  map txt
    [ "Food & Dining"; "Transportation"; "Shopping"; "Bills & Utilities";
      "Entertainment"; "Healthcare"; "Education"; "Travel"; "Insurance";
      "Investment"; "Income"; "Other" ]%string.

(** The dictionary literal of [predict_category], in insertion order,
    which is the order [items()] yields. *)
Definition category_keywords : list (string * list string) :=
  [ ("Food & Dining", ["restaurant"; "cafe"; "coffee"; "grocery"; "food"; "dining"; "meal"; "pizza"; "burger"]);
    ("Transportation", ["gas"; "fuel"; "uber"; "lyft"; "taxi"; "bus"; "train"; "parking"; "toll"]);
    ("Shopping", ["amazon"; "walmart"; "target"; "mall"; "store"; "shop"; "clothing"; "shoes"]);
    ("Bills & Utilities", ["electric"; "water"; "gas"; "internet"; "phone"; "utility"; "bill"]);
    ("Entertainment", ["netflix"; "spotify"; "movie"; "theater"; "concert"; "game"; "entertainment"]);
    ("Healthcare", ["doctor"; "pharmacy"; "medical"; "dental"; "health"; "medicine"]);
    ("Education", ["tuition"; "book"; "course"; "education"; "school"; "university"]);
    ("Travel", ["hotel"; "flight"; "airline"; "vacation"; "travel"; "trip"]);
    ("Insurance", ["insurance"; "premium"; "coverage"]);
    ("Investment", ["stock"; "investment"; "portfolio"; "fund"; "broker"]);
    ("Income", ["salary"; "deposit"; "income"; "payment"; "refund"]) ]%string.

(** The loop over [category_keywords.items()]: the first category one of
    whose keywords occurs in the description. *)
Fixpoint first_rule (rules : list (string * list string)) (description_lower : text)
  : option text :=
  match rules with
  | [] => None
  | (category, keywords) :: rest =>
      if any_in keywords description_lower then Some (txt category)
      else first_rule rest description_lower
  end.

Section Tracker.
Context (U : UnicodeDB).

Definition predict_category (description : text) (amount : Q) : text :=
  let description_lower := lower U description in
  match first_rule category_keywords description_lower with
  | Some category => category
  | None =>
      if negb (Qle_bool amount 0) then txt "Income"
      else if contains (txt "subscription") description_lower
              || contains (txt "monthly") description_lower
      then txt "Bills & Utilities"
      else txt "Other"
  end.
End Tracker.

End ExpenseTracker.

(* ================================================================== *)
(** * ocr/ocr_engine.py and ocr/receipt_parser.py *)
(* ================================================================== *)

Module ReceiptParser.

Record ReceiptRecord : Type := {
  vendor : text;
  amount : pyfloat;
  date : option calendar_date;
  category : text;
  raw_text : text
}.

Section Pipeline.
Context (U : UnicodeDB).
(** The outside collaborators: OpenCV's thresholding, the Tesseract
    call, and [models.categorizer.predict_category]. *)
Context (image : Type).
Context (preprocess_image : image -> result image).
Context (image_to_string : image -> result text).
Context (predict_category : text -> result text).

Definition extract_text_from_image (img : image) : result text :=
  (preprocessed <- preprocess_image img ;;
   s <- image_to_string preprocessed ;;
   Ok s)%py.

(** [lines[0] if lines else "Unknown Vendor"], over the stripped
    non-blank lines. *)
Definition vendor_of (raw : text) : text :=
  let lines := split 10 (strip U raw) in
  let lines := map (strip U) (filter (fun line => nonempty (strip U line)) lines) in
  match lines with
  | line :: _ => line
  | [] => txt "Unknown Vendor"
  end.

Definition extract_receipt_data (img : image) : result ReceiptRecord :=
  (raw <- extract_text_from_image img ;;
   let v := vendor_of raw in
   a <- extract_amount U raw ;;
   d <- extract_date U raw ;;
   c <- predict_category raw ;;
   Ok {| vendor := v; amount := a; date := d; category := c; raw_text := raw |})%py.
End Pipeline.

End ReceiptParser.

(* ================================================================== *)
(** * src/expense_tracker.py: the add-transaction form and the assistant *)
(* ================================================================== *)

(** [xs.index(x)]: the position of the first element equal to [x];
    [ValueError] when there is none. *)
Fixpoint index (x : text) (xs : list text) : result nat :=
  match xs with
  | [] => Raise ValueError
  | y :: ys =>
      if text_eqb y x then Ok 0%nat
      else (i <- index x ys ;; Ok (S i))%py
  end.

Module ExpenseTrackerForm.

Section Form.
Context (U : UnicodeDB).

(** [show_add_transaction]: the preselected entry of the category box,
    [self.categories.index(predicted_category) if description else 0],
    with [predicted_category] computed only for a non-empty description. *)
Definition category_index (description : text) (amount : Q) : result nat :=
  if nonempty description
  then index (ExpenseTracker.predict_category U description amount)
             ExpenseTracker.categories
  else Ok 0%nat.

(** The dictionary literal of [generate_ai_response], in insertion order. *)
Definition responses : list (string * string) :=
  [ ("where did most of my money go",
     "Based on your spending data, most of your money went to Food & Dining (32%), followed by Transportation (25%) and Shopping (18%).");
    ("can i afford",
     "Based on your current income and spending patterns, you have $1,200 available for discretionary spending this month.");
    ("how much should i save",
     "Financial experts recommend saving 20% of your income. With your current income, you should aim to save $900/month.");
    ("budget",
     "Your current budget allocation looks good, but consider reducing dining out expenses to increase your savings rate.") ]%string.

Definition default_response : string :=
  "I can help you analyze your spending patterns, create budgets, and provide financial advice. Please ask a specific question about your finances.".

(** The loop over [responses.items()]. *)
Fixpoint first_response (rs : list (string * string)) (question_lower : text)
  : option text :=
  match rs with
  | [] => None
  | (key, response) :: rest =>
      if contains (txt key) question_lower then Some (txt response)
      else first_response rest question_lower
  end.

Definition generate_ai_response (question : text) : text :=
  let question_lower := lower U question in
  match first_response responses question_lower with
  | Some response => response
  | None => txt default_response
  end.
End Form.

End ExpenseTrackerForm.

(* ================================================================== *)
(** * backend/app/services/ai_service.py: insights *)
(* ================================================================== *)

(** [sep.join(lines)] *)
Fixpoint join (sep : text) (lines : list text) : text :=
  match lines with
  | [] => []
  | [l] => l
  | l :: rest => l ++ sep ++ join sep rest
  end.

Module AiInsights.

(** What [get_financial_insights] reads of a transaction. *)
Record Txn (A : Type) : Type := {
  t_category : text;
  t_amount : A;
  t_description : text
}.

Arguments t_category {A} _.
Arguments t_amount {A} _.
Arguments t_description {A} _.

(** The dictionary returned: [{"message": m}] or
    [{"insights": content, "generated_at": stamp}]. *)
Inductive insights : Type :=
| Message (m : string)
| Insights (content : option text) (generated_at : string).

Section Insights.
Context (OPENAI_API_KEY : text).
(** The amounts and how [str] writes them. *)
Context (A : Type) (str_amount : A -> text).
(** The chat-completion request: fixed but for the transaction lines
    embedded in the prompt. *)
Context (acreate : text -> result AiService.response).

(** f"{t.category}: ${t.amount} - {t.description}" *)
Definition summary_line (t : Txn A) : text :=
  t_category t ++ txt ": $" ++ str_amount (t_amount t) ++ txt " - " ++ t_description t.

(** The prompt joins the lines inside an f-string, with a backslash in the
    expression part, which Python reads from version 3.12 on. *)
Definition get_financial_insights (transactions : list (Txn A)) : result insights :=
  if negb (nonempty OPENAI_API_KEY) then
    Ok (Message "AI insights not available")
  else
    try_except
      (let transaction_summary := map summary_line (firstn 50 transactions) in
       r <- acreate (join [10] transaction_summary) ;;
       content <- match r with
                  | [] => Raise IndexError
                  | c :: _ => Ok c
                  end ;;
       Ok (Insights content "2024-01-01T00:00:00Z"))%py
      (Ok (Message "Unable to generate insights at this time")).
End Insights.

End AiInsights.

(* ================================================================== *)
(** * backend/app/models: what the classes declare to the mapper *)
(* ================================================================== *)

Module Orm.

(** [name = relationship(target, back_populates=...)] *)
Record relationship : Type := {
  rel_name : string;
  rel_target : string;
  rel_back_populates : option string
}.

Record mapped_class : Type := {
  class_name : string;
  relationships : list relationship
}.

(** [models/user.py]: columns only, no relationship. *)
Definition User : mapped_class :=
  {| class_name := "User"; relationships := [] |}.

(** [models/transaction.py]:
    [user = relationship("User", back_populates="transactions")]. *)
Definition Transaction : mapped_class :=
  {| class_name := "Transaction";
     relationships :=
       [ {| rel_name := "user"; rel_target := "User";
            rel_back_populates := Some "transactions"%string |} ] |}.

(** [sqlalchemy.exc.InvalidRequestError] *)
Definition InvalidRequestError : exn := External "sqlalchemy.exc.InvalidRequestError".

Definition has_relationship (c : mapped_class) (name : string) : bool :=
  existsb (fun r => String.eqb (rel_name r) name) (relationships c).

(** A relationship is configured when its target is a mapped class and,
    with [back_populates], when the target declares the relationship
    named there. *)
Definition configure_relationship (registry : list mapped_class) (r : relationship)
  : result unit :=
  match find (fun c => String.eqb (class_name c) (rel_target r)) registry with
  | None => Raise InvalidRequestError
  | Some target =>
      match rel_back_populates r with
      | None => Ok tt
      | Some name =>
          if has_relationship target name then Ok tt else Raise InvalidRequestError
      end
  end.

Fixpoint configure_all (registry : list mapped_class) (rs : list relationship)
  : result unit :=
  match rs with
  | [] => Ok tt
  | r :: rest =>
      (configured <- configure_relationship registry r ;;
       configure_all registry rest)%py
  end.

(** [configure_mappers()]: every relationship of every class of the
    registry. *)
Definition configure_mappers (registry : list mapped_class) : result unit :=
  configure_all registry (flat_map relationships registry).

End Orm.

(* ================================================================== *)
(** * backend/app/api/v1/endpoints/transactions.py *)
(* ================================================================== *)

Module Transactions.

(** A row of the [transactions] table.  [amount] is a [Numeric(10, 2)],
    held as its number of hundredths; dates are instants on a time line. *)
Record Transaction : Type := {
  id : Z;
  user_id : Z;
  amount : Z;
  currency : text;
  description : text;
  category : text;
  subcategory : option text;
  transaction_type : text;
  transaction_date : Z;
  merchant : option text;
  location : option text;
  tags : option (list text);
  notes : option text
}.

(** The request body of [create_transaction] ([TransactionCreate]). *)
Record TransactionCreate : Type := {
  c_amount : Z;
  c_currency : text;
  c_description : text;
  c_category : text;
  c_subcategory : option text;
  c_transaction_type : text;
  c_transaction_date : Z;
  c_merchant : option text;
  c_location : option text;
  c_tags : option (list text);
  c_notes : option text
}.

(** The row built from the fields of the request and the user's id, with
    the primary key the database gives it. *)
Definition new_row (key user : Z) (t : TransactionCreate) (cat : text) : Transaction :=
  {| id := key; user_id := user;
     amount := c_amount t; currency := c_currency t;
     description := c_description t; category := cat;
     subcategory := c_subcategory t;
     transaction_type := c_transaction_type t;
     transaction_date := c_transaction_date t;
     merchant := c_merchant t; location := c_location t;
     tags := c_tags t; notes := c_notes t |}.

(** [HTTPException(status_code=404, detail="Transaction not found")] *)
Definition not_found : exn := External "HTTPException 404: Transaction not found".

(** [query.filter(cond)] when the optional filter [f] is given and true,
    [query] otherwise. *)
Definition filter_if {F : Type} (f : option F) (truthy : F -> bool)
    (cond : F -> Transaction -> bool) (query : list Transaction) : list Transaction :=
  match f with
  | Some v => if truthy v then filter (cond v) query else query
  | None => query
  end.

(** [db.delete(row)]: the row leaves the table. *)
Fixpoint delete_row (p : Transaction -> bool) (table : list Transaction)
  : list Transaction :=
  match table with
  | [] => []
  | r :: rest => if p r then rest else r :: delete_row p rest
  end.

Section Endpoints.
Context (U : UnicodeDB).
Context (OPENAI_API_KEY : text).
Context (acreate : text -> result AiService.response).
(** The primary key the database gives a new row of the table. *)
Context (next_id : list Transaction -> Z).
(** The other classes the application has mapped. *)
Context (others : list Orm.mapped_class).

(** The first use of a mapped class, constructing one or querying it,
    configures the mappers of the registry. *)
Definition use_mapper : result unit :=
  Orm.configure_mappers (Orm.User :: Orm.Transaction :: others).

(** The session is the table: every endpoint takes it and the ones that
    commit return the table they leave.  The table accepts every row: what
    a database may refuse at [commit] (a value too wide for its column, a
    type the driver cannot bind) is outside this model. *)
Definition create_transaction (transaction : TransactionCreate) (current_user : Z)
    (db : list Transaction) : result (Transaction * list Transaction) :=
  (cat <- (if negb (nonempty (c_category transaction)) then
             (r <- AiService.categorize_transaction U OPENAI_API_KEY acreate
                     (c_description transaction) ;;
              Ok (fst r))
           else Ok (c_category transaction)) ;;
   configured <- use_mapper ;;
   let db_transaction := new_row (next_id db) current_user transaction cat in
   Ok (db_transaction, db ++ [db_transaction]))%py.

Definition owned (tid user : Z) (r : Transaction) : bool :=
  Z.eqb (id r) tid && Z.eqb (user_id r) user.

Definition get_transactions (skip limit : nat)
    (category_filter transaction_type_filter : option text)
    (start_date end_date : option Z)
    (current_user : Z) (db : list Transaction) : result (list Transaction) :=
  (configured <- use_mapper ;;
   let query := filter (fun r => Z.eqb (user_id r) current_user) db in
   let query := filter_if category_filter nonempty
                  (fun c r => text_eqb (category r) c) query in
   let query := filter_if transaction_type_filter nonempty
                  (fun t r => text_eqb (transaction_type r) t) query in
   let query := filter_if start_date (fun _ => true)
                  (fun d r => Z.leb d (transaction_date r)) query in
   let query := filter_if end_date (fun _ => true)
                  (fun d r => Z.leb (transaction_date r) d) query in
   Ok (firstn limit (skipn skip query)))%py.

Definition get_transaction (transaction_id current_user : Z) (db : list Transaction)
  : result Transaction :=
  (configured <- use_mapper ;;
   match find (owned transaction_id current_user) db with
   | Some transaction => Ok transaction
   | None => Raise not_found
   end)%py.

Definition delete_transaction (transaction_id current_user : Z) (db : list Transaction)
  : result (string * list Transaction) :=
  (configured <- use_mapper ;;
   match find (owned transaction_id current_user) db with
   | Some transaction =>
       Ok ("Transaction deleted successfully"%string,
           delete_row (owned transaction_id current_user) db)
   | None => Raise not_found
   end)%py.
End Endpoints.

End Transactions.

(* ================================================================== *)
(** * chatbot/nlp_utils.py *)
(* ================================================================== *)

Module NlpUtils.

Section Nlp.
Context (U : UnicodeDB).

(** The characters [[^a-zA-Z0-9\s<rupee>.,:/-]] does not match, the rupee
    sign being U+20B9. *)
Definition kept (c : char) : bool :=
  between 97 122 c || between 65 90 c || between 48 57 c ||
  isspace U c || char_eqb c 8377 || existsb (char_eqb c) (txt ".,:/-").

(** [re.sub] with the empty replacement, for a pattern of one character
    class, deletes the characters of the class; then [.lower().strip()]. *)
Definition clean_input (s : text) : text :=
  let s := filter kept s in
  strip U (lower U s).
End Nlp.

End NlpUtils.

(* ================================================================== *)
(** * utils.py *)
(* ================================================================== *)

Module Utils.

(** [calculate_age], with [datetime.now()] as [today]. *)
Definition calculate_age (today birth_date : calendar_date) : Z :=
  let age := (Z.of_N (year today) - Z.of_N (year birth_date))%Z in
  if (month today <? month birth_date)
     || ((month today =? month birth_date) && (day today <? day birth_date))
  then (age - 1)%Z else age.

(** [[a-zA-Z]] *)
Definition letter_class : regex :=
  Alt (Cls (CRange (code "a") (code "z"))) (Cls (CRange (code "A") (code "Z"))).

(** [[a-zA-Z0-9._%+-]] *)
Definition local_class : regex :=
  Alt letter_class
      (Alt (Cls (CRange (code "0") (code "9"))) (Cls (COneOf (txt "._%+-")))).

(** [[a-zA-Z0-9.-]] *)
Definition domain_class : regex :=
  Alt letter_class
      (Alt (Cls (CRange (code "0") (code "9"))) (Cls (COneOf (txt ".-")))).

(** [r+] *)
Definition Plus (r : regex) : regex := Seq r (Star r).

(** [[a-zA-Z0-9._%+-]+@[a-zA-Z0-9.-]+\.[a-zA-Z]{2,}], the pattern of
    [validate_email] between its anchors. *)
Definition email_pattern : regex :=
  Seq (Plus local_class)
      (Seq (Chr "@")
      (Seq (Plus domain_class)
      (Seq (Chr ".")
      (Seq letter_class (Seq letter_class (Star letter_class)))))).

(** Where [$] holds: at the end of the subject, or before a line feed that
    ends it. *)
Definition at_end (z : cursor) : bool :=
  match after z with
  | [] => true
  | [c] => char_eqb c 10
  | _ => false
  end.

(** [re.match(pattern, email) is not None]: [re.match] anchors the pattern
    at the start, and the matcher backtracks until some way through the
    pattern ends where [$] holds. *)
Definition validate_email (U : UnicodeDB) (email : text) : bool :=
  existsb at_end (run U email_pattern {| before := []; after := email; groups := [] |}).

End Utils.

(* ================================================================== *)
(** * Vocabulary of the statements *)
(* ================================================================== *)

(** A date earlier than another, year first, then month, then day; [k]
    years are added to the first. *)
Definition date_lt_shifted (a : calendar_date) (k : Z) (b : calendar_date) : Prop :=
  let ya := (Z.of_N (year a) + k)%Z in
  let yb := Z.of_N (year b) in
  (ya < yb)%Z \/
  (ya = yb /\ (month a < month b \/ (month a = month b /\ day a < day b))).

Definition date_le_shifted (a : calendar_date) (k : Z) (b : calendar_date) : Prop :=
  date_lt_shifted a k b \/
  ((Z.of_N (year a) + k)%Z = Z.of_N (year b) /\ month a = month b /\ day a = day b).

(** A number below 100 in two decimal digits, one below 10000 in four. *)
Definition two_digits (n : N) : text := [48 + n / 10; 48 + n mod 10].

Definition four_digits (n : N) : text :=
  [48 + n / 1000; 48 + (n / 100) mod 10; 48 + (n / 10) mod 10; 48 + n mod 10].

(** A date written DD/MM/YYYY. *)
Definition written_dmY (d : calendar_date) : text :=
  two_digits (day d) ++ [code "/"] ++ two_digits (month d) ++ [code "/"]
  ++ four_digits (year d).

(** No character of [s] is [c]. *)
Definition lacks (c : char) (s : text) : bool :=
  forallb (fun x => negb (char_eqb x c)) s.

(** What [clean_input] leaves of an ASCII text: lowercase letters, digits,
    blanks and the punctuation [.,:/-]. *)
Definition clean_char (U : UnicodeDB) (c : char) : bool :=
  is_ascii c && NlpUtils.kept U c && negb (between 65 90 c).

(** A pattern without [\b] and without groups. *)
Fixpoint plain (r : regex) : bool :=
  match r with
  | Eps | Cls _ => true
  | WordB | Group _ _ => false
  | Seq r1 r2 | Alt r1 r2 => plain r1 && plain r2
  | Opt r1 | Star r1 => plain r1
  end.

Definition letter (c : char) : bool :=
  between (code "a") (code "z") c || between (code "A") (code "Z") c.

Definition local_char (c : char) : bool :=
  letter c || between (code "0") (code "9") c || existsb (char_eqb c) (txt "._%+-").

Definition domain_char (c : char) : bool :=
  letter c || between (code "0") (code "9") c || existsb (char_eqb c) (txt ".-").

(** [local@domain.tld], with an optional line feed after it. *)
Definition email_shape (s : text) : Prop :=
  exists loc dom tld tail,
    s = loc ++ code "@" :: dom ++ code "." :: tld ++ tail /\
    loc <> [] /\ forallb local_char loc = true /\
    dom <> [] /\ forallb domain_char dom = true /\
    (2 <= length tld)%nat /\ forallb letter tld = true /\
    (tail = [] \/ tail = [10]).

(** A text of ASCII digits. *)
Definition ascii_digits (s : text) : bool := forallb (between 48 57) s.

(** The fraction of a written amount: a point and its digits, or nothing. *)
Definition fraction (fp : option text) : text :=
  match fp with Some f => code "." :: f | None => [] end.

(** An amount written with thousands separators: the leading digits, the
    groups after each comma, the fraction. *)
Definition grouped (ip : text) (gl : list text) (fp : option text) : text :=
  ip ++ concat (map (cons (code ",")) gl) ++ fraction fp.

(** One to three leading digits, groups of three, one or two decimals. *)
Definition well_grouped (ip : text) (gl : list text) (fp : option text) : bool :=
  ascii_digits ip && Nat.leb 1 (length ip) && Nat.leb (length ip) 3 &&
  forallb (fun g => ascii_digits g && Nat.eqb (length g) 3) gl &&
  match fp with
  | Some f => ascii_digits f && Nat.leb 1 (length f) && Nat.leb (length f) 2
  | None => true
  end.

(** The text does not go on with a digit. *)
Definition stops (U : UnicodeDB) (rest : text) : Prop :=
  match rest with
  | [] => True
  | c :: _ => isdecimal U c = false
  end.

(* ================================================================== *)
(** * What a pattern can match *)
(* ================================================================== *)

Section Language.
Context (U : UnicodeDB).

(** The words a pattern matches, whatever the surroundings ([\b] is read
    as the empty word). *)
Fixpoint lang (r : regex) (w : text) : Prop :=
  match r with
  | Eps => w = []
  | Cls k => exists c, w = [c] /\ in_class U k c = true
  | WordB => w = []
  | Seq r1 r2 => exists w1 w2, w = w1 ++ w2 /\ lang r1 w1 /\ lang r2 w2
  | Alt r1 r2 => lang r1 w \/ lang r2 w
  | Opt r1 => w = [] \/ lang r1 w
  | Star r1 => exists ws, w = concat ws /\ Forall (lang r1) ws
  | Group _ r1 => lang r1 w
  end.

(** Every character class of [r] lies inside [p]. *)
Fixpoint alphabet (p : char -> bool) (r : regex) : Prop :=
  match r with
  | Eps | WordB => True
  | Cls k => forall c, in_class U k c = true -> p c = true
  | Seq r1 r2 | Alt r1 r2 => alphabet p r1 /\ alphabet p r2
  | Opt r1 | Star r1 | Group _ r1 => alphabet p r1
  end.
(** The characters of group 1 before the decimal point. *)
Definition digit_or_comma (c : char) : bool :=
  isdecimal U c || char_eqb c (code ",").
End Language.

(** The cursor [z'] is [z] moved right over the word [w]. *)
Definition moved (z : cursor) (w : text) (z' : cursor) : Prop :=
  before z' = rev w ++ before z /\ after z = w ++ after z'.

(** The matches of a scan come in text order and do not overlap. *)
Definition precedes (a b : found) : Prop :=
  (start a < start b)%nat /\ (stop a <= start b)%nat.

(** [s[i:j]] *)
Definition slice (s : text) (i j : nat) : text := firstn (j - i) (skipn i s).

(** Two evaluations of the same expression, one after the other. *)
Definition twice {A : Type} (run : result A) : result (A * A) :=
  (x <- run ;; y <- run ;; Ok (x, y))%py.

(** The evaluation ends in an exception. *)
Definition raises {A : Type} (r : result A) : Prop := exists e, r = Raise e.

(** The formats of [extract_date] that read the day before the month. *)
Definition day_first_formats : list text :=
  [txt "%d/%m/%Y"; txt "%d-%m-%Y"; txt "%d/%m/%y"].

(** Neither of the separators of the date pattern. *)
Definition no_sep (c : char) : bool :=
  negb (char_eqb c (code "/")) && negb (char_eqb c (code "-")).

(** A date string: two fields and a year of [n] characters, separated by
    [sep]. *)
Definition date_shape (sep : char) (n : nat) (s : text) : Prop :=
  exists a b y,
    s = a ++ sep :: b ++ sep :: y /\
    forallb no_sep a = true /\ forallb no_sep b = true /\ forallb no_sep y = true /\
    length y = n.

(** [\b] between the text to the left of a position (nearest character
    first) and the text to its right: a word character on exactly one
    side. *)
Definition boundary (U : UnicodeDB) (left right : text) : Prop :=
  xorb (word_at U left) (word_at U right) = true.

(** The digits of a text, whatever stands between them passed over. *)
Fixpoint digits_in (U : UnicodeDB) (w : text) : list N :=
  match w with
  | [] => []
  | c :: w' =>
      match decimal U c with
      | Some d => d :: digits_in U w'
      | None => digits_in U w'
      end
  end.

(** Digits read in base ten. *)
Definition base_ten (ds : list N) : N := fold_left (fun n d => n * 10 + d) ds 0.

(** What follows the first point of a text. *)
Fixpoint after_point (w : text) : text :=
  match w with
  | [] => []
  | c :: w' => if char_eqb c (code ".") then w' else after_point w'
  end.

(** The number a written amount denotes: its digits in base ten, the
    thousands separators passed over, one decimal place for every digit
    after the point. *)
Definition denoted (U : UnicodeDB) (w : text) : Q :=
  Qmake (Z.of_N (base_ten (digits_in U w)))
        (pow10 (length (digits_in U (after_point w)))).

(** A run of [lo] to [hi] decimal digits. *)
Definition digit_run (U : UnicodeDB) (lo hi : nat) (w : text) : Prop :=
  forallb (isdecimal U) w = true /\ (lo <= length w <= hi)%nat.

(** One of the separators of a date. *)
Definition date_sep (c : char) : bool :=
  char_eqb c (code "/") || char_eqb c (code "-").

(** A token of the form D[/-]M[/-]Y: one or two digits, a separator, one
    or two digits, a separator, two to four digits. *)
Definition date_token (U : UnicodeDB) (w : text) : Prop :=
  exists d s1 m s2 y,
    w = d ++ s1 :: m ++ s2 :: y /\
    digit_run U 1 2 d /\ date_sep s1 = true /\
    digit_run U 1 2 m /\ date_sep s2 = true /\
    digit_run U 2 4 y.
(** A date token D[/-]M[/-]Y stands at index [i] of [s], with a word
    boundary on either side. *)
Definition date_token_at (U : UnicodeDB) (s : text) (i : nat) (w : text) : Prop :=
  exists pre post,
    s = pre ++ w ++ post /\ length pre = i /\ date_token U w /\
    boundary U (rev pre) (w ++ post) /\ boundary U (rev w ++ rev pre) post.


(** What may stand before the number: nothing, or one of the currency
    markers of the pattern. *)
Definition currency_marker (w : text) : Prop :=
  w = [] \/ w = rupee_literal \/ w = txt "Rs" \/ w = txt "Rs." \/ w = txt "INR".

(** Nothing, or one whitespace character. *)
Definition one_blank (U : UnicodeDB) (w : text) : Prop :=
  w = [] \/ exists c, w = [c] /\ isspace U c = true.

(** A number with comma-grouped digits: one to three digits, groups of
    three digits after a comma each, and at most two decimals after a
    point. *)
Definition grouped_number (U : UnicodeDB) (w : text) : Prop :=
  exists ip gl fp,
    w = grouped ip gl fp /\
    digit_run U 1 3 ip /\ Forall (digit_run U 3 3) gl /\
    match fp with Some f => digit_run U 1 2 f | None => True end.

(** A decimal-number token: a grouped number, optionally preceded by a
    currency marker and by a blank. *)
Definition amount_token (U : UnicodeDB) (w : text) : Prop :=
  exists marker blank number,
    w = marker ++ blank ++ number /\
    currency_marker marker /\ one_blank U blank /\ grouped_number U number.
(** An amount token stands at index [i] of [s]: a word of the amount
    pattern (optional marker, optional blank, grouped number). *)
Definition amount_token_at (U : UnicodeDB) (s : text) (i : nat) (w : text) : Prop :=
  exists pre post,
    s = pre ++ w ++ post /\ length pre = i /\ amount_token U w.

(** The number a field denotes: its digits in base ten (a blank before
    them passed over). *)
Definition number (U : UnicodeDB) (w : text) : N := base_ten (digits_in U w).

(** How a format of [extract_date] lays out a date: which of day and
    month comes first, the separator, and whether the year has four
    digits or two. *)
Record layout : Type := {
  day_first : bool;
  separator : char;
  long_year : bool
}.

Definition layout_of (fmt : text) : option layout :=
  if text_eqb fmt (txt "%d/%m/%Y")
  then Some {| day_first := true; separator := code "/"; long_year := true |}
  else if text_eqb fmt (txt "%d-%m-%Y")
  then Some {| day_first := true; separator := code "-"; long_year := true |}
  else if text_eqb fmt (txt "%m/%d/%Y")
  then Some {| day_first := false; separator := code "/"; long_year := true |}
  else if text_eqb fmt (txt "%d/%m/%y")
  then Some {| day_first := true; separator := code "/"; long_year := false |}
  else None.

(** A two-digit year: 00..68 are 2000..2068, 69..99 are 1969..1999. *)
Definition century (y : N) : N := if y <=? 68 then y + 2000 else y + 1900.

(** The format reads the string as the date: the string is two fields and
    a year in the layout of the format, each a word of its directive, and
    the numbers they denote are a date of the calendar. *)
Definition reads (U : UnicodeDB) (fmt c : text) (d : calendar_date) : Prop :=
  exists l a b y,
    layout_of fmt = Some l /\
    c = a ++ separator l :: b ++ separator l :: y /\
    lang U directive_d (if day_first l then a else b) /\
    lang U directive_m (if day_first l then b else a) /\
    lang U (if long_year l then directive_Y else directive_y) y /\
    day d = number U (if day_first l then a else b) /\
    month d = number U (if day_first l then b else a) /\
    year d = (if long_year l then number U y else century (number U y)) /\
    valid_date d = true.

(** No decimal digit is a whitespace character (as in Unicode). *)
Definition digits_are_not_blank (U : UnicodeDB) : Prop :=
  forall c, isdecimal U c = true -> isspace U c = false.

(* ================================================================== *)
(** * Facts about the matcher *)
(* ================================================================== *)

Lemma moved_refl (z : cursor) : moved z [] z.
Proof. split; reflexivity. Qed.

Lemma moved_trans (z1 z2 z3 : cursor) (w1 w2 : text) :
  moved z1 w1 z2 -> moved z2 w2 z3 -> moved z1 (w1 ++ w2) z3.
Proof.
  intros [B1 A1] [B2 A2]. split.
  - rewrite B2, B1, rev_app_distr, app_assoc. reflexivity.
  - rewrite A1, A2, app_assoc. reflexivity.
Qed.

Lemma consumed_before (z z' : cursor) (w : text) :
  before z' = rev w ++ before z -> consumed z z' = w.
Proof.
  intros B. unfold consumed. rewrite B, length_app, length_rev.
  replace (length w + length (before z) - length (before z))%nat with (length w + 0)%nat by lia.
  rewrite <- (length_rev w) at 1.
  rewrite firstn_app_2, firstn_O, app_nil_r. apply rev_involutive.
Qed.

Lemma capture_moved (name : string) (z0 z z' : cursor) (w : text) :
  moved z w z' -> moved z w (capture name z0 z').
Proof. intros [B A]. split; assumption. Qed.

Section MatcherFacts.
Context (U : UnicodeDB).

Lemma iterate_sound (P : text -> Prop) (step : cursor -> list cursor) :
  (forall z z', In z' (step z) -> exists w, P w /\ moved z w z') ->
  forall fuel z z', In z' (iterate step fuel z) ->
    exists ws, Forall P ws /\ moved z (concat ws) z'.
Proof.
  intros Hstep fuel. induction fuel as [|f IH]; intros z z' Hin; simpl in Hin.
  - destruct Hin as [<- | []]. exists []. split; [constructor | apply moved_refl].
  - apply in_app_or in Hin. destruct Hin as [Hin | [<- | []]].
    + apply in_flat_map in Hin. destruct Hin as [z1 [H1 H2]].
      apply filter_In in H1. destruct H1 as [H1 _].
      destruct (Hstep _ _ H1) as [w [Pw Mw]].
      destruct (IH _ _ H2) as [ws [Pws Mws]].
      exists (w :: ws). split; [constructor; assumption |].
      simpl. eapply moved_trans; eassumption.
    + exists []. split; [constructor | apply moved_refl].
Qed.

Lemma flat_map_agree (A B : Type) (f g : A -> list B) (l : list A) :
  (forall a, In a l -> f a = g a) -> flat_map f l = flat_map g l.
Proof.
  induction l as [|a l IH]; intros H; simpl; [reflexivity|].
  rewrite (H a (or_introl eq_refl)), IH; [reflexivity|].
  intros b Hb. apply H. right. assumption.
Qed.

Lemma no_progress_at_end (z : cursor) (l : list cursor) :
  length (after z) = 0%nat -> filter (progress z) l = [].
Proof.
  intros E. induction l as [|z' l IH]; simpl; [reflexivity|].
  unfold progress at 1. rewrite E. simpl. exact IH.
Qed.

(** The fuel [run] gives to a starred pattern, the length of the text to
    the right of the cursor, is never used up: any other sufficient amount
    gives the same matches. *)
Lemma iterate_fuel_enough (step : cursor -> list cursor) :
  forall f1 f2 z,
    (length (after z) <= f1)%nat -> (length (after z) <= f2)%nat ->
    iterate step f1 z = iterate step f2 z.
Proof.
  induction f1 as [|f1 IH]; intros [|f2] z L1 L2; simpl.
  - reflexivity.
  - rewrite no_progress_at_end by lia. reflexivity.
  - rewrite no_progress_at_end by lia. reflexivity.
  - f_equal. apply flat_map_agree. intros z' Hz'.
    apply filter_In in Hz'. destruct Hz' as [_ P].
    unfold progress in P. apply Nat.ltb_lt in P.
    apply IH; lia.
Qed.

(** Whatever the matcher returns is the cursor moved over a word of the
    pattern's language. *)
Lemma run_sound (r : regex) :
  forall z z', In z' (run U r z) -> exists w, lang U r w /\ moved z w z'.
Proof.
  induction r as [|k| |r1 IH1 r2 IH2|r1 IH1 r2 IH2|r1 IH1|r1 IH1|name r1 IH1];
    intros z z' Hin; simpl in Hin.
  - destruct Hin as [<- | []]. exists []. split; [reflexivity | apply moved_refl].
  - destruct (after z) as [|c rest] eqn:Ea; [contradiction|].
    destruct (in_class U k c) eqn:Ec; [|contradiction].
    destruct Hin as [<- | []]. exists [c]. split.
    + exists c. split; [reflexivity | assumption].
    + split; simpl; [reflexivity | assumption].
  - destruct (xorb _ _); [|contradiction].
    destruct Hin as [<- | []]. exists []. split; [reflexivity | apply moved_refl].
  - apply in_flat_map in Hin. destruct Hin as [z1 [H1 H2]].
    destruct (IH1 _ _ H1) as [w1 [L1 M1]]. destruct (IH2 _ _ H2) as [w2 [L2 M2]].
    exists (w1 ++ w2). split.
    + exists w1, w2. auto.
    + eapply moved_trans; eassumption.
  - apply in_app_or in Hin. destruct Hin as [Hin | Hin].
    + destruct (IH1 _ _ Hin) as [w [L M]]. exists w. split; [left|]; assumption.
    + destruct (IH2 _ _ Hin) as [w [L M]]. exists w. split; [right|]; assumption.
  - apply in_app_or in Hin. destruct Hin as [Hin | [<- | []]].
    + destruct (IH1 _ _ Hin) as [w [L M]]. exists w. split; [right|]; assumption.
    + exists []. split; [left; reflexivity | apply moved_refl].
  - destruct (iterate_sound (lang U r1) (run U r1) IH1 _ _ _ Hin) as [ws [Pws M]].
    exists (concat ws). split; [exists ws; auto | assumption].
  - apply in_map_iff in Hin. destruct Hin as [z1 [<- H1]].
    destruct (IH1 _ _ H1) as [w [L M]]. exists w. split; [assumption|].
    apply capture_moved; assumption.
Qed.

(** The word a pattern matched is spelled in the pattern's alphabet. *)
Lemma lang_alphabet (p : char -> bool) (r : regex) :
  alphabet U p r -> forall w, lang U r w -> forallb p w = true.
Proof.
  induction r as [|k| |r1 IH1 r2 IH2|r1 IH1 r2 IH2|r1 IH1|r1 IH1|name r1 IH1];
    simpl; intros A w L.
  - subst. reflexivity.
  - destruct L as [c [-> Hc]]. simpl. rewrite (A _ Hc). reflexivity.
  - subst. reflexivity.
  - destruct A as [A1 A2]. destruct L as [w1 [w2 [-> [L1 L2]]]].
    rewrite forallb_app, (IH1 A1 _ L1), (IH2 A2 _ L2). reflexivity.
  - destruct A as [A1 A2]. destruct L as [L | L]; auto.
  - destruct L as [-> | L]; auto.
  - destruct L as [ws [-> F]]. induction F as [|x l Hx F IHF]; simpl; [reflexivity|].
    rewrite forallb_app, (IH1 A _ Hx), IHF. reflexivity.
  - auto.
Qed.

Lemma match_here_run (r : regex) (bef aft : text) (z : cursor) :
  match_here U r bef aft = Some z ->
  In z (run U r {| before := bef; after := aft; groups := [] |}).
Proof.
  unfold match_here. destruct (run U r _) as [|z0 l]; simpl; [discriminate|].
  intros [= ->]. left. reflexivity.
Qed.

(** Every match of a scan was reported by the matcher at some position of
    the subject. *)
Lemma scan_In (r : regex) (m : found) :
  forall aft skip bef, In m (scan U r skip bef aft) ->
    exists bef' aft' z,
      rev bef' ++ aft' = rev bef ++ aft /\
      match_here U r bef' aft' = Some z /\ m = found_of bef' z.
Proof.
  induction aft as [|c aft IH]; intros skip bef Hin.
  - destruct skip; simpl in Hin; [|contradiction].
    destruct (match_here U r bef []) as [z|] eqn:E; [|contradiction].
    destruct Hin as [<- | []]. exists bef, [], z. auto.
  - assert (Hrec : forall k, In m (scan U r k (c :: bef) aft) ->
              exists bef' aft' z,
                rev bef' ++ aft' = rev bef ++ c :: aft /\
                match_here U r bef' aft' = Some z /\ m = found_of bef' z).
    { intros k Hk. destruct (IH _ _ Hk) as [b' [a' [z [E1 E2]]]].
      exists b', a', z. split; [|assumption].
      rewrite E1. simpl. rewrite <- app_assoc. reflexivity. }
    destruct skip; simpl in Hin.
    + destruct (match_here U r bef (c :: aft)) as [z|] eqn:E.
      * destruct Hin as [<- | Hin]; [exists bef, (c :: aft), z; auto | eauto].
      * eauto.
    + eauto.
Qed.
End MatcherFacts.

Section ScanFacts.
Context (U : UnicodeDB).

Lemma run_Seq (r1 r2 : regex) (z : cursor) :
  run U (Seq r1 r2) z = flat_map (run U r2) (run U r1 z).
Proof. reflexivity. Qed.

Lemma run_Group (name : string) (r : regex) (z : cursor) :
  run U (Group name r) z = map (capture name z) (run U r z).
Proof. reflexivity. Qed.

(** Where a reported match lies in the subject. *)
Lemma found_of_span (r : regex) (bef aft : text) (z : cursor) :
  match_here U r bef aft = Some z ->
  start (found_of bef z) = length bef /\
  (length bef <= stop (found_of bef z) <= length bef + length aft)%nat /\
  whole (found_of bef z)
    = slice (rev bef ++ aft) (start (found_of bef z)) (stop (found_of bef z)) /\
  lang U r (whole (found_of bef z)).
Proof.
  intros E. apply match_here_run in E.
  destruct (run_sound U r _ _ E) as [w [L [B A]]]. simpl in B, A.
  assert (W : whole (found_of bef z) = w).
  { unfold found_of; simpl. apply consumed_before. exact B. }
  rewrite W. unfold found_of; simpl. rewrite B, A, length_app, length_rev, length_app.
  repeat split; try lia; [|assumption].
  unfold slice. rewrite skipn_app, length_rev, Nat.sub_diag.
  rewrite skipn_all2 by (rewrite length_rev; lia). simpl.
  replace (length w + length bef - length bef)%nat with (length w + 0)%nat by lia.
  rewrite firstn_app_2, firstn_O, app_nil_r. reflexivity.
Qed.

(** The scan in the words of [re]: after a match it resumes where the
    match ended, after a miss one character further. *)
Lemma scan_skip (r : regex) (w : text) :
  forall bef aft, scan U r (length w) bef (w ++ aft) = scan U r 0 (rev w ++ bef) aft.
Proof.
  induction w as [|c w IH]; intros bef aft; [reflexivity|].
  simpl. rewrite IH, <- app_assoc. reflexivity.
Qed.

Lemma scan_hit (r : regex) (bef aft : text) (z : cursor) :
  match_here U r bef aft = Some z ->
  whole (found_of bef z) <> [] ->
  scan U r 0 bef aft = found_of bef z :: scan U r 0 (before z) (after z).
Proof.
  intros E Hw. pose proof (match_here_run U r bef aft z E) as Hin.
  destruct (run_sound U r _ _ Hin) as [w [_ [B A]]]. simpl in B, A.
  assert (W : whole (found_of bef z) = w).
  { unfold found_of; simpl.
    apply (consumed_before {| before := bef; after := []; groups := [] |} z w B). }
  rewrite W in Hw. destruct w as [|c w]; [congruence|].
  subst aft. change ((c :: w) ++ after z) with (c :: (w ++ after z)) in *.
  cbn [scan]. rewrite E. f_equal.
  rewrite B, length_app, length_rev.
  replace (length (c :: w) + length bef - length bef - 1)%nat with (length w)
    by (cbn [length]; lia).
  rewrite scan_skip. simpl. rewrite <- app_assoc. reflexivity.
Qed.

Lemma scan_miss (r : regex) (bef aft : text) (c : char) :
  match_here U r bef (c :: aft) = None ->
  scan U r 0 bef (c :: aft) = scan U r 0 (c :: bef) aft.
Proof. intros E. simpl. rewrite E. reflexivity. Qed.

Lemma scan_start (r : regex) (m : found) :
  forall aft skip bef, In m (scan U r skip bef aft) ->
    (length bef + skip <= start m)%nat.
Proof.
  induction aft as [|c aft IH]; intros skip bef Hin.
  - destruct skip; simpl in Hin; [|contradiction].
    destruct (match_here U r bef []) as [z|] eqn:E; [|contradiction].
    destruct Hin as [<- | []]. simpl. lia.
  - destruct skip; simpl in Hin.
    + destruct (match_here U r bef (c :: aft)) as [z|] eqn:E.
      * destruct Hin as [<- | Hin]; [simpl; lia|].
        apply IH in Hin. simpl in Hin. lia.
      * apply IH in Hin. simpl in Hin. lia.
    + apply IH in Hin. simpl in Hin. lia.
Qed.

(** [finditer] lists its matches left to right, none overlapping another. *)
Lemma scan_sorted (r : regex) :
  forall aft skip bef, StronglySorted precedes (scan U r skip bef aft).
Proof.
  induction aft as [|c aft IH]; intros skip bef.
  - destruct skip; simpl; [|constructor].
    destruct (match_here U r bef []); repeat constructor.
  - destruct skip; simpl; [|apply IH].
    destruct (match_here U r bef (c :: aft)) as [z|] eqn:E; [|apply IH].
    constructor; [apply IH|].
    apply Forall_forall. intros m Hm. apply scan_start in Hm.
    destruct (found_of_span r _ _ _ E) as [S1 [S2 _]].
    unfold precedes. rewrite S1. simpl in Hm. simpl in S2. simpl. lia.
Qed.
End ScanFacts.

(* ================================================================== *)
(** * Facts about [float] and the amount pattern *)
(* ================================================================== *)

Section AmountFacts.
Context (U : UnicodeDB).

(** Inside ASCII the decimal digits are ['0'..'9']. *)
Lemma isdecimal_ascii (c : char) :
  is_ascii c = true -> isdecimal U c = between 48 57 c.
Proof.
  intros A. unfold isdecimal, decimal. rewrite A.
  destruct (between 48 57 c); reflexivity.
Qed.

Lemma isdecimal_not (c x : char) :
  isdecimal U c = true -> is_ascii x = true -> between 48 57 x = false ->
  char_eqb c x = false.
Proof.
  intros D A B. unfold char_eqb. destruct (N.eqb_spec c x) as [->|]; [|reflexivity].
  rewrite (isdecimal_ascii _ A), B in D. discriminate.
Qed.

Lemma digits_value_total (s : text) :
  forallb (isdecimal U) s = true ->
  forall acc, exists n, digits_value U acc s = Some n.
Proof.
  induction s as [|c s IH]; simpl; intros H acc; [eauto|].
  apply andb_prop in H. destruct H as [Hc Hs].
  unfold isdecimal in Hc. destruct (decimal U c) as [d|]; [|discriminate].
  apply IH. assumption.
Qed.

Lemma break_at_digits (x : char) (ip : text) (rest : option text) :
  is_ascii x = true -> between 48 57 x = false ->
  forallb (isdecimal U) ip = true ->
  break_at x (ip ++ match rest with Some fp => x :: fp | None => [] end) = (ip, rest).
Proof.
  intros A B. induction ip as [|c ip IH]; simpl; intros H.
  - destruct rest; simpl; [|reflexivity].
    unfold char_eqb. rewrite N.eqb_refl. reflexivity.
  - apply andb_prop in H. destruct H as [Hc Hs].
    rewrite (isdecimal_not _ _ Hc A B), (IH Hs). reflexivity.
Qed.

(** [float] reads every string [digits] or [digits.digits] that starts
    with a digit, and the number it reads is not negative. *)
Lemma float_decimal (c : char) (ip : text) (rest : option text) :
  isdecimal U c = true ->
  forallb (isdecimal U) ip = true ->
  match rest with Some fp => forallb (isdecimal U) fp = true | None => True end ->
  exists x,
    float U ((c :: ip) ++ match rest with Some fp => code "." :: fp | None => [] end)
      = Ok x /\ float_nonneg x.
Proof.
  intros Hc Hip Hrest. unfold float.
  rewrite break_at_digits; [| reflexivity | reflexivity | simpl; rewrite Hc, Hip; reflexivity].
  assert (D : forallb (isdecimal U)
                ((c :: ip) ++ match rest with Some f => f | None => [] end) = true).
  { rewrite forallb_app. simpl. rewrite Hc, Hip. simpl.
    destruct rest; [assumption | reflexivity]. }
  destruct (digits_value_total _ D 0) as [n En].
  cbv beta iota zeta. change (nonempty (c :: ip)) with true.
  cbv beta iota delta [orb].
  match goal with
  | |- context [digits_value ?u ?a ?l] =>
      replace (digits_value u a l) with (Some n) by (symmetry; exact En)
  end.
  eexists. split; [reflexivity|].
  unfold nearest_double. destruct (Qle_bool _ _); [exact I|].
  unfold float_nonneg, Qle; simpl. lia.
Qed.

Lemma remove_char_app (k : char) (a b : text) :
  remove_char k (a ++ b) = remove_char k a ++ remove_char k b.
Proof. apply filter_app. Qed.

Lemma remove_char_cons (k c : char) (s : text) :
  remove_char k (c :: s)
  = if negb (char_eqb c k) then c :: remove_char k s else remove_char k s.
Proof. reflexivity. Qed.

Lemma remove_comma_digits (s : text) :
  forallb (digit_or_comma U) s = true ->
  forallb (isdecimal U) (remove_char (code ",") s) = true.
Proof.
  unfold remove_char, digit_or_comma. set (k := code ",").
  induction s as [|c s IH]; simpl; intros H; [reflexivity|].
  apply andb_prop in H. destruct H as [Hc Hs].
  destruct (char_eqb c k) eqn:E; simpl; [auto|].
  rewrite orb_false_r in Hc. rewrite Hc. auto.
Qed.

Lemma remove_comma_keep (s : text) :
  forallb (isdecimal U) s = true -> remove_char (code ",") s = s.
Proof.
  unfold remove_char. set (k := code ",").
  induction s as [|c s IH]; simpl; intros H; [reflexivity|].
  apply andb_prop in H. destruct H as [Hc Hs].
  rewrite (isdecimal_not _ k Hc) by reflexivity. simpl.
  rewrite (IH Hs). reflexivity.
Qed.

(** The shape of the text group 1 captures. *)
Lemma number_shape (w : text) :
  lang U number_pattern w ->
  exists c ip rest,
    w = (c :: ip) ++ match rest with Some fp => code "." :: fp | None => [] end /\
    isdecimal U c = true /\
    forallb (digit_or_comma U) ip = true /\
    match rest with Some fp => forallb (isdecimal U) fp = true | None => True end.
Proof.
  intros L. unfold number_pattern in L.
  destruct L as [w1 [w23 [-> [L1 [w2 [w3 [-> [L2 L3]]]]]]]].
  destruct L1 as [d [w1' [-> [[c [-> Hc]] L1']]]].
  assert (A1 : forallb (digit_or_comma U) w1' = true).
  { revert L1'. apply lang_alphabet. simpl. unfold digit_or_comma.
    repeat split; intros x Hx; rewrite Hx; reflexivity. }
  assert (A2 : forallb (digit_or_comma U) w2 = true).
  { revert L2. apply lang_alphabet. simpl. unfold digit_or_comma.
    repeat split; intros x Hx; simpl; rewrite Hx; auto using orb_true_r. }
  destruct L3 as [-> | [p [fp [-> [[x [-> Hx]] L3]]]]].
  - exists c, (w1' ++ w2), None. simpl in Hc.
    rewrite !app_nil_r, forallb_app, A1, A2. simpl. auto.
  - exists c, (w1' ++ w2), (Some fp). simpl in Hx, Hc.
    apply N.eqb_eq in Hx. subst x.
    repeat split.
    + simpl. rewrite <- app_assoc. reflexivity.
    + assumption.
    + rewrite forallb_app, A1, A2. reflexivity.
    + revert L3. apply lang_alphabet. simpl.
      repeat split; intros x Hx; assumption.
Qed.

(** Group 1 of the amount pattern, commas removed, is a number [float]
    reads. *)
Lemma float_number (w : text) :
  lang U number_pattern w ->
  exists x, float U (remove_char (code ",") w) = Ok x /\ float_nonneg x.
Proof.
  intros L. destruct (number_shape _ L) as [c [ip [rest [-> [Hc [Hip Hrest]]]]]].
  set (k := code ",").
  rewrite remove_char_app, remove_char_cons.
  rewrite (isdecimal_not _ k Hc) by reflexivity. cbv beta iota delta [negb].
  destruct rest as [fp|].
  - rewrite remove_char_cons. change (negb (char_eqb (code ".") k)) with true.
    cbv iota. unfold k at 2. rewrite (remove_comma_keep _ Hrest).
    apply (float_decimal c (remove_char k ip) (Some fp)); auto using remove_comma_digits.
  - apply (float_decimal c (remove_char k ip) None); auto using remove_comma_digits.
Qed.

(** A match of the amount pattern always carries group 1, and the group
    holds a word of the number pattern. *)
Lemma amount_group (z0 z : cursor) :
  In z (run U amount_pattern z0) ->
  exists w, group "1" (groups z) = Some w /\ lang U number_pattern w.
Proof.
  unfold amount_pattern. intros H.
  rewrite run_Seq in H. apply in_flat_map in H. destruct H as [z1 [_ H]].
  rewrite run_Seq in H. apply in_flat_map in H. destruct H as [z2 [_ H]].
  rewrite run_Group in H. apply in_map_iff in H. destruct H as [z3 [<- H]].
  destruct (run_sound U _ _ _ H) as [w [L [B _]]].
  exists w. split; [|assumption].
  simpl. rewrite (consumed_before _ _ _ B). reflexivity.
Qed.

Lemma findall1_amount (s w : text) :
  In w (findall1 U amount_pattern s) -> lang U number_pattern w.
Proof.
  unfold findall1, finditer. intros H. apply in_map_iff in H.
  destruct H as [m [<- H]].
  apply scan_In in H. destruct H as [bef [aft [z [_ [E ->]]]]].
  apply match_here_run in E. apply amount_group in E.
  destruct E as [w [G L]]. simpl. rewrite G. assumption.
Qed.

(** Neither pattern of the formatter matches the empty word, so a scan
    never meets an empty match. *)
Lemma amount_pattern_nonempty (w : text) : lang U amount_pattern w -> w <> [].
Proof.
  intros [w1 [w23 [-> [_ [w2 [w3 [-> [_ L]]]]]]]] E.
  apply app_eq_nil in E. destruct E as [_ E].
  apply app_eq_nil in E. destruct E as [_ E].
  destruct (number_shape w3 L) as [c [ip [rest [-> _]]]]. discriminate.
Qed.

Lemma date_pattern_nonempty (w : text) : lang U date_pattern w -> w <> [].
Proof.
  intros [w1 [w2 [-> [-> [w3 [w4 [-> [L _]]]]]]]] E.
  destruct L as [d [w5 [-> [[c [-> _]] _]]]]. discriminate.
Qed.

Lemma found_of_length (r : regex) (bef aft : text) (z : cursor) :
  match_here U r bef aft = Some z ->
  length (whole (found_of bef z))
  = (stop (found_of bef z) - start (found_of bef z))%nat.
Proof.
  intros E. apply match_here_run in E.
  destruct (run_sound U r _ _ E) as [w [_ [B _]]]. simpl in B.
  unfold found_of; simpl.
  rewrite (consumed_before {| before := bef; after := []; groups := [] |} z w B).
  rewrite B, length_app, length_rev. lia.
Qed.

Lemma last_In (A : Type) (x : A) (l : list A) (d : A) : In (last (x :: l) d) (x :: l).
Proof.
  revert x. induction l as [|y l IH]; intros x; [left; reflexivity|].
  right. apply (IH y).
Qed.

(** [extract_amount] returns, and what it returns is not negative. *)
Lemma extract_amount_returns (s : text) :
  exists x, extract_amount U s = Ok x /\ float_nonneg x.
Proof.
  unfold extract_amount. destruct (findall1 U amount_pattern s) as [|w l] eqn:E.
  - exists (Finite 0). split; [reflexivity | apply Qle_refl].
  - apply float_number. apply (findall1_amount s). rewrite E. apply last_In.
Qed.
End AmountFacts.

(* ================================================================== *)
(** * Facts about [strptime] and the date formats *)
(* ================================================================== *)

Lemma split_unique (p : char -> bool) (x x' : char) (r r' : text) :
  p x = false -> p x' = false ->
  forall a a', forallb p a = true -> forallb p a' = true ->
    a ++ x :: r = a' ++ x' :: r' -> a = a' /\ x = x' /\ r = r'.
Proof.
  intros Px Px'. induction a as [|c a IH]; intros [|c' a'] Ha Ha' E; simpl in *.
  - injection E as -> ->. auto.
  - injection E as -> _. apply andb_prop in Ha'. destruct Ha' as [Hc _]. congruence.
  - injection E as -> _. apply andb_prop in Ha. destruct Ha as [Hc _]. congruence.
  - injection E as -> E. apply andb_prop in Ha. apply andb_prop in Ha'.
    destruct (IH a' (proj2 Ha) (proj2 Ha') E) as [-> [-> ->]]. auto.
Qed.

(** A string has at most one date shape. *)
Lemma date_shape_unique (sep sep' : char) (n n' : nat) (s : text) :
  no_sep sep = false -> no_sep sep' = false ->
  date_shape sep n s -> date_shape sep' n' s -> sep = sep' /\ n = n'.
Proof.
  intros S S' [a [b [y [E [Ha [Hb [Hy Hn]]]]]]] [a' [b' [y' [E' [Ha' [Hb' [Hy' Hn']]]]]]].
  rewrite E in E'.
  destruct (split_unique no_sep _ _ _ _ S S' _ _ Ha Ha' E') as [_ [<- E2]].
  destruct (split_unique no_sep _ _ _ _ S S _ _ Hb Hb' E2) as [_ [_ <-]].
  split; [reflexivity | congruence].
Qed.

Section DateFacts.
Context (U : UnicodeDB).

Lemma isdecimal_no_sep (c : char) : isdecimal U c = true -> no_sep c = true.
Proof.
  intros D. unfold no_sep.
  rewrite (isdecimal_not U _ (code "/") D), (isdecimal_not U _ (code "-") D);
    reflexivity.
Qed.

Lemma between_no_sep (lo hi c : char) :
  48 <= lo -> between lo hi c = true -> no_sep c = true.
Proof.
  unfold between, no_sep, char_eqb. intros L B.
  apply andb_prop in B. destruct B as [B _]. apply N.leb_le in B.
  change (code "/") with 47. change (code "-") with 45.
  destruct (N.eqb_spec c 47); [lia|]. destruct (N.eqb_spec c 45); [lia|]. reflexivity.
Qed.

Lemma literal_no_sep (a c : char) :
  no_sep a = true -> char_eqb c a = true -> no_sep c = true.
Proof. unfold char_eqb. intros A E. apply N.eqb_eq in E. subst. assumption. Qed.

Ltac in_no_sep :=
  simpl; repeat split; intros c H;
  first [ apply (isdecimal_no_sep _ H)
        | refine (between_no_sep _ _ _ _ H); vm_compute; discriminate
        | refine (literal_no_sep _ _ _ H); reflexivity ].

Lemma directive_d_alphabet : alphabet U no_sep directive_d.
Proof. in_no_sep. Qed.

Lemma directive_m_alphabet : alphabet U no_sep directive_m.
Proof. in_no_sep. Qed.

Lemma directive_Y_alphabet : alphabet U no_sep directive_Y.
Proof. in_no_sep. Qed.

Lemma directive_y_alphabet : alphabet U no_sep directive_y.
Proof. in_no_sep. Qed.

Lemma directive_Y_length (w : text) : lang U directive_Y w -> length w = 4%nat.
Proof.
  simpl. intros [w1 [w2 [-> [[c1 [-> _]] [w3 [w4 [-> [[c2 [-> _]]
    [w5 [w6 [-> [[c3 [-> _]] [c4 [-> _]]]]]]]]]]]]]]. reflexivity.
Qed.

Lemma directive_y_length (w : text) : lang U directive_y w -> length w = 2%nat.
Proof.
  simpl. intros [w1 [w2 [-> [[c1 [-> _]] [c2 [-> _]]]]]]. reflexivity.
Qed.

(** The strings a three-field format matches have a date shape. *)
Lemma fields_shape (D1 D2 Yd : regex) (sep : char) (n : nat) (s : text) :
  alphabet U no_sep D1 -> alphabet U no_sep D2 -> alphabet U no_sep Yd ->
  (forall w, lang U Yd w -> length w = n) ->
  lang U (Seq D1 (Seq (Cls (CLit sep)) (Seq D2 (Seq (Cls (CLit sep)) (Seq Yd Eps))))) s ->
  date_shape sep n s.
Proof.
  intros A1 A2 A3 Hn L.
  destruct L as [a [t1 [-> [La [s1 [t2 [-> [[x1 [-> Hx1]] [b [t3 [-> [Lb
    [s2 [t4 [-> [[x2 [-> Hx2]] [y [e [-> [Ly ->]]]]]]]]]]]]]]]]]]]].
  simpl in Hx1, Hx2. apply N.eqb_eq in Hx1, Hx2. subst x1 x2.
  exists a, b, y. rewrite app_nil_r. simpl. repeat split.
  - exact (lang_alphabet U no_sep D1 A1 _ La).
  - exact (lang_alphabet U no_sep D2 A2 _ Lb).
  - exact (lang_alphabet U no_sep Yd A3 _ Ly).
  - apply Hn. assumption.
Qed.

(** What [strptime] accepts is a word of the format's pattern. *)
Lemma strptime_lang (data fmt : text) (d : calendar_date) :
  strptime U data fmt = Ok d ->
  exists r, format_regex fmt = Some r /\ lang U r data.
Proof.
  unfold strptime. destruct (format_regex fmt) as [r|]; [|discriminate].
  destruct (re_match U r data) as [z|] eqn:E; [|discriminate].
  destruct (nonempty (after z)) eqn:N; [discriminate|]. intros _.
  exists r. split; [reflexivity|].
  apply match_here_run in E. destruct (run_sound U r _ _ E) as [w [L [_ A]]].
  simpl in A. destruct (after z); [|discriminate].
  rewrite app_nil_r in A. subst. assumption.
Qed.

(** [strptime] only returns dates of the calendar. *)
Lemma strptime_valid (data fmt : text) (d : calendar_date) :
  strptime U data fmt = Ok d -> valid_date d = true.
Proof.
  unfold strptime. destruct (format_regex fmt) as [r|]; [|discriminate].
  destruct (re_match U r data) as [z|]; [|discriminate].
  destruct (nonempty (after z)); [discriminate|].
  destruct (year_of U (groups z)) as [y|]; [|discriminate].
  destruct (int_group U "m" 1 (groups z)) as [m|]; [|discriminate].
  destruct (int_group U "d" 1 (groups z)) as [dd|]; [|discriminate].
  simpl. unfold make_date.
  destruct (valid_date _) eqn:V; [|discriminate].
  intros [= <-]. assumption.
Qed.

Lemma strptime_shape (data : text) (d : calendar_date) :
  (strptime U data (txt "%d/%m/%Y") = Ok d -> date_shape (code "/") 4 data) /\
  (strptime U data (txt "%d-%m-%Y") = Ok d -> date_shape (code "-") 4 data) /\
  (strptime U data (txt "%m/%d/%Y") = Ok d -> date_shape (code "/") 4 data) /\
  (strptime U data (txt "%d/%m/%y") = Ok d -> date_shape (code "/") 2 data).
Proof.
  repeat split; intros H; apply strptime_lang in H;
    destruct H as [r [E L]]; vm_compute in E; injection E as <-;
    revert L; apply fields_shape;
    auto using directive_d_alphabet, directive_m_alphabet, directive_Y_alphabet,
               directive_y_alphabet, directive_Y_length, directive_y_length.
Qed.
End DateFacts.

(* ================================================================== *)
(** * Facts about the loops of [extract_date] *)
(* ================================================================== *)

Section LoopFacts.
Context (U : UnicodeDB).

Lemma try_formats_cons (c f : text) (rest : list text) :
  try_formats U c (f :: rest)
  = match strptime U c f with
    | Ok d => Ok (Some d)
    | Raise _ => try_formats U c rest
    end.
Proof. simpl. destruct (strptime U c f); reflexivity. Qed.

(** The inner loop answers with the first format that parses, or runs
    off the end when none does; it never raises. *)
Lemma try_formats_spec (c : text) (fmts : list text) :
  (try_formats U c fmts = Ok None /\
   forall f, In f fmts -> raises (strptime U c f))
  \/
  (exists d fs f fs',
     fmts = fs ++ f :: fs' /\ strptime U c f = Ok d /\
     (forall f', In f' fs -> raises (strptime U c f')) /\
     try_formats U c fmts = Ok (Some d)).
Proof.
  induction fmts as [|f rest IH].
  - left. split; [reflexivity | intros f []].
  - rewrite try_formats_cons. destruct (strptime U c f) as [d|e] eqn:E.
    + right. exists d, [], f, rest. repeat split; auto. intros f' [].
    + destruct IH as [[N F] | [d [fs [g [fs' [-> [P [F T]]]]]]]].
      * left. split; [assumption|]. intros f' [<- | H]; [exists e; assumption | auto].
      * right. exists d, (f :: fs), g, fs'. repeat split; auto.
        intros f' [<- | H]; [exists e; assumption | auto].
Qed.

(** The outer loop answers with the first candidate some format parses. *)
Lemma try_candidates_spec (cs : list text) :
  (try_candidates U cs = Ok None /\
   forall c f, In c cs -> In f date_formats -> raises (strptime U c f))
  \/
  (exists d pre c post fs f fs',
     cs = pre ++ c :: post /\ date_formats = fs ++ f :: fs' /\
     strptime U c f = Ok d /\
     (forall c' f', In c' pre -> In f' date_formats -> raises (strptime U c' f')) /\
     (forall f', In f' fs -> raises (strptime U c f')) /\
     try_formats U c date_formats = Ok (Some d) /\
     try_candidates U cs = Ok (Some d)).
Proof.
  induction cs as [|c rest IH].
  - left. split; [reflexivity | intros c f []].
  - cbn [try_candidates].
    destruct (try_formats_spec c date_formats)
      as [[N F] | [d [fs [f [fs' [E [P [F T]]]]]]]].
    + rewrite N. cbn [bind].
      destruct IH as [[N' F'] | [d [pre [c' [post [fs [f [fs' [-> [E [P [F1 [F2 [T1 T2]]]]]]]]]]]]]].
      * left. split; [assumption|]. intros c' f [<- | H] Hf; auto.
      * right. exists d, (c :: pre), c', post, fs, f, fs'. repeat split; auto.
        intros c'' f' [<- | H] Hf; auto.
    + right. rewrite T. cbn [bind].
      exists d, [], c, rest, fs, f, fs'. repeat split; auto.
      intros c' f' [].
Qed.

(** Two formats cannot both read a string unless they agree on the
    separator and on the width of the year. *)
Lemma shapes_clash (sep sep' : char) (n n' : nat) (s : text) :
  no_sep sep = false -> no_sep sep' = false ->
  (sep <> sep' \/ n <> n') ->
  date_shape sep n s -> date_shape sep' n' s -> False.
Proof.
  intros S S' D H H'.
  destruct (date_shape_unique _ _ _ _ _ S S' H H') as [E1 E2].
  destruct D; contradiction.
Qed.

(** Whenever a day-first format reads a candidate, the inner loop returns
    that reading: the month-first format, and the position of
    [%d/%m/%y] after it, cannot change the answer. *)
Lemma day_first_wins (c f : text) (d : calendar_date) :
  In f day_first_formats -> strptime U c f = Ok d ->
  try_formats U c date_formats = Ok (Some d).
Proof.
  intros Hf P. unfold date_formats.
  destruct (strptime_shape U c d) as [S1 [S2 [_ S4]]].
  destruct Hf as [<- | [<- | [<- | []]]].
  - rewrite try_formats_cons, P. reflexivity.
  - rewrite try_formats_cons.
    destruct (strptime U c (txt "%d/%m/%Y")) as [d1|] eqn:E1.
    + exfalso. destruct (strptime_shape U c d1) as [T1 _].
      apply (shapes_clash (code "/") (code "-") 4 4 c); auto.
      left. discriminate.
    + rewrite try_formats_cons, P. reflexivity.
  - rewrite try_formats_cons.
    destruct (strptime U c (txt "%d/%m/%Y")) as [d1|] eqn:E1.
    { exfalso. destruct (strptime_shape U c d1) as [T1 _].
      apply (shapes_clash (code "/") (code "/") 4 2 c); auto. }
    rewrite try_formats_cons.
    destruct (strptime U c (txt "%d-%m-%Y")) as [d2|] eqn:E2.
    { exfalso. destruct (strptime_shape U c d2) as [_ [T2 _]].
      apply (shapes_clash (code "-") (code "/") 4 2 c); auto. }
    rewrite try_formats_cons.
    destruct (strptime U c (txt "%m/%d/%Y")) as [d3|] eqn:E3.
    { exfalso. destruct (strptime_shape U c d3) as [_ [_ [T3 _]]].
      apply (shapes_clash (code "/") (code "/") 4 2 c); auto. }
    rewrite try_formats_cons, P. reflexivity.
Qed.

(** [extract_date] returns. *)
Lemma extract_date_returns (s : text) : exists v, extract_date U s = Ok v.
Proof.
  unfold extract_date.
  destruct (try_candidates_spec (findall0 U date_pattern s))
    as [[N _] | [d [pre [c [post [fs [f [fs' [_ [_ [_ [_ [_ [_ T]]]]]]]]]]]]]]; eauto.
Qed.

(** The candidates are words of the date pattern. *)
Lemma findall0_lang (r : regex) (s c : text) :
  In c (findall0 U r s) -> lang U r c.
Proof.
  unfold findall0, finditer. intros H. apply in_map_iff in H.
  destruct H as [m [<- H]]. apply scan_In in H.
  destruct H as [bef [aft [z [_ [E ->]]]]].
  apply (found_of_span U r bef aft z E).
Qed.
End LoopFacts.

(* ================================================================== *)
(** * Facts about the classifiers *)
(* ================================================================== *)

Lemma any_in_keyword (k : string) (words : list string) (s : text) :
  In k words -> contains (txt k) s = true -> any_in words s = true.
Proof.
  intros I C. unfold any_in. apply existsb_exists. exists k. auto.
Qed.

Lemma simple_categorization_member (U : UnicodeDB) (d : text) :
  member (AiService._simple_categorization U d) AiService.TRANSACTION_CATEGORIES = true.
Proof.
  unfold AiService._simple_categorization. cbv zeta.
  repeat (destruct (any_in _ _); [reflexivity|]). reflexivity.
Qed.

Lemma first_rule_member (dl c : text) :
  ExpenseTracker.first_rule ExpenseTracker.category_keywords dl = Some c ->
  member c ExpenseTracker.categories = true.
Proof.
  unfold ExpenseTracker.category_keywords. cbn [ExpenseTracker.first_rule].
  repeat (destruct (any_in _ _); [intros [= <-]; reflexivity|]). discriminate.
Qed.

Lemma StronglySorted_last (A : Type) (R : A -> A -> Prop) (l : list A) (x : A) :
  StronglySorted R (l ++ [x]) -> forall y, In y l -> R y x.
Proof.
  induction l as [|a l IH]; intros S y Hy; [destruct Hy|].
  simpl in S. inversion S as [|? ? S' F]; subst.
  destruct Hy as [<- | Hy].
  - rewrite Forall_forall in F. apply F. apply in_or_app. right. left. reflexivity.
  - apply IH; assumption.
Qed.

Lemma last_map_snoc (A B : Type) (f : A -> B) (l : list A) (x : A) (d : B) :
  last (map f (l ++ [x])) d = f x.
Proof. rewrite map_app. simpl. apply last_last. Qed.

(* ================================================================== *)
(** * The receipt pipeline *)
(* ================================================================== *)

(** C1 (as the code has it).  [extract_receipt_data] returns a record
    whenever the OCR stage and the categorizer return: its own steps, the
    amount and the date extraction, never raise, and the amount is not
    negative.  Nothing in the pipeline catches an exception of the OCR
    stage: it reaches the caller unchanged, and so does one of the
    categorizer. *)
Theorem extract_receipt_data_outcome
    (U : UnicodeDB) (image : Type)
    (preprocess_image : image -> result image)
    (image_to_string : image -> result text)
    (predict_category : text -> result text) (img : image) :
  match ReceiptParser.extract_text_from_image image preprocess_image image_to_string img with
  | Raise e =>
      ReceiptParser.extract_receipt_data
        U image preprocess_image image_to_string predict_category img = Raise e
  | Ok raw =>
      exists a d,
        extract_amount U raw = Ok a /\ float_nonneg a /\ extract_date U raw = Ok d /\
        ReceiptParser.extract_receipt_data
          U image preprocess_image image_to_string predict_category img
        = match predict_category raw with
          | Ok c =>
              Ok {| ReceiptParser.vendor := ReceiptParser.vendor_of U raw;
                    ReceiptParser.amount := a;
                    ReceiptParser.date := d;
                    ReceiptParser.category := c;
                    ReceiptParser.raw_text := raw |}
          | Raise e => Raise e
          end
  end.
Proof.
  unfold ReceiptParser.extract_receipt_data.
  destruct (ReceiptParser.extract_text_from_image image preprocess_image image_to_string img)
    as [raw|e]; [|reflexivity].
  destruct (extract_amount_returns U raw) as [a [Ea Pa]].
  destruct (extract_date_returns U raw) as [d Ed].
  exists a, d. cbn [bind]. rewrite Ea, Ed. cbn [bind].
  split; [reflexivity|]. split; [assumption|]. split; [reflexivity|].
  destruct (predict_category raw); reflexivity.
Qed.

(** C1, the claim as stated fails: with an OCR engine that throws,
    [extract_receipt_data] returns no record; the exception is its
    outcome. *)
Lemma extract_receipt_data_ocr_exception :
  ReceiptParser.extract_receipt_data ascii_only unit
    (fun img => Ok img)
    (fun _ => Raise (External "TesseractError"))
    (fun _ => Ok (txt "Other"))
    tt
  = Raise (External "TesseractError").
Proof. reflexivity. Qed.

(* ================================================================== *)
(** * The field extractor *)
(* ================================================================== *)

(** C4.  For every text [extract_amount] returns, never raises, and the
    number it returns is not negative; it is 0.0 when the pattern matches
    nowhere. *)
Theorem extract_amount_nonnegative (U : UnicodeDB) (s : text) :
  exists x,
    extract_amount U s = Ok x /\ float_nonneg x /\
    (findall1 U amount_pattern s = [] -> x = Finite 0).
Proof.
  destruct (extract_amount_returns U s) as [q [E P]].
  exists q. repeat split; try assumption.
  intros N. unfold extract_amount in E. rewrite N in E. congruence.
Qed.

(* ================================================================== *)
(** * The category classifiers *)
(* ================================================================== *)

(** C6.  Whatever the description, the API key and the behaviour of the AI
    service, [categorize_transaction] returns a label of
    [TRANSACTION_CATEGORIES]; a label of the service outside that list is
    replaced by ["Other"].  [ExpenseTracker.predict_category] returns a
    label of [self.categories], and it is ["Other"] when no keyword rule
    matches, the amount is not positive and the description mentions no
    subscription. *)
Theorem category_in_enumeration
    (U : UnicodeDB) (key : text) (acreate : text -> result AiService.response)
    (description : text) (amount : Q) :
  (exists c conf,
     AiService.categorize_transaction U key acreate description = Ok (c, conf) /\
     member c AiService.TRANSACTION_CATEGORIES = true) /\
  (forall k content rest,
     AiService.categorize_transaction U (k :: key)
       (fun _ => Ok (Some content :: rest)) description
     = Ok (if member (strip U content) AiService.TRANSACTION_CATEGORIES
           then strip U content else txt "Other", 0.9%Q)) /\
  member (ExpenseTracker.predict_category U description amount)
         ExpenseTracker.categories = true /\
  ExpenseTracker.predict_category U description amount
  = match ExpenseTracker.first_rule ExpenseTracker.category_keywords
            (lower U description) with
    | Some c => c
    | None =>
        if negb (Qle_bool amount 0) then txt "Income"
        else if contains (txt "subscription") (lower U description)
                || contains (txt "monthly") (lower U description)
        then txt "Bills & Utilities"
        else txt "Other"
    end.
Proof.
  split; [|split; [|split; [|reflexivity]]].
  - unfold AiService.categorize_transaction.
    destruct (nonempty key); cbn [negb];
      [|eexists; eexists; split; [reflexivity | apply simple_categorization_member]].
    destruct (acreate description) as [[|[content|] rest]|e]; cbn [bind try_except AiService.first_content];
      try (eexists; eexists; split; [reflexivity | apply simple_categorization_member]).
    destruct (member (strip U content) AiService.TRANSACTION_CATEGORIES) eqn:M;
      cbn [negb]; eexists; eexists; (split; [reflexivity|]); [exact M | reflexivity].
  - intros k content rest. unfold AiService.categorize_transaction.
    cbn [nonempty negb bind try_except AiService.first_content].
    destruct (member (strip U content) AiService.TRANSACTION_CATEGORIES); reflexivity.
  - unfold ExpenseTracker.predict_category. cbv zeta.
    destruct (ExpenseTracker.first_rule _ _) as [c|] eqn:R.
    + apply (first_rule_member _ _ R).
    + destruct (negb _); [reflexivity|]. destruct (_ || _); reflexivity.
Qed.

(** C7.  Without an API key [categorize_transaction] raises nothing and
    returns the label of the keyword rules with confidence 0.7, whatever
    the AI service would have done; with a key and a service call that
    throws, the exception is absorbed and the label of the keyword rules
    is returned with confidence 0.5. *)
Theorem categorize_transaction_fallback
    (U : UnicodeDB) (acreate : text -> result AiService.response)
    (description : text) :
  AiService.categorize_transaction U [] acreate description
  = Ok (AiService._simple_categorization U description, 0.7%Q) /\
  (forall k key e,
     AiService.categorize_transaction U (k :: key) (fun _ => Raise e) description
     = Ok (AiService._simple_categorization U description, 0.5%Q)).
Proof. split; [reflexivity | intros k key e; reflexivity]. Qed.

(** C8 (as the code has it).  On ["XYZ123 Unknown Vendor Payment"] the
    keyword rules of the AI service match nothing, so without an API key
    [categorize_transaction] returns ["Other"]; the rules of
    [ExpenseTracker.predict_category] do match, on the keyword
    ["payment"], and it returns ["Income"] whatever the amount. *)
Theorem scenario_unknown_vendor
    (U : UnicodeDB) (acreate : text -> result AiService.response) (amount : Q) :
  let description := txt "XYZ123 Unknown Vendor Payment" in
  AiService._simple_categorization U description = txt "Other" /\
  AiService.categorize_transaction U [] acreate description = Ok (txt "Other", 0.7%Q) /\
  contains (txt "payment") (lower U description) = true /\
  ExpenseTracker.predict_category U description amount = txt "Income".
Proof. vm_compute. auto. Qed.

(** C8, the claim as stated fails for the classifier of the expense
    tracker: it returns ["Income"], not ["Other"]. *)
Lemma scenario_unknown_vendor_is_income :
  (forall U amount,
     ExpenseTracker.predict_category U (txt "XYZ123 Unknown Vendor Payment") amount
     = txt "Income") /\
  txt "Income" <> txt "Other".
Proof.
  split; [intros U amount; vm_compute; reflexivity|].
  intros H. vm_compute in H. discriminate.
Qed.

Lemma simple_categorization_gas (U : UnicodeDB) (description : text) :
  contains (txt "gas") (lower U description) = true ->
  AiService._simple_categorization U description
  = (if any_in ["restaurant"; "food"; "dining"; "cafe"; "coffee"; "pizza"; "burger"]%string
               (lower U description)
     then txt "Food & Dining" else txt "Transportation").
Proof.
  intros G. unfold AiService._simple_categorization. cbv zeta.
  destruct (any_in _ (lower U description)); [reflexivity|].
  rewrite (any_in_keyword "gas"); [reflexivity | simpl; tauto | exact G].
Qed.

Lemma predict_category_gas (U : UnicodeDB) (description : text) (amount : Q) :
  contains (txt "gas") (lower U description) = true ->
  ExpenseTracker.predict_category U description amount
  = (if any_in ["restaurant"; "cafe"; "coffee"; "grocery"; "food"; "dining"; "meal";
                "pizza"; "burger"]%string
               (lower U description)
     then txt "Food & Dining" else txt "Transportation").
Proof.
  intros G.
  unfold ExpenseTracker.predict_category, ExpenseTracker.category_keywords. cbv zeta.
  cbn [ExpenseTracker.first_rule].
  destruct (any_in _ (lower U description)); [reflexivity|].
  rewrite (any_in_keyword "gas"); [reflexivity | simpl; tauto | exact G].
Qed.

(** C10 (as the code has it).  For a description whose lowercased form
    contains ["gas"], both keyword classifiers return ["Food & Dining"]
    when a food keyword occurs too and ["Transportation"] otherwise; they
    never return the utilities category. *)
Theorem gas_is_transportation_unless_food
    (U : UnicodeDB) (description : text) (amount : Q) :
  contains (txt "gas") (lower U description) = true ->
  AiService._simple_categorization U description
  = (if any_in ["restaurant"; "food"; "dining"; "cafe"; "coffee"; "pizza"; "burger"]%string
               (lower U description)
     then txt "Food & Dining" else txt "Transportation") /\
  ExpenseTracker.predict_category U description amount
  = (if any_in ["restaurant"; "cafe"; "coffee"; "grocery"; "food"; "dining"; "meal";
                "pizza"; "burger"]%string
               (lower U description)
     then txt "Food & Dining" else txt "Transportation") /\
  AiService._simple_categorization U description <> txt "Utilities" /\
  ExpenseTracker.predict_category U description amount <> txt "Bills & Utilities".
Proof.
  intros G.
  pose proof (simple_categorization_gas U description G) as A.
  pose proof (predict_category_gas U description amount G) as B.
  split; [exact A|]. split; [exact B|]. rewrite A, B. clear A B G.
  split; destruct (any_in _ _); intros H; vm_compute in H; discriminate.
Qed.

(** C10 at a description that mentions gas and no food. *)
Lemma gas_is_transportation_unless_food_witness :
  contains (txt "gas") (lower ascii_only (txt "Shell Gas Station")) = true /\
  AiService._simple_categorization ascii_only (txt "Shell Gas Station")
  = txt "Transportation" /\
  ExpenseTracker.predict_category ascii_only (txt "Shell Gas Station") 0%Q
  = txt "Transportation".
Proof.
  split; [reflexivity|].
  destruct (gas_is_transportation_unless_food ascii_only (txt "Shell Gas Station") 0%Q
              ltac:(reflexivity)) as [A [B _]].
  split; [exact A | exact B].
Defined.

(** C10, the claim as stated fails: a description with ["gas"] and a food
    keyword is classified as ["Food & Dining"] by both classifiers. *)
Lemma gas_station_coffee_is_food :
  (forall U amount,
     contains (txt "gas") (lower U (txt "Gas station coffee")) = true /\
     AiService._simple_categorization U (txt "Gas station coffee") = txt "Food & Dining" /\
     ExpenseTracker.predict_category U (txt "Gas station coffee") amount
     = txt "Food & Dining") /\
  txt "Food & Dining" <> txt "Transportation".
Proof.
  split; [intros U amount; vm_compute; auto|].
  intros H. vm_compute in H. discriminate.
Qed.

(* ================================================================== *)
(** * Facts about [str.strip] and [str.split] *)
(* ================================================================== *)

Section StripFacts.
Context (U : UnicodeDB).

Lemma lstrip_length (s : text) : (length (lstrip U s) <= length s)%nat.
Proof.
  induction s as [|c s IH]; simpl; [lia|].
  destruct (isspace U c); simpl; lia.
Qed.

Lemma lstrip_In (s : text) (c : char) : In c (lstrip U s) -> In c s.
Proof.
  induction s as [|x s IH]; simpl; [tauto|].
  destruct (isspace U x); simpl; tauto.
Qed.

Lemma lstrip_head (s : text) (c : char) (t : text) :
  lstrip U s = c :: t -> isspace U c = false.
Proof.
  induction s as [|x s IH]; simpl; [discriminate|].
  destruct (isspace U x) eqn:E; [assumption|].
  intros [= <- _]. assumption.
Qed.

Lemma lstrip_fixed (s : text) :
  lstrip U s = s <-> (s = [] \/ exists c t, s = c :: t /\ isspace U c = false).
Proof.
  split.
  - destruct s as [|c t]; [auto|]. intros H. right. exists c, t.
    split; [reflexivity | apply (lstrip_head _ _ _ H)].
  - intros [-> | [c [t [-> H]]]]; simpl; [reflexivity|]. rewrite H. reflexivity.
Qed.

Lemma lstrip_idem (s : text) : lstrip U (lstrip U s) = lstrip U s.
Proof.
  apply lstrip_fixed. destruct (lstrip U s) as [|c t] eqn:E; [auto|].
  right. exists c, t. split; [reflexivity | apply (lstrip_head _ _ _ E)].
Qed.

(** What [lstrip] drops is a prefix. *)
Lemma lstrip_suffix (s : text) : exists p, s = p ++ lstrip U s.
Proof.
  induction s as [|c s [p IH]]; simpl; [exists []; reflexivity|].
  destruct (isspace U c).
  - exists (c :: p). simpl. rewrite <- IH. reflexivity.
  - exists []. reflexivity.
Qed.

(** A suffix of a text that ends in no blank ends in no blank. *)
Lemma right_clean_suffix (p t : text) :
  lstrip U (rev (p ++ t)) = rev (p ++ t) -> lstrip U (rev t) = rev t.
Proof.
  rewrite rev_app_distr. intros H. apply lstrip_fixed.
  destruct (rev t) as [|c u] eqn:E; [auto|]. right. exists c, u.
  split; [reflexivity|]. simpl in H.
  destruct (isspace U c) eqn:S; [|reflexivity]. exfalso.
  pose proof (lstrip_length (u ++ rev p)) as L. rewrite H in L. simpl in L. lia.
Qed.

Lemma strip_idem (s : text) : strip U (strip U s) = strip U s.
Proof.
  unfold strip, rstrip.
  set (r := rev (lstrip U (rev s))).
  assert (R : lstrip U (rev r) = rev r).
  { unfold r. rewrite rev_involutive. apply lstrip_idem. }
  destruct (lstrip_suffix r) as [p Hp].
  assert (T : lstrip U (rev (lstrip U r)) = rev (lstrip U r)).
  { apply (right_clean_suffix p). rewrite <- Hp. exact R. }
  rewrite T, rev_involutive. apply lstrip_idem.
Qed.

Lemma strip_In (s : text) (c : char) : In c (strip U s) -> In c s.
Proof.
  unfold strip, rstrip. intros H. apply lstrip_In in H.
  apply in_rev in H. apply lstrip_In in H. apply in_rev in H. assumption.
Qed.

(** The pieces [split] cuts hold no separator. *)
Lemma split_no_sep (sep : char) (s l : text) :
  In l (split sep s) -> ~ In sep l.
Proof.
  revert l. induction s as [|c s IH]; simpl; intros l H.
  - destruct H as [<- | []]. intros [].
  - destruct (char_eqb c sep) eqn:E.
    + destruct H as [<- | H]; [intros [] | auto].
    + destruct (split sep s) as [|h t] eqn:S.
      * destruct H as [<- | []]. intros [-> | []].
        unfold char_eqb in E. rewrite N.eqb_refl in E. discriminate.
      * destruct H as [<- | H].
        -- intros [-> | H'].
           ++ unfold char_eqb in E. rewrite N.eqb_refl in E. discriminate.
           ++ apply (IH h); [left; reflexivity | assumption].
        -- apply IH. right. assumption.
Qed.

(** The head of [[f x for x in l if p x]]. *)
Lemma first_kept (A B : Type) (p : A -> bool) (f : A -> B) (l : list A) :
  (map f (filter p l) = [] /\ forall x, In x l -> p x = false)
  \/
  (exists pre x post,
     l = pre ++ x :: post /\ (forall y, In y pre -> p y = false) /\ p x = true /\
     exists rest, map f (filter p l) = f x :: rest).
Proof.
  induction l as [|a l IH]; simpl.
  - left. split; [reflexivity | intros x []].
  - destruct (p a) eqn:E.
    + right. exists [], a, l. repeat split; auto.
      * intros y [].
      * simpl. eexists. reflexivity.
    + destruct IH as [[M F] | [pre [x [post [-> [F [Px [rest M]]]]]]]].
      * left. split; [assumption|]. intros x [<- | H]; auto.
      * right. exists (a :: pre), x, post. repeat split; auto.
        -- intros y [<- | H]; auto.
        -- exists rest. assumption.
Qed.
End StripFacts.

(* ================================================================== *)
(** * The receipt pipeline, further *)
(* ================================================================== *)

(** X1.  The vendor of a receipt is the first line of the recognized text
    that holds something besides blanks, stripped; it is ["Unknown Vendor"]
    when there is no such line.  In both cases it is not empty, holds no
    line break and has no blank at either end. *)
Theorem vendor_first_nonblank_line (U : UnicodeDB) (raw : text) :
  let lines := split 10 (strip U raw) in
  let vendor := ReceiptParser.vendor_of U raw in
  ((exists pre line post,
      lines = pre ++ line :: post /\
      (forall l, In l pre -> strip U l = []) /\
      strip U line <> [] /\ vendor = strip U line)
   \/
   ((forall l, In l lines -> strip U l = []) /\ vendor = txt "Unknown Vendor")) /\
  vendor <> [] /\ ~ In 10 vendor /\ strip U vendor = vendor.
Proof.
  intros lines vendor. unfold vendor, ReceiptParser.vendor_of. fold lines.
  assert (NE : forall t : text, nonempty t = false <-> t = []).
  { intros [|c t]; simpl; split; congruence. }
  destruct (first_kept _ _ (fun line => nonempty (strip U line)) (strip U) lines)
    as [[M F] | [pre [x [post [E [F [Px [rest M]]]]]]]]; rewrite M.
  - split; [right; split; [|reflexivity]|].
    + intros l Hl. apply NE. apply F. assumption.
    + split; [discriminate|]. split; [|vm_compute; reflexivity].
      vm_compute. intuition discriminate.
  - assert (Nx : strip U x <> []).
    { intros H. apply NE in H. congruence. }
    split; [left; exists pre, x, post; repeat split; auto|].
    + intros l Hl. apply NE. apply F. assumption.
    + split; [assumption|]. split; [|apply strip_idem].
      intros H. apply strip_In in H.
      apply (split_no_sep 10 (strip U raw) x); [|assumption].
      fold lines. rewrite E. apply in_or_app. right. left. reflexivity.
Qed.

(* ================================================================== *)
(** * The field extractor, further *)
(* ================================================================== *)

Section UngroupedAmounts.
Context (U : UnicodeDB).
Hypothesis decimal_digits : forall c d, u_decimal U c = Some d -> d <= 9.

Lemma decimal_le_9 (c : char) (d : N) : decimal U c = Some d -> d <= 9.
Proof.
  unfold decimal. destruct (is_ascii c); [|apply decimal_digits].
  unfold between. destruct (N.leb_spec 48 c); simpl; [|discriminate].
  destruct (N.leb_spec c 57); [|discriminate]. intros [= <-]. lia.
Qed.

Lemma digits_value_bound (s : text) :
  forall acc n, digits_value U acc s = Some n -> n < (acc + 1) * 10 ^ N.of_nat (length s).
Proof.
  induction s as [|c s IH]; intros acc n H.
  - simpl in H. injection H as <-. simpl. lia.
  - simpl in H. destruct (decimal U c) as [d|] eqn:D; [|discriminate].
    apply decimal_le_9 in D. apply IH in H.
    cbn [length]. rewrite Nat2N.inj_succ, N.pow_succ_r'. nia.
Qed.
End UngroupedAmounts.

Section AmountValue.
Context (U : UnicodeDB).

Lemma pow10_spec (k : nat) : Z.pos (pow10 k) = (10 ^ Z.of_nat k)%Z.
Proof.
  induction k as [|k IH]; [reflexivity|].
  cbn [pow10]. rewrite Pos2Z.inj_mul, IH, Nat2Z.inj_succ, Z.pow_succ_r by lia.
  reflexivity.
Qed.

(** What [float] reads from [digits] or [digits.digits]. *)
Lemma float_value (c : char) (ip : text) (rest : option text) :
  isdecimal U c = true ->
  forallb (isdecimal U) ip = true ->
  match rest with Some fp => forallb (isdecimal U) fp = true | None => True end ->
  exists n,
    digits_value U 0 ((c :: ip) ++ match rest with Some fp => fp | None => [] end) = Some n /\
    float U ((c :: ip) ++ match rest with Some fp => code "." :: fp | None => [] end)
    = Ok (nearest_double
            (Qmake (Z.of_N n)
                   (pow10 (length match rest with Some fp => fp | None => [] end)))).
Proof.
  intros Hc Hip Hrest. unfold float.
  rewrite (break_at_digits U); [| reflexivity | reflexivity | simpl; rewrite Hc, Hip; reflexivity].
  assert (D : forallb (isdecimal U)
                ((c :: ip) ++ match rest with Some f => f | None => [] end) = true).
  { rewrite forallb_app. simpl. rewrite Hc, Hip. simpl.
    destruct rest; [assumption | reflexivity]. }
  destruct (digits_value_total U _ D 0) as [n En].
  exists n. split; [exact En|].
  cbv beta iota zeta. change (nonempty (c :: ip)) with true.
  cbv beta iota delta [orb].
  match goal with
  | |- context [digits_value ?u ?a ?l] =>
      replace (digits_value u a l) with (Some n) by (symmetry; exact En)
  end.
  reflexivity.
Qed.

Lemma remove_char_lacks (k : char) (s : text) :
  lacks k s = true -> remove_char k s = s.
Proof.
  unfold lacks, remove_char. induction s as [|c s IH]; simpl; intros H; [reflexivity|].
  apply andb_prop in H. destruct H as [Hc Hs]. rewrite Hc, (IH Hs). reflexivity.
Qed.

Lemma lacks_In (k : char) (s : text) : lacks k s = true -> ~ In k s.
Proof.
  unfold lacks. intros H I. rewrite forallb_forall in H. specialize (H k I).
  unfold char_eqb in H. rewrite N.eqb_refl in H. discriminate.
Qed.

Lemma lacks_sub (k : char) (s w : text) :
  (forall c, In c w -> In c s) -> lacks k s = true -> lacks k w = true.
Proof.
  unfold lacks. intros Sub H. rewrite forallb_forall in *. auto.
Qed.

(** Group 1 of a match lies in the text the match was looked for in. *)
Lemma amount_group_within (z0 z : cursor) :
  In z (run U amount_pattern z0) ->
  exists w, group "1" (groups z) = Some w /\ lang U number_pattern w /\
            forall c, In c w -> In c (after z0).
Proof.
  unfold amount_pattern. intros H.
  rewrite run_Seq in H. apply in_flat_map in H. destruct H as [z1 [H1 H]].
  rewrite run_Seq in H. apply in_flat_map in H. destruct H as [z2 [H2 H]].
  rewrite run_Group in H. apply in_map_iff in H. destruct H as [z3 [<- H3]].
  destruct (run_sound U _ _ _ H1) as [w1 [_ [_ A1]]].
  destruct (run_sound U _ _ _ H2) as [w2 [_ [_ A2]]].
  destruct (run_sound U _ _ _ H3) as [w [L [B A3]]].
  exists w. split; [|split; [assumption|]].
  - simpl. rewrite (consumed_before _ _ _ B). reflexivity.
  - intros c Hc. rewrite A1, A2, A3.
    apply in_or_app. right. apply in_or_app. right. apply in_or_app. left. assumption.
Qed.

Lemma findall1_amount_within (s w : text) :
  In w (findall1 U amount_pattern s) ->
  lang U number_pattern w /\ forall c, In c w -> In c s.
Proof.
  unfold findall1, finditer. intros H. apply in_map_iff in H.
  destruct H as [m [<- H]].
  apply scan_In in H. destruct H as [bef [aft [z [Es [E ->]]]]].
  apply match_here_run in E. apply amount_group_within in E.
  destruct E as [w [G [L Sub]]]. simpl. rewrite G. split; [assumption|].
  intros c Hc. simpl in Sub, Es. rewrite <- Es. apply in_or_app. right. auto.
Qed.

(** A word of the number pattern without a comma: one to three digits and
    at most two decimals. *)
Lemma number_ungrouped (w : text) :
  lang U number_pattern w -> lacks (code ",") w = true ->
  exists c ip rest,
    w = (c :: ip) ++ match rest with Some fp => code "." :: fp | None => [] end /\
    isdecimal U c = true /\ forallb (isdecimal U) ip = true /\ (length ip <= 2)%nat /\
    match rest with
    | Some fp => forallb (isdecimal U) fp = true /\ (length fp <= 2)%nat
    | None => True
    end.
Proof.
  intros L K. unfold number_pattern in L.
  destruct L as [w1 [w23 [-> [L1 [w2 [w3 [-> [L2 L3]]]]]]]].
  assert (W2 : w2 = []).
  { destruct L2 as [ws [-> F]]. destruct F as [|x l Hx F]; [reflexivity|].
    exfalso. destruct Hx as [a [b [-> [[k [-> Hk]] _]]]].
    simpl in Hk. apply N.eqb_eq in Hk. subst k.
    apply (lacks_In _ _ K). apply in_or_app. right. simpl. left. reflexivity. }
  subst w2. simpl app.
  assert (R12 : forall v, lang U (Upto 2 (Cls CDigit)) v ->
                  forallb (isdecimal U) v = true /\ (length v <= 2)%nat).
  { intros v [-> | [a [b [-> [[x [-> Hx]] [-> | [a' [b' [-> [[y [-> Hy]] ->]]]]]]]]]];
      simpl in *; rewrite ?Hx, ?Hy; split; auto; lia. }
  destruct L1 as [d [w1' [-> [[c [-> Hc]] L1']]]]. simpl in Hc.
  destruct (R12 _ L1') as [D1 N1].
  destruct L3 as [-> | [p [fp [-> [[x [-> Hx]] L3]]]]].
  - exists c, w1', None. rewrite !app_nil_r. auto.
  - simpl in Hx. apply N.eqb_eq in Hx. subst x.
    exists c, w1', (Some fp). split; [reflexivity|]. split; [assumption|].
    split; [assumption|]. split; [assumption|].
    destruct L3 as [a [b [-> [[y [-> Hy]] Lb]]]]. simpl in Hy.
    assert (R1 : forallb (isdecimal U) b = true /\ (length b <= 1)%nat).
    { destruct Lb as [-> | [a' [b' [-> [[y' [-> Hy']] ->]]]]];
        simpl in *; rewrite ?Hy'; split; auto; lia. }
    destruct R1 as [Db Nb]. simpl. rewrite Hy, Db. split; [reflexivity | lia].
Qed.
End AmountValue.

Lemma overflow_above_1000 : (1000 < float_overflow)%Z.
Proof. vm_compute. reflexivity. Qed.

(** X2.  A text without a comma never yields an amount of 1000 or more:
    the pattern reads at most three digits before the decimal point, so a
    longer ungrouped number is cut ([extract_amount] answers with the value
    of its last piece). *)
Theorem extract_amount_ungrouped_below_1000 (U : UnicodeDB) (s : text) :
  (forall c d, u_decimal U c = Some d -> d <= 9) ->
  lacks (code ",") s = true ->
  exists q, extract_amount U s = Ok (Finite q) /\ (0 <= q)%Q /\ (q < 1000)%Q.
Proof.
  intros HU K. unfold extract_amount.
  destruct (findall1 U amount_pattern s) as [|w0 l] eqn:E.
  - exists 0%Q. split; [reflexivity|]. split; [apply Qle_refl | reflexivity].
  - pose proof (last_In _ w0 l []) as HI. rewrite <- E in HI at 2.
    set (w := last (w0 :: l) []) in *.
    destruct (findall1_amount_within U s w HI) as [L Sub].
    pose proof (lacks_sub _ _ _ Sub K) as Kw.
    rewrite (remove_char_lacks _ _ Kw).
    destruct (number_ungrouped U w L Kw) as [c [ip [rest [-> [Hc [Hip [Nip Hrest]]]]]]].
    destruct (float_value U c ip rest Hc Hip) as [n [Dn F]].
    { destruct rest; [apply Hrest | exact I]. }
    set (fp := match rest with Some f => f | None => [] end) in *.
    assert (Nfp : (length fp <= 2)%nat).
    { unfold fp. destruct rest; [apply Hrest | simpl; lia]. }
    pose proof (digits_value_bound U HU _ _ _ Dn) as B.
    assert (B' : (Z.of_N n < 1000 * Z.pos (pow10 (length fp)))%Z).
    { rewrite pow10_spec.
      rewrite length_app in B. cbn [length] in B.
      assert (P : 10 ^ N.of_nat (S (length ip) + length fp)
                  <= 1000 * 10 ^ N.of_nat (length fp)).
      { replace (N.of_nat (S (length ip) + length fp))
          with (N.of_nat (S (length ip)) + N.of_nat (length fp)) by lia.
        rewrite N.pow_add_r. apply N.mul_le_mono_r.
        change 1000 with (10 ^ 3). apply N.pow_le_mono_r; lia. }
      assert (B0 : n < (0 + 1) * 10 ^ N.of_nat (S (length ip) + length fp)) by exact B.
      assert (B2 : n < 1000 * 10 ^ N.of_nat (length fp)) by lia.
      apply N2Z.inj_lt in B2. rewrite N2Z.inj_mul, N2Z.inj_pow in B2.
      rewrite nat_N_Z in B2. exact B2. }
    exists (Qmake (Z.of_N n) (pow10 (length fp))).
    assert (Lt : (Qmake (Z.of_N n) (pow10 (length fp)) < 1000)%Q).
    { unfold Qlt. simpl. lia. }
    split; [|split; [unfold Qle; simpl; lia | exact Lt]].
    etransitivity; [exact F|]. f_equal.
    change (nearest_double (Qmake (Z.of_N n) (pow10 (length fp)))
            = Finite (Qmake (Z.of_N n) (pow10 (length fp)))).
    unfold nearest_double.
    destruct (Qle_bool (inject_Z float_overflow) (Qmake (Z.of_N n) (pow10 (length fp)))) eqn:O;
      [|reflexivity].
    exfalso. apply Qle_bool_iff in O. unfold Qle in O. simpl in O.
    pose proof overflow_above_1000. nia.
Qed.

(** X2 on a text with an ungrouped four-digit number. *)
Lemma extract_amount_ungrouped_below_1000_witness :
  exists q, extract_amount ascii_only (txt "Total 2024") = Ok (Finite q)
            /\ (0 <= q)%Q /\ (q < 1000)%Q.
Proof.
  apply (extract_amount_ungrouped_below_1000 ascii_only (txt "Total 2024")).
  - intros c d H. discriminate H.
  - reflexivity.
Defined.

(** X3.  The date pattern matches more than the formats read: whenever
    [extract_date] returns a date, the candidate it was read from has the
    same separator twice and either a four-character year, or a slash and a
    two-character year.  Candidates with mixed separators, with a
    three-digit year, or with dashes and a two-digit year are passed over. *)
Theorem extract_date_reads_three_shapes (U : UnicodeDB) (s : text) :
  extract_date U s = Ok None
  \/
  exists d c f,
    extract_date U s = Ok (Some d) /\
    In c (findall0 U date_pattern s) /\ In f date_formats /\ strptime U c f = Ok d /\
    (date_shape (code "/") 4 c \/ date_shape (code "-") 4 c \/ date_shape (code "/") 2 c).
Proof.
  unfold extract_date.
  destruct (try_candidates_spec U (findall0 U date_pattern s))
    as [[N _] | [d [pre [c [post [fs [f [fs' [E1 [E2 [P [_ [_ [_ T]]]]]]]]]]]]]].
  - left. assumption.
  - right. exists d, c, f.
    assert (Hf : In f date_formats).
    { rewrite E2. apply in_or_app. right. left. reflexivity. }
    split; [assumption|]. split; [rewrite E1; apply in_or_app; right; left; reflexivity|].
    split; [assumption|]. split; [assumption|].
    destruct (strptime_shape U c d) as [S1 [S2 [S3 S4]]].
    unfold date_formats in Hf.
    destruct Hf as [<- | [<- | [<- | [<- | []]]]]; auto.
Qed.

(* ================================================================== *)
(** * The transaction endpoints and the insights *)
(* ================================================================== *)

Lemma categorize_transaction_member
    (U : UnicodeDB) (key : text) (acreate : text -> result AiService.response)
    (description : text) :
  exists c conf,
    AiService.categorize_transaction U key acreate description = Ok (c, conf) /\
    member c AiService.TRANSACTION_CATEGORIES = true.
Proof.
  unfold AiService.categorize_transaction.
  destruct (nonempty key); cbn [negb];
    [|eexists; eexists; split; [reflexivity | apply simple_categorization_member]].
  destruct (acreate description) as [[|[content|] rest]|e];
    cbn [bind try_except AiService.first_content];
    try (eexists; eexists; split; [reflexivity | apply simple_categorization_member]).
  destruct (member (strip U content) AiService.TRANSACTION_CATEGORIES) eqn:M;
    cbn [negb]; eexists; eexists; (split; [reflexivity|]); [exact M | reflexivity].
Qed.

(** X4.  As shipped, [create_transaction] never stores a row: after it
    has settled the category (asking the classifier when the request has
    none, which cannot fail), constructing the [Transaction] configures
    the mappers, and [Transaction.user] names a relationship
    [transactions] that [User] does not declare.  For every request it
    raises [InvalidRequestError]. *)
Theorem create_transaction_raises
    (U : UnicodeDB) (key : text) (acreate : text -> result AiService.response)
    (next_id : list Transactions.Transaction -> Z) (others : list Orm.mapped_class)
    (transaction : Transactions.TransactionCreate) (current_user : Z)
    (db : list Transactions.Transaction) :
  Transactions.create_transaction U key acreate next_id others transaction current_user db
  = Raise Orm.InvalidRequestError.
Proof.
  unfold Transactions.create_transaction.
  destruct (nonempty (Transactions.c_category transaction)); cbn [negb bind];
    [reflexivity|].
  destruct (categorize_transaction_member U key acreate
              (Transactions.c_description transaction)) as [c [conf [E _]]].
  rewrite E. reflexivity.
Qed.

(** X5.  [get_financial_insights] never raises, and what it returns is
    settled by the key and by the answer to the one request it sends:
    without an API key a message; with a key, the content of the first
    choice of the answer under the fixed time stamp, and the other message
    when the request raises or answers with no choice.  The request is
    built from the first 50 transactions of the list, in the order of the
    list: the result is the same as on the list cut after 50. *)
Theorem get_financial_insights_outcome
    (key : text) (A : Type) (str_amount : A -> text)
    (acreate : text -> result AiService.response)
    (transactions : list (AiInsights.Txn A)) :
  let prompt := join [10] (map (AiInsights.summary_line A str_amount)
                               (firstn 50 transactions)) in
  AiInsights.get_financial_insights key A str_amount acreate transactions
  = Ok (if nonempty key then
          match acreate prompt with
          | Ok (content :: _) => AiInsights.Insights content "2024-01-01T00:00:00Z"
          | Ok [] => AiInsights.Message "Unable to generate insights at this time"
          | Raise _ => AiInsights.Message "Unable to generate insights at this time"
          end
        else AiInsights.Message "AI insights not available")
  /\
  AiInsights.get_financial_insights key A str_amount acreate transactions
  = AiInsights.get_financial_insights key A str_amount acreate (firstn 50 transactions).
Proof.
  cbv zeta. unfold AiInsights.get_financial_insights. split.
  - destruct (nonempty key); cbn [negb]; [|reflexivity].
    destruct (acreate _) as [[|c rest]|e]; reflexivity.
  - rewrite firstn_firstn. reflexivity.
Qed.

(* ================================================================== *)
(** * The expense tracker, further *)
(* ================================================================== *)

Lemma text_eqb_eq (a b : text) : text_eqb a b = true <-> a = b.
Proof.
  revert b. induction a as [|x a IH]; intros [|y b]; simpl; split; try congruence.
  - intros H. apply andb_prop in H. destruct H as [H1 H2].
    apply N.eqb_eq in H1. apply IH in H2. congruence.
  - intros [= -> ->]. unfold char_eqb. rewrite N.eqb_refl. apply IH. reflexivity.
Qed.

Lemma text_eqb_refl (a : text) : text_eqb a a = true.
Proof. apply text_eqb_eq. reflexivity. Qed.

(** [index] finds every element of the list, at its first position. *)
Lemma index_member (x : text) (xs : list text) :
  member x xs = true ->
  exists i, index x xs = Ok i /\ (i < length xs)%nat /\ nth_error xs i = Some x.
Proof.
  unfold member. induction xs as [|y ys IH]; simpl; [discriminate|].
  intros H. destruct (text_eqb y x) eqn:E.
  - apply text_eqb_eq in E. subst y. exists 0%nat. repeat split. lia.
  - assert (E' : text_eqb x y = false).
    { destruct (text_eqb x y) eqn:E'; [|reflexivity].
      apply text_eqb_eq in E'. subst y. rewrite text_eqb_refl in E. discriminate. }
    rewrite E' in H. simpl in H. destruct (IH H) as [i [I1 [I2 I3]]].
    exists (S i). rewrite I1. repeat split; simpl; auto. lia.
Qed.

Lemma predict_category_member (U : UnicodeDB) (description : text) (amount : Q) :
  member (ExpenseTracker.predict_category U description amount)
         ExpenseTracker.categories = true.
Proof.
  unfold ExpenseTracker.predict_category. cbv zeta.
  destruct (ExpenseTracker.first_rule _ _) as [c|] eqn:R.
  - apply (first_rule_member _ _ R).
  - destruct (negb _); [reflexivity|]. destruct (_ || _); reflexivity.
Qed.

(** X6.  The add-transaction form can always preselect the suggested
    category: [self.categories.index(predicted_category)] never raises
    [ValueError], and the entry it points at is the suggested category. *)
Theorem category_index_found (U : UnicodeDB) (description : text) (amount : Q) :
  exists i,
    ExpenseTrackerForm.category_index U description amount = Ok i /\
    (i < length ExpenseTracker.categories)%nat /\
    nth_error ExpenseTracker.categories i
    = Some (if nonempty description
            then ExpenseTracker.predict_category U description amount
            else txt "Food & Dining").
Proof.
  unfold ExpenseTrackerForm.category_index. destruct (nonempty description).
  - apply index_member. apply predict_category_member.
  - exists 0%nat. split; [reflexivity|]. split; [simpl; lia | reflexivity].
Qed.

Lemma first_rule_not_other (dl c : text) :
  ExpenseTracker.first_rule ExpenseTracker.category_keywords dl = Some c ->
  c <> txt "Other".
Proof.
  unfold ExpenseTracker.category_keywords. cbn [ExpenseTracker.first_rule].
  repeat (destruct (any_in _ _);
          [intros [= <-] H; vm_compute in H; discriminate|]).
  discriminate.
Qed.

(** X7.  With a positive amount [predict_category] never answers
    ["Other"]: a description that no keyword rule matches is classified as
    ["Income"].  The add-transaction form only passes positive amounts, for
    expenses too. *)
Theorem predict_category_positive_amount
    (U : UnicodeDB) (description : text) (amount : Q) :
  (0 < amount)%Q ->
  ExpenseTracker.predict_category U description amount
  = match ExpenseTracker.first_rule ExpenseTracker.category_keywords
            (lower U description) with
    | Some c => c
    | None => txt "Income"
    end /\
  ExpenseTracker.predict_category U description amount <> txt "Other".
Proof.
  intros P.
  assert (Q0 : Qle_bool amount 0 = false).
  { destruct (Qle_bool amount 0) eqn:E; [|reflexivity].
    apply Qle_bool_iff in E. exfalso. apply (Qlt_not_le _ _ P E). }
  unfold ExpenseTracker.predict_category. cbv zeta. rewrite Q0. cbn [negb].
  split; [reflexivity|].
  destruct (ExpenseTracker.first_rule _ _) as [c|] eqn:R.
  - apply (first_rule_not_other _ _ R).
  - intros H. vm_compute in H. discriminate.
Qed.

(** X7 at the form's default amount. *)
Lemma predict_category_positive_amount_witness :
  ExpenseTracker.predict_category ascii_only (txt "XYZ123 vendor") 50%Q = txt "Income" /\
  ExpenseTracker.predict_category ascii_only (txt "XYZ123 vendor") 50%Q <> txt "Other".
Proof.
  exact (predict_category_positive_amount ascii_only (txt "XYZ123 vendor") 50%Q
           ltac:(reflexivity)).
Defined.

Lemma first_response_spec (rs : list (string * string)) (ql : text) :
  (ExpenseTrackerForm.first_response rs ql = None /\
   forall k r, In (k, r) rs -> contains (txt k) ql = false)
  \/
  (exists pre k r post,
     rs = pre ++ (k, r) :: post /\
     (forall k' r', In (k', r') pre -> contains (txt k') ql = false) /\
     contains (txt k) ql = true /\
     ExpenseTrackerForm.first_response rs ql = Some (txt r)).
Proof.
  induction rs as [|[k r] rs IH]; simpl.
  - left. split; [reflexivity | intros k r []].
  - destruct (contains (txt k) ql) eqn:E.
    + right. exists [], k, r, rs. repeat split; auto. intros k' r' [].
    + destruct IH as [[N F] | [pre [k1 [r1 [post [-> [F [C S]]]]]]]].
      * left. split; [assumption|]. intros k' r' [[= <- <-] | H]; eauto.
      * right. exists ((k, r) :: pre), k1, r1, post. repeat split; auto.
        intros k' r' [[= <- <-] | H]; eauto.
Qed.

(** X8.  The assistant answers every question: with the response of the
    first key, in the order of the dictionary, that occurs in the
    lowercased question, and with the general help text exactly when no
    key occurs. *)
Theorem generate_ai_response_first_key (U : UnicodeDB) (question : text) :
  let ql := lower U question in
  ((exists pre k r post,
      ExpenseTrackerForm.responses = pre ++ (k, r) :: post /\
      (forall k' r', In (k', r') pre -> contains (txt k') ql = false) /\
      contains (txt k) ql = true /\
      ExpenseTrackerForm.generate_ai_response U question = txt r)
   \/
   ((forall k r, In (k, r) ExpenseTrackerForm.responses -> contains (txt k) ql = false) /\
    ExpenseTrackerForm.generate_ai_response U question
    = txt ExpenseTrackerForm.default_response)) /\
  (ExpenseTrackerForm.generate_ai_response U question
   = txt ExpenseTrackerForm.default_response
   <-> forall k r, In (k, r) ExpenseTrackerForm.responses -> contains (txt k) ql = false).
Proof.
  intros ql. unfold ExpenseTrackerForm.generate_ai_response. fold ql.
  destruct (first_response_spec ExpenseTrackerForm.responses ql)
    as [[N F] | [pre [k [r [post [E [F [C S]]]]]]]].
  - rewrite N. split; [right; auto|]. split; auto.
  - rewrite S. split; [left; exists pre, k, r, post; auto|].
    assert (Hin : In (k, r) ExpenseTrackerForm.responses).
    { rewrite E. apply in_or_app. right. left. reflexivity. }
    split.
    + intros H. exfalso. unfold ExpenseTrackerForm.responses in Hin.
      destruct Hin as [[= <- <-] | [[= <- <-] | [[= <- <-] | [[= <- <-] | []]]]];
        vm_compute in H; discriminate.
    + intros H. rewrite (H k r Hin) in C. discriminate.
Qed.

(* ================================================================== *)
(** * The text normalizer *)
(* ================================================================== *)

Section CleanFacts.
Context (U : UnicodeDB).

Lemma ascii_lower_clean (c : char) :
  is_ascii c = true -> NlpUtils.kept U c = true -> clean_char U (ascii_lower c) = true.
Proof.
  intros A K. unfold ascii_lower. destruct (between 65 90 c) eqn:B.
  - unfold between in B. apply andb_prop in B. destruct B as [B1 B2].
    apply N.leb_le in B1, B2.
    assert (F1 : is_ascii (c + 32) = true) by (apply N.ltb_lt; lia).
    assert (F2 : between 97 122 (c + 32) = true).
    { unfold between. apply andb_true_intro. split; apply N.leb_le; lia. }
    assert (F3 : between 65 90 (c + 32) = false).
    { unfold between. apply andb_false_intro2. apply N.leb_gt. lia. }
    unfold clean_char, NlpUtils.kept. rewrite F1, F2, F3. reflexivity.
  - unfold clean_char. rewrite A, K, B. reflexivity.
Qed.

Lemma clean_char_fixed (c : char) : clean_char U c = true -> ascii_lower c = c.
Proof.
  unfold clean_char, ascii_lower. intros H.
  apply andb_prop in H. destruct H as [_ H].
  destruct (between 65 90 c); [discriminate | reflexivity].
Qed.

Lemma lower_ascii (s : text) :
  forallb is_ascii s = true -> lower U s = map (ascii_lower) s.
Proof. unfold lower. intros ->. reflexivity. Qed.

Lemma filter_all (A : Type) (p : A -> bool) (l : list A) :
  forallb p l = true -> filter p l = l.
Proof.
  induction l as [|a l IH]; simpl; intros H; [reflexivity|].
  apply andb_prop in H. destruct H as [Ha Hl]. rewrite Ha, (IH Hl). reflexivity.
Qed.

Lemma forallb_sub (A : Type) (p : A -> bool) (l l' : list A) :
  (forall x, In x l' -> In x l) -> forallb p l = true -> forallb p l' = true.
Proof. intros S H. rewrite forallb_forall in *. auto. Qed.

Lemma forallb_weaken (A : Type) (p q : A -> bool) (l : list A) :
  (forall x, p x = true -> q x = true) -> forallb p l = true -> forallb q l = true.
Proof. intros S H. rewrite forallb_forall in *. auto. Qed.

Lemma clean_input_chars (s : text) :
  forallb is_ascii s = true -> forallb (clean_char U) (NlpUtils.clean_input U s) = true.
Proof.
  intros A. unfold NlpUtils.clean_input. cbv zeta.
  assert (FA : forallb is_ascii (filter (NlpUtils.kept U) s) = true).
  { apply (forallb_sub _ _ s); [|assumption]. intros x Hx.
    apply filter_In in Hx. tauto. }
  rewrite (lower_ascii _ FA).
  apply (forallb_sub _ _ (map (ascii_lower) (filter (NlpUtils.kept U) s)));
    [intros x; apply strip_In|].
  apply forallb_forall. intros x Hx. apply in_map_iff in Hx.
  destruct Hx as [c [<- Hc]]. apply filter_In in Hc. destruct Hc as [Hc K].
  apply ascii_lower_clean; [|assumption].
  rewrite forallb_forall in A. auto.
Qed.
End CleanFacts.

(** X9.  On an ASCII text [clean_input] leaves only lowercase letters,
    digits, blanks and the punctuation [.,:/-], with no blank at either
    end, and cleaning a cleaned text changes nothing. *)
Theorem clean_input_idempotent (U : UnicodeDB) (s : text) :
  forallb is_ascii s = true ->
  let c := NlpUtils.clean_input U s in
  forallb (clean_char U) c = true /\ strip U c = c /\ NlpUtils.clean_input U c = c.
Proof.
  intros A c. pose proof (clean_input_chars U s A) as C. fold c in C.
  assert (S : strip U c = c) by (unfold c, NlpUtils.clean_input; apply strip_idem).
  split; [assumption|]. split; [assumption|].
  unfold NlpUtils.clean_input at 1. cbv zeta.
  assert (K : forallb (NlpUtils.kept U) c = true).
  { revert C. apply forallb_weaken. unfold clean_char. intros x H.
    apply andb_prop in H. destruct H as [H _]. apply andb_prop in H. tauto. }
  assert (CA : forallb is_ascii c = true).
  { revert C. apply forallb_weaken. unfold clean_char. intros x H.
    apply andb_prop in H. destruct H as [H _]. apply andb_prop in H. tauto. }
  rewrite (filter_all _ _ _ K), (lower_ascii U _ CA).
  replace (map (ascii_lower) c) with c; [assumption|].
  rewrite forallb_forall in C. clear - C. induction c as [|x c IH]; [reflexivity|].
  simpl. rewrite (clean_char_fixed U x) by (apply C; left; reflexivity).
  f_equal. apply IH. intros y Hy. apply C. right. assumption.
Qed.

(** X9 on a line of a receipt. *)
Lemma clean_input_idempotent_witness :
  NlpUtils.clean_input ascii_only (txt "  Total: Rs. 1,234.56 (PAID!) ")
  = txt "total: rs. 1,234.56 paid" /\
  NlpUtils.clean_input ascii_only (txt "total: rs. 1,234.56 paid")
  = txt "total: rs. 1,234.56 paid".
Proof.
  split; [reflexivity|].
  exact (proj2 (proj2 (clean_input_idempotent ascii_only
                         (txt "  Total: Rs. 1,234.56 (PAID!) ") eq_refl))).
Defined.

(* ================================================================== *)
(** * utils.py *)
(* ================================================================== *)

(** X10.  [calculate_age] counts the full years lived: the birthday
    moved on by [k] years is not after today exactly for the [k] up to the
    age.  So the age goes up on the birthday itself, and it is negative
    for a birth date after today. *)
Theorem calculate_age_full_years (today birth_date : calendar_date) (k : Z) :
  date_le_shifted birth_date k today <-> (k <= Utils.calculate_age today birth_date)%Z.
Proof.
  unfold date_le_shifted, date_lt_shifted, Utils.calculate_age. cbv zeta.
  destruct (N.ltb_spec (month today) (month birth_date));
    destruct (N.eqb_spec (month today) (month birth_date));
    destruct (N.ltb_spec (day today) (day birth_date));
    cbn [orb andb]; lia.
Qed.

(* ================================================================== *)
(** * The transaction endpoints: the mapper *)
(* ================================================================== *)

(** X11.  As shipped, the endpoints that read or delete transactions
    raise [InvalidRequestError] for every request and every table: their
    first statement queries [Transaction], which configures the mappers,
    and [Transaction.user] names a relationship that [User] does not
    declare. *)
Theorem query_endpoints_raise
    (others : list Orm.mapped_class)
    (skip limit : nat) (category_filter type_filter : option text)
    (start_date end_date : option Z) (transaction_id current_user : Z)
    (db : list Transactions.Transaction) :
  Transactions.get_transactions others skip limit category_filter type_filter
    start_date end_date current_user db = Raise Orm.InvalidRequestError /\
  Transactions.get_transaction others transaction_id current_user db
  = Raise Orm.InvalidRequestError /\
  Transactions.delete_transaction others transaction_id current_user db
  = Raise Orm.InvalidRequestError.
Proof. repeat split. Qed.

(* ================================================================== *)
(** * Reading back a written date *)
(* ================================================================== *)

Section RoundTrip.
Context (U : UnicodeDB).

Lemma hd_flat_map (A B : Type) (f : A -> list B) (l : list A) (a : A) (b : B) :
  hd_error l = Some a -> hd_error (f a) = Some b ->
  hd_error (flat_map f l) = Some b.
Proof.
  destruct l as [|x l]; [discriminate|]. intros [= ->].
  simpl. destruct (f a); [discriminate|]. intros [= ->]. reflexivity.
Qed.

Lemma first_Seq (r1 r2 : regex) (z z1 z2 : cursor) :
  hd_error (run U r1 z) = Some z1 -> hd_error (run U r2 z1) = Some z2 ->
  hd_error (run U (Seq r1 r2) z) = Some z2.
Proof. apply hd_flat_map. Qed.

Lemma first_Group (name : string) (r : regex) (w bef aft : text)
    (gs : list (string * text)) :
  hd_error (run U r {| before := bef; after := w ++ aft; groups := gs |})
  = Some {| before := rev w ++ bef; after := aft; groups := gs |} ->
  hd_error (run U (Group name r) {| before := bef; after := w ++ aft; groups := gs |})
  = Some {| before := rev w ++ bef; after := aft; groups := (name, w) :: gs |}.
Proof.
  intros H. cbn [run].
  destruct (run U r _) as [|z l]; [discriminate|]. injection H as ->.
  cbn [map hd_error]. unfold capture. cbn [before after groups].
  rewrite (consumed_before _ _ w); reflexivity.
Qed.

Lemma decimal_digit (a : N) : a <= 9 -> decimal U (48 + a) = Some a.
Proof.
  intros H. unfold decimal, is_ascii, between.
  replace (48 + a <? 128) with true by (symmetry; apply N.ltb_lt; lia).
  replace (48 <=? 48 + a) with true by (symmetry; apply N.leb_le; lia).
  replace (48 + a <=? 57) with true by (symmetry; apply N.leb_le; lia).
  cbn [andb]. f_equal. lia.
Qed.

Lemma isdecimal_digit (a : N) : a <= 9 -> isdecimal U (48 + a) = true.
Proof. intros H. unfold isdecimal. rewrite (decimal_digit a H). reflexivity. Qed.

Lemma isword_digit (a : N) : a <= 9 -> isword U (48 + a) = true.
Proof.
  intros H. unfold isword, is_ascii, between.
  replace (48 + a <? 128) with true by (symmetry; apply N.ltb_lt; lia).
  replace (48 <=? 48 + a) with true by (symmetry; apply N.leb_le; lia).
  replace (48 + a <=? 57) with true by (symmetry; apply N.leb_le; lia).
  reflexivity.
Qed.


Lemma isspace_digit (a : N) : a <= 9 -> isspace U (48 + a) = false.
Proof.
  intros H. unfold isspace, is_ascii, between, char_eqb.
  replace (48 + a <? 128) with true by (symmetry; apply N.ltb_lt; lia).
  replace (48 + a <=? 13) with false by (symmetry; apply N.leb_gt; lia).
  replace (48 + a <=? 31) with false by (symmetry; apply N.leb_gt; lia).
  replace (48 + a =? 32) with false by (symmetry; apply N.eqb_neq; lia).
  rewrite !andb_false_r. reflexivity.
Qed.

Lemma first_Cls (k : cclass) (c : char) (bef aft : text) (gs : list (string * text)) :
  in_class U k c = true ->
  hd_error (run U (Cls k) {| before := bef; after := c :: aft; groups := gs |})
  = Some {| before := c :: bef; after := aft; groups := gs |}.
Proof. intros H. cbn [run after before groups]. rewrite H. reflexivity. Qed.

Lemma first_Opt (r : regex) (z z' : cursor) :
  hd_error (run U r z) = Some z' -> hd_error (run U (Opt r) z) = Some z'.
Proof.
  intros H. cbn [run]. destruct (run U r z); [discriminate|]. exact H.
Qed.

Lemma first_WordB (z : cursor) :
  xorb (word_at U (before z)) (word_at U (after z)) = true ->
  hd_error (run U WordB z) = Some z.
Proof. intros H. cbn [run]. rewrite H. reflexivity. Qed.

Lemma first_directive_d (n : N) (bef aft : text) (gs : list (string * text)) :
  between 1 31 n = true ->
  hd_error (run U directive_d
              {| before := bef; after := two_digits n ++ aft; groups := gs |})
  = Some {| before := rev (two_digits n) ++ bef; after := aft;
            groups := ("d"%string, two_digits n) :: gs |}.
Proof.
  intros H. unfold directive_d. apply first_Group.
  destruct n as [|p]; [discriminate|].
  do 5 (try destruct p as [p|p|]); try discriminate H; vm_compute; reflexivity.
Qed.

Lemma first_directive_m (n : N) (bef aft : text) (gs : list (string * text)) :
  between 1 12 n = true ->
  hd_error (run U directive_m
              {| before := bef; after := two_digits n ++ aft; groups := gs |})
  = Some {| before := rev (two_digits n) ++ bef; after := aft;
            groups := ("m"%string, two_digits n) :: gs |}.
Proof.
  intros H. unfold directive_m. apply first_Group.
  destruct n as [|p]; [discriminate|].
  do 4 (try destruct p as [p|p|]); try discriminate H; vm_compute; reflexivity.
Qed.

Lemma four_digits_range (n : N) :
  n <= 9999 ->
  n / 1000 <= 9 /\ (n / 100) mod 10 <= 9 /\ (n / 10) mod 10 <= 9 /\ n mod 10 <= 9.
Proof.
  intros H. repeat split.
  - apply N.lt_succ_r. apply N.Div0.div_lt_upper_bound. lia.
  - pose proof (N.mod_upper_bound (n / 100) 10). lia.
  - pose proof (N.mod_upper_bound (n / 10) 10). lia.
  - pose proof (N.mod_upper_bound n 10). lia.
Qed.

Lemma first_directive_Y (n : N) (bef aft : text) (gs : list (string * text)) :
  n <= 9999 ->
  hd_error (run U directive_Y
              {| before := bef; after := four_digits n ++ aft; groups := gs |})
  = Some {| before := rev (four_digits n) ++ bef; after := aft;
            groups := ("Y"%string, four_digits n) :: gs |}.
Proof.
  intros H. destruct (four_digits_range n H) as [A [B [C D]]].
  unfold directive_Y. apply first_Group. unfold four_digits.
  cbn [app rev].
  eapply first_Seq; [apply first_Cls, isdecimal_digit, A|].
  eapply first_Seq; [apply first_Cls, isdecimal_digit, B|].
  eapply first_Seq; [apply first_Cls, isdecimal_digit, C|].
  apply first_Cls, isdecimal_digit, D.
Qed.


Lemma two_digits_range (n : N) : n <= 99 -> n / 10 <= 9 /\ n mod 10 <= 9.
Proof.
  intros H. split.
  - apply N.lt_succ_r. apply N.Div0.div_lt_upper_bound. lia.
  - pose proof (N.mod_upper_bound n 10). lia.
Qed.

Lemma int_two_digits (n : N) : n <= 99 -> int U (two_digits n) = Ok n.
Proof.
  intros H. destruct (two_digits_range n H) as [A B].
  unfold int, two_digits. cbn [lstrip]. rewrite (isspace_digit _ A).
  cbn [digits_value]. rewrite (decimal_digit _ A), (decimal_digit _ B).
  f_equal. rewrite (N.div_mod n 10) at 3 by lia. lia.
Qed.

Lemma int_four_digits (n : N) : n <= 9999 -> int U (four_digits n) = Ok n.
Proof.
  intros H. destruct (four_digits_range n H) as [A [B [C D]]].
  unfold int, four_digits. cbn [lstrip]. rewrite (isspace_digit _ A).
  cbn [digits_value].
  rewrite (decimal_digit _ A), (decimal_digit _ B), (decimal_digit _ C), (decimal_digit _ D).
  f_equal.
  pose proof (N.div_mod n 10). pose proof (N.div_mod (n / 10) 10).
  pose proof (N.div_mod (n / 100) 10).
  assert (E1 : n / 10 / 10 = n / 100) by (rewrite N.Div0.div_div; reflexivity).
  assert (E2 : n / 100 / 10 = n / 1000) by (rewrite N.Div0.div_div; reflexivity).
  rewrite E1 in *. rewrite E2 in *. lia.
Qed.

Lemma valid_date_ranges (d : calendar_date) :
  valid_date d = true ->
  year d <= 9999 /\ between 1 12 (month d) = true /\ between 1 31 (day d) = true.
Proof.
  unfold valid_date. intros H.
  apply andb_prop in H. destruct H as [H D].
  apply andb_prop in H. destruct H as [Y M].
  split; [unfold between in Y; apply andb_prop in Y; destruct Y as [_ Y];
          apply N.leb_le; exact Y|].
  split; [exact M|].
  unfold between in *. apply andb_prop in D. destruct D as [D1 D2].
  rewrite D1. cbn [andb]. apply N.leb_le. apply N.leb_le in D2.
  assert (days_in_month (year d) (month d) <= 31); [|lia].
  unfold days_in_month.
  destruct (month d) as [|p]; [lia|].
  do 4 (try destruct p as [p|p|]); try lia; destruct (is_leap (year d)); lia.
Qed.

Lemma strptime_written (d : calendar_date) :
  valid_date d = true -> strptime U (written_dmY d) (txt "%d/%m/%Y") = Ok d.
Proof.
  intros V. destruct (valid_date_ranges d V) as [Y [M D]].
  unfold strptime.
  change (format_regex (txt "%d/%m/%Y"))
    with (Some (Seq directive_d (Seq (Cls (CLit (code "/")))
               (Seq directive_m (Seq (Cls (CLit (code "/")))
               (Seq directive_Y Eps)))))).
  assert (R : re_match U (Seq directive_d (Seq (Cls (CLit (code "/")))
               (Seq directive_m (Seq (Cls (CLit (code "/")))
               (Seq directive_Y Eps))))) (written_dmY d)
            = Some {| before := rev (written_dmY d); after := [];
                      groups := [("Y"%string, four_digits (year d));
                                 ("m"%string, two_digits (month d));
                                 ("d"%string, two_digits (day d))] |}).
  { unfold re_match, match_here, written_dmY.
    eapply first_Seq; [apply first_directive_d, D|].
    cbn [app].
    eapply first_Seq; [apply first_Cls; reflexivity|].
    eapply first_Seq; [apply first_directive_m, M|].
    cbn [app].
    eapply first_Seq; [apply first_Cls; reflexivity|].
    rewrite <- (app_nil_r (four_digits (year d))).
    eapply first_Seq; [apply first_directive_Y, Y|].
    unfold two_digits, four_digits. reflexivity. }
  lazy beta iota. rewrite R. cbn [after nonempty groups].
  unfold year_of, int_group. cbn [group String.eqb Ascii.eqb Bool.eqb].
  unfold between in M, D.
  apply andb_prop in M. destruct M as [_ M]. apply N.leb_le in M.
  apply andb_prop in D. destruct D as [_ D]. apply N.leb_le in D.
  rewrite (int_four_digits _ Y), (int_two_digits (month d)), (int_two_digits (day d)) by lia.
  cbn [bind]. unfold make_date.
  destruct d as [y m dd]. cbn [year month day] in *. rewrite V. reflexivity.
Qed.


Lemma date_pattern_written (d : calendar_date) :
  valid_date d = true ->
  match_here U date_pattern [] (written_dmY d)
  = Some {| before := rev (written_dmY d) ++ []; after := []; groups := [] |}.
Proof.
  intros V. destruct (valid_date_ranges d V) as [Y [M D]].
  unfold between in M, D.
  apply andb_prop in M. destruct M as [_ M]. apply N.leb_le in M.
  apply andb_prop in D. destruct D as [_ D]. apply N.leb_le in D.
  destruct (two_digits_range (day d)) as [D1 D2]; [lia|].
  destruct (two_digits_range (month d)) as [M1 M2]; [lia|].
  destruct (four_digits_range (year d) Y) as [Y1 [Y2 [Y3 Y4]]].
  unfold match_here, date_pattern, written_dmY, two_digits, four_digits, Rep.
  cbn [app Exactly Upto Nat.sub].
  eapply first_Seq;
    [apply first_WordB; cbn [before after word_at];
     rewrite (isword_digit _ D1); reflexivity|].
  eapply first_Seq.
  { eapply first_Seq; [apply first_Cls, isdecimal_digit, D1|].
    apply first_Opt.
    eapply first_Seq; [apply first_Cls, isdecimal_digit, D2|]. reflexivity. }
  eapply first_Seq; [apply first_Cls; reflexivity|].
  eapply first_Seq.
  { eapply first_Seq; [apply first_Cls, isdecimal_digit, M1|].
    apply first_Opt.
    eapply first_Seq; [apply first_Cls, isdecimal_digit, M2|]. reflexivity. }
  eapply first_Seq; [apply first_Cls; reflexivity|].
  eapply first_Seq.
  { eapply first_Seq; [apply first_Cls, isdecimal_digit, Y1|].
    eapply first_Seq; [apply first_Cls, isdecimal_digit, Y2|].
    apply first_Opt.
    eapply first_Seq; [apply first_Cls, isdecimal_digit, Y3|].
    apply first_Opt.
    eapply first_Seq; [apply first_Cls, isdecimal_digit, Y4|]. reflexivity. }
  apply first_WordB. cbn [before after rev app word_at].
  rewrite (isword_digit _ Y4). reflexivity.
Qed.

Lemma findall0_written (d : calendar_date) :
  valid_date d = true ->
  exists rest, findall0 U date_pattern (written_dmY d) = written_dmY d :: rest.
Proof.
  intros V. pose proof (date_pattern_written d V) as E.
  set (z := {| before := rev (written_dmY d) ++ []; after := []; groups := [] |}) in E.
  assert (W : whole (found_of [] z) = written_dmY d).
  { unfold found_of. cbn [whole]. apply consumed_before. reflexivity. }
  unfold findall0, finditer. rewrite (scan_hit U date_pattern [] _ z E).
  - cbn [map]. rewrite W. eexists. reflexivity.
  - rewrite W. discriminate.
Qed.

End RoundTrip.

(** X15.  A date of the calendar written DD/MM/YYYY is read back:
    [extract_date] returns that date, for every year from 1 to 9999. *)
Theorem extract_date_round_trip (U : UnicodeDB) (d : calendar_date) :
  valid_date d = true -> extract_date U (written_dmY d) = Ok (Some d).
Proof.
  intros V. unfold extract_date.
  destruct (findall0_written U d V) as [rest ->].
  cbn [try_candidates]. unfold date_formats.
  rewrite try_formats_cons, (strptime_written U d V). reflexivity.
Qed.

(** X15 on the leap day of 2024. *)
Lemma extract_date_round_trip_witness :
  extract_date ascii_only (written_dmY {| year := 2024; month := 2; day := 29 |})
  = Ok (Some {| year := 2024; month := 2; day := 29 |}).
Proof. apply extract_date_round_trip. reflexivity. Defined.

(* ================================================================== *)
(** * The addresses [validate_email] accepts *)
(* ================================================================== *)

Section Completeness.
Context (U : UnicodeDB).

Lemma iterate_self (step : cursor -> list cursor) (fuel : nat) (z : cursor) :
  In z (iterate step fuel z).
Proof.
  destruct fuel; simpl; [left; reflexivity|].
  apply in_or_app. right. left. reflexivity.
Qed.

Lemma iterate_complete (step : cursor -> list cursor) (P : text -> Prop) :
  (forall w bef aft gs, P w ->
     In {| before := rev w ++ bef; after := aft; groups := gs |}
        (step {| before := bef; after := w ++ aft; groups := gs |})) ->
  forall ws, Forall P ws ->
  forall fuel bef aft gs, (length (concat ws ++ aft) <= fuel)%nat ->
    In {| before := rev (concat ws) ++ bef; after := aft; groups := gs |}
       (iterate step fuel {| before := bef; after := concat ws ++ aft; groups := gs |}).
Proof.
  intros Hstep ws F. induction F as [|w ws Hw F IH]; intros fuel bef aft gs L.
  - apply iterate_self.
  - destruct w as [|c w]; [apply IH; exact L|].
    destruct fuel as [|f]; [simpl in L; lia|].
    cbn [iterate]. apply in_or_app. left. apply in_flat_map.
    exists {| before := rev (c :: w) ++ bef; after := concat ws ++ aft; groups := gs |}.
    split.
    + apply filter_In. split.
      * cbn [concat]. rewrite <- app_assoc. apply Hstep. exact Hw.
      * unfold progress. cbn [after]. apply Nat.ltb_lt.
        cbn [concat]. rewrite !length_app. simpl. lia.
    + cbn [concat]. rewrite rev_app_distr, <- app_assoc.
      apply IH. cbn [concat] in L. rewrite !length_app in *. simpl in L. lia.
Qed.

(** Every word of a plain pattern's language is one of the ways the
    matcher finds. *)
Lemma run_complete (r : regex) :
  plain r = true ->
  forall w bef aft gs, lang U r w ->
    In {| before := rev w ++ bef; after := aft; groups := gs |}
       (run U r {| before := bef; after := w ++ aft; groups := gs |}).
Proof.
  induction r as [|k| |r1 IH1 r2 IH2|r1 IH1 r2 IH2|r1 IH1|r1 IH1|name r1 IH1];
    intros Pl w bef aft gs L; simpl in Pl; try discriminate.
  - simpl in L. subst w. left. reflexivity.
  - destruct L as [c [-> C]]. cbn [run after app]. rewrite C. left. reflexivity.
  - apply andb_prop in Pl. destruct Pl as [P1 P2].
    destruct L as [w1 [w2 [-> [L1 L2]]]].
    cbn [run]. apply in_flat_map.
    exists {| before := rev w1 ++ bef; after := w2 ++ aft; groups := gs |}. split.
    + rewrite <- app_assoc. apply IH1; assumption.
    + rewrite rev_app_distr, <- app_assoc. apply IH2; assumption.
  - apply andb_prop in Pl. destruct Pl as [P1 P2].
    cbn [run]. apply in_or_app. destruct L as [L | L]; [left; apply IH1 | right; apply IH2];
      assumption.
  - cbn [run]. apply in_or_app. destruct L as [-> | L].
    + right. left. reflexivity.
    + left. apply IH1; assumption.
  - destruct L as [ws [-> F]]. cbn [run after].
    apply (iterate_complete (run U r1) (lang U r1)); [|exact F|lia].
    intros w bef' aft' gs' Hw. apply IH1; assumption.
Qed.

End Completeness.

Section EmailFacts.
Context (U : UnicodeDB).

Lemma lang_letter (x : text) :
  lang U Utils.letter_class x <-> exists c, x = [c] /\ letter c = true.
Proof.
  unfold Utils.letter_class, letter. cbn [lang in_class]. split.
  - intros [[c [-> H]] | [c [-> H]]]; exists c; rewrite H;
      (split; [reflexivity|]); [reflexivity | apply orb_true_r].
  - intros [c [-> H]]. apply orb_prop in H. destruct H as [H | H]; [left | right];
      exists c; (split; [reflexivity | exact H]).
Qed.

Lemma lang_local (x : text) :
  lang U Utils.local_class x <-> exists c, x = [c] /\ local_char c = true.
Proof.
  unfold Utils.local_class, local_char.
  change (lang U (Alt ?a ?b) x) with (lang U a x \/ lang U b x).
  rewrite lang_letter. cbn [lang in_class]. split.
  - intros [[c [-> H]] | [[c [-> H]] | [c [-> H]]]]; exists c; rewrite H;
      (split; [reflexivity|]); rewrite ?orb_true_r; reflexivity.
  - intros [c [-> H]]. apply orb_prop in H. destruct H as [H | H];
      [apply orb_prop in H; destruct H as [H | H]|].
    + left. exists c. split; [reflexivity | exact H].
    + right. left. exists c. split; [reflexivity | exact H].
    + right. right. exists c. split; [reflexivity | exact H].
Qed.

Lemma lang_domain (x : text) :
  lang U Utils.domain_class x <-> exists c, x = [c] /\ domain_char c = true.
Proof.
  unfold Utils.domain_class, domain_char.
  change (lang U (Alt ?a ?b) x) with (lang U a x \/ lang U b x).
  rewrite lang_letter. cbn [lang in_class]. split.
  - intros [[c [-> H]] | [[c [-> H]] | [c [-> H]]]]; exists c; rewrite H;
      (split; [reflexivity|]); rewrite ?orb_true_r; reflexivity.
  - intros [c [-> H]]. apply orb_prop in H. destruct H as [H | H];
      [apply orb_prop in H; destruct H as [H | H]|].
    + left. exists c. split; [reflexivity | exact H].
    + right. left. exists c. split; [reflexivity | exact H].
    + right. right. exists c. split; [reflexivity | exact H].
Qed.

Lemma lang_Star_chars (r : regex) (p : char -> bool) :
  (forall x, lang U r x <-> exists c, x = [c] /\ p c = true) ->
  forall w, lang U (Star r) w <-> forallb p w = true.
Proof.
  intros H w. cbn [lang]. split.
  - intros [ws [-> F]]. induction F as [|x ws Hx F IH]; [reflexivity|].
    apply H in Hx. destruct Hx as [c [-> Hc]]. simpl. rewrite Hc. exact IH.
  - intros F. exists (map (fun c => [c]) w). split.
    + clear F. induction w as [|c w IH]; simpl; [reflexivity|]. f_equal. exact IH.
    + induction w as [|c w IH]; simpl; [constructor|].
      simpl in F. apply andb_prop in F. destruct F as [Hc F].
      constructor; [|apply IH; exact F].
      apply H. exists c. split; [reflexivity | exact Hc].
Qed.

Lemma lang_Plus_chars (r : regex) (p : char -> bool) :
  (forall x, lang U r x <-> exists c, x = [c] /\ p c = true) ->
  forall w, lang U (Utils.Plus r) w <-> w <> [] /\ forallb p w = true.
Proof.
  intros H w. unfold Utils.Plus.
  change (lang U (Seq r (Star r)) w)
    with (exists w1 w2, w = w1 ++ w2 /\ lang U r w1 /\ lang U (Star r) w2).
  split.
  - intros [w1 [w2 [-> [L1 L2]]]]. apply H in L1. destruct L1 as [c [-> Hc]].
    apply (lang_Star_chars r p H) in L2. split; [discriminate|].
    simpl. rewrite Hc. exact L2.
  - intros [N F]. destruct w as [|c w]; [congruence|].
    simpl in F. apply andb_prop in F. destruct F as [Hc F].
    exists [c], w. split; [reflexivity|]. split.
    + apply H. exists c. split; [reflexivity | exact Hc].
    + apply (lang_Star_chars r p H). exact F.
Qed.

Lemma lang_email (w : text) :
  lang U Utils.email_pattern w <->
  exists loc dom tld,
    w = loc ++ code "@" :: dom ++ code "." :: tld /\
    loc <> [] /\ forallb local_char loc = true /\
    dom <> [] /\ forallb domain_char dom = true /\
    (2 <= length tld)%nat /\ forallb letter tld = true.
Proof.
  unfold Utils.email_pattern. split.
  - intros [loc [w1 [-> [Lloc H]]]].
    destruct H as [x1 [w2 [-> [[c [-> Hc]] H]]]].
    destruct H as [dom [w3 [-> [Ldom H]]]].
    destruct H as [x2 [w4 [-> [[c' [-> Hc']] H]]]].
    destruct H as [l1 [w5 [-> [L1 H]]]].
    destruct H as [l2 [w6 [-> [L2 L3]]]].
    apply (lang_Plus_chars _ _ lang_local) in Lloc. destruct Lloc as [N1 F1].
    apply (lang_Plus_chars _ _ lang_domain) in Ldom. destruct Ldom as [N2 F2].
    apply lang_letter in L1. destruct L1 as [a [-> Ha]].
    apply lang_letter in L2. destruct L2 as [b [-> Hb]].
    apply (lang_Star_chars _ _ lang_letter) in L3.
    cbn [in_class] in Hc, Hc'. apply N.eqb_eq in Hc, Hc'. subst c c'.
    exists loc, dom, (a :: b :: w6).
    split; [reflexivity|]. split; [assumption|]. split; [assumption|].
    split; [assumption|]. split; [assumption|].
    split; [simpl; lia|]. simpl. rewrite Ha, Hb. exact L3.
  - intros [loc [dom [tld [-> [N1 [F1 [N2 [F2 [Len F3]]]]]]]]].
    destruct tld as [|a [|b tld]]; simpl in Len; try lia.
    simpl in F3. apply andb_prop in F3. destruct F3 as [Ha F3].
    apply andb_prop in F3. destruct F3 as [Hb F3].
    exists loc, (code "@" :: dom ++ code "." :: a :: b :: tld).
    split; [reflexivity|].
    split; [apply (lang_Plus_chars _ _ lang_local); split; assumption|].
    exists [code "@"], (dom ++ code "." :: a :: b :: tld).
    split; [reflexivity|].
    split; [exists (code "@"); split; reflexivity|].
    exists dom, (code "." :: a :: b :: tld).
    split; [reflexivity|].
    split; [apply (lang_Plus_chars _ _ lang_domain); split; assumption|].
    exists [code "."], (a :: b :: tld).
    split; [reflexivity|].
    split; [exists (code "."); split; reflexivity|].
    exists [a], (b :: tld). split; [reflexivity|].
    split; [apply lang_letter; exists a; split; [reflexivity | exact Ha]|].
    exists [b], tld. split; [reflexivity|].
    split; [apply lang_letter; exists b; split; [reflexivity | exact Hb]|].
    apply (lang_Star_chars _ _ lang_letter). exact F3.
Qed.

End EmailFacts.

(** X16.  [validate_email] accepts exactly the addresses
    local@domain.tld where the local part is a non-empty run of letters,
    digits and [._%+-], the domain a non-empty run of letters, digits and
    [.-], and the last label two letters or more; one line feed after the
    address is accepted too. *)
Theorem validate_email_shape (U : UnicodeDB) (email : text) :
  Utils.validate_email U email = true <-> email_shape email.
Proof.
  unfold Utils.validate_email, email_shape. split.
  - intros H. apply existsb_exists in H. destruct H as [z [Hin E]].
    destruct (run_sound U _ _ _ Hin) as [w [L [_ A]]]. cbn [after] in A.
    apply lang_email in L.
    destruct L as [loc [dom [tld [-> [N1 [F1 [N2 [F2 [Len F3]]]]]]]]].
    exists loc, dom, tld, (after z).
    split; [rewrite A, <- !app_assoc; cbn [app]; rewrite <- !app_assoc; reflexivity|].
    repeat (split; [assumption|]).
    unfold Utils.at_end in E. destruct (after z) as [|c [|c' t]];
      [left; reflexivity | right | discriminate].
    apply N.eqb_eq in E. subst c. reflexivity.
  - intros [loc [dom [tld [tail [-> [N1 [F1 [N2 [F2 [Len [F3 T]]]]]]]]]]].
    apply existsb_exists.
    set (w := loc ++ code "@" :: dom ++ code "." :: tld).
    exists {| before := rev w ++ []; after := tail; groups := [] |}. split.
    + replace (loc ++ code "@" :: dom ++ code "." :: tld ++ tail) with (w ++ tail).
      * apply run_complete; [reflexivity|].
        apply lang_email. exists loc, dom, tld. repeat (split; [assumption|]).
        split; [reflexivity|]. repeat (split; [assumption|]). assumption.
      * unfold w. rewrite <- !app_assoc. cbn [app]. rewrite <- !app_assoc. reflexivity.
    + unfold Utils.at_end. cbn [after]. destruct T as [-> | ->]; reflexivity.
Qed.

(* ================================================================== *)
(** * An amount at the end of the text *)
(* ================================================================== *)

Section Greedy.
Context (U : UnicodeDB).

Lemma first_Opt_skip (r : regex) (z : cursor) :
  run U r z = [] -> hd_error (run U (Opt r) z) = Some z.
Proof. intros H. cbn [run]. rewrite H. reflexivity. Qed.

Lemma run_Cls_stuck (k : cclass) (r : regex) (bef aft : text)
    (gs : list (string * text)) :
  match aft with [] => True | c :: _ => in_class U k c = false end ->
  run U (Seq (Cls k) r) {| before := bef; after := aft; groups := gs |} = [].
Proof.
  intros H. cbn [run after]. destruct aft as [|c aft]; [reflexivity|].
  rewrite H. reflexivity.
Qed.

Lemma first_Upto (n : nat) :
  forall ds bef rest gs,
    (length ds <= n)%nat -> forallb (isdecimal U) ds = true ->
    ((length ds < n)%nat -> stops U rest) ->
    hd_error (run U (Upto n (Cls CDigit))
                {| before := bef; after := ds ++ rest; groups := gs |})
    = Some {| before := rev ds ++ bef; after := rest; groups := gs |}.
Proof.
  induction n as [|n IH]; intros ds bef rest gs L D S.
  - destruct ds; [reflexivity | simpl in L; lia].
  - cbn [Upto]. destruct ds as [|d ds].
    + cbn [app rev]. apply first_Opt_skip. apply run_Cls_stuck.
      specialize (S ltac:(simpl; lia)). exact S.
    + simpl in D. apply andb_prop in D. destruct D as [Dd D].
      apply first_Opt. eapply first_Seq.
      * cbn [app]. apply first_Cls. exact Dd.
      * cbn [rev]. rewrite <- app_assoc. cbn [app]. apply IH.
        -- simpl in L. lia.
        -- exact D.
        -- intros Hl. apply S. simpl. lia.
Qed.

Lemma first_Rep (lo m : nat) :
  forall ds bef rest gs,
    (lo <= length ds <= lo + m)%nat -> forallb (isdecimal U) ds = true ->
    ((length ds < lo + m)%nat -> stops U rest) ->
    hd_error (run U (Exactly lo (Cls CDigit) (Upto m (Cls CDigit)))
                {| before := bef; after := ds ++ rest; groups := gs |})
    = Some {| before := rev ds ++ bef; after := rest; groups := gs |}.
Proof.
  induction lo as [|lo IH]; intros ds bef rest gs L D S.
  - cbn [Exactly]. apply first_Upto; [lia | exact D | exact S].
  - cbn [Exactly]. destruct ds as [|d ds]; [simpl in L; lia|].
    simpl in D. apply andb_prop in D. destruct D as [Dd D].
    eapply first_Seq.
    + cbn [app]. apply first_Cls. exact Dd.
    + cbn [rev]. rewrite <- app_assoc. cbn [app]. apply IH.
      * simpl in L. lia.
      * exact D.
      * intros Hl. apply S. simpl. lia.
Qed.

Lemma hd_app_some (A : Type) (l l' : list A) (a : A) :
  hd_error l = Some a -> hd_error (l ++ l') = Some a.
Proof. destruct l; [discriminate|]. intros H. exact H. Qed.

(** The groups after the commas: the starred pattern takes them all. *)
Lemma first_groups (gl : list text) :
  Forall (fun g => forallb (isdecimal U) g = true /\ length g = 3%nat) gl ->
  forall fuel bef rest gs,
    match rest with [] => True | c :: _ => char_eqb c (code ",") = false end ->
    (length (concat (map (cons (code ",")) gl) ++ rest) <= fuel)%nat ->
    hd_error (iterate (run U (Seq (Chr ",") (Rep 3 3 (Cls CDigit)))) fuel
                {| before := bef; after := concat (map (cons (code ",")) gl) ++ rest;
                   groups := gs |})
    = Some {| before := rev (concat (map (cons (code ",")) gl)) ++ bef;
              after := rest; groups := gs |}.
Proof.
  intros F. induction F as [|g gl [Dg Lg] F IH]; intros fuel bef rest gs R L.
  - cbn [map concat app rev]. destruct fuel as [|f]; [reflexivity|].
    cbn [iterate]. unfold Chr. rewrite run_Cls_stuck; [reflexivity|].
    destruct rest; [exact I | exact R].
  - destruct fuel as [|f]; [simpl in L; lia|].
    cbn [iterate]. apply hd_app_some.
    cbn [map concat]. rewrite <- app_assoc.
    set (tail := concat (map (cons (code ",")) gl) ++ rest) in *.
    eapply hd_flat_map.
    + assert (E : hd_error (run U (Seq (Chr ",") (Rep 3 3 (Cls CDigit)))
                    {| before := bef; after := (code "," :: g) ++ tail; groups := gs |})
                  = Some {| before := rev g ++ code "," :: bef; after := tail;
                            groups := gs |}).
      { eapply first_Seq; [apply first_Cls; reflexivity|].
        unfold Rep. apply first_Rep; [clear - Lg; lia | exact Dg | clear - Lg; lia]. }
      destruct (run U (Seq (Chr ",") (Rep 3 3 (Cls CDigit))) _) as [|z1 l];
        [discriminate|].
      injection E as ->. cbn [filter]. unfold progress at 1. cbn [after].
      replace (Nat.ltb (length tail) (length ((code "," :: g) ++ tail))) with true.
      * reflexivity.
      * symmetry. apply Nat.ltb_lt. rewrite length_app. simpl. lia.
    + replace (rev ((code "," :: g) ++ concat (map (cons (code ",")) gl)) ++ bef)
        with (rev (concat (map (cons (code ",")) gl)) ++ rev g ++ code "," :: bef).
      * apply IH; [exact R|].
        unfold tail in *. cbn [map concat] in L. rewrite !length_app in L.
        rewrite length_app. cbn [length app] in L. lia.
      * rewrite rev_app_distr. cbn [rev]. rewrite <- !app_assoc. reflexivity.
Qed.

End Greedy.

Section TrailingAmount.
Context (U : UnicodeDB).

Lemma ascii_digit_decimal (c : char) : between 48 57 c = true -> isdecimal U c = true.
Proof.
  intros H. rewrite isdecimal_ascii; [exact H|].
  unfold between in H. apply andb_prop in H. destruct H as [_ H].
  apply N.leb_le in H. unfold is_ascii. apply N.ltb_lt. lia.
Qed.

Lemma ascii_digits_decimal (s : text) :
  ascii_digits s = true -> forallb (isdecimal U) s = true.
Proof.
  unfold ascii_digits. induction s as [|c s IH]; simpl; [reflexivity|].
  intros H. apply andb_prop in H. destruct H as [Hc Hs].
  rewrite (ascii_digit_decimal c Hc). auto.
Qed.

Lemma ascii_digits_lacks (k : char) (s : text) :
  between 48 57 k = false -> ascii_digits s = true -> lacks k s = true.
Proof.
  unfold ascii_digits, lacks. intros K. induction s as [|c s IH]; simpl; [reflexivity|].
  intros H. apply andb_prop in H. destruct H as [Hc Hs]. rewrite (IH Hs), andb_true_r.
  unfold char_eqb. destruct (N.eqb_spec c k) as [->|]; [congruence | reflexivity].
Qed.

Lemma well_grouped_parts (ip : text) (gl : list text) (fp : option text) :
  well_grouped ip gl fp = true ->
  ascii_digits ip = true /\ (1 <= length ip <= 3)%nat /\
  Forall (fun g => ascii_digits g = true /\ length g = 3%nat) gl /\
  match fp with
  | Some f => ascii_digits f = true /\ (1 <= length f <= 2)%nat
  | None => True
  end.
Proof.
  unfold well_grouped. intros H.
  apply andb_prop in H. destruct H as [H Hf].
  apply andb_prop in H. destruct H as [H Hg].
  apply andb_prop in H. destruct H as [H H3].
  apply andb_prop in H. destruct H as [Hd H1].
  apply Nat.leb_le in H1, H3.
  split; [assumption|]. split; [lia|]. split.
  - apply Forall_forall. intros g Hin. rewrite forallb_forall in Hg.
    specialize (Hg g Hin). apply andb_prop in Hg. destruct Hg as [A B].
    apply Nat.eqb_eq in B. auto.
  - destruct fp as [f|]; [|exact I].
    apply andb_prop in Hf. destruct Hf as [Hf F2].
    apply andb_prop in Hf. destruct Hf as [Hf F1].
    apply Nat.leb_le in F1, F2. split; [assumption | lia].
Qed.

(** On a written amount that ends the text, the first way through the
    number pattern takes all of it. *)
Lemma first_number (ip : text) (gl : list text) (fp : option text)
    (bef : text) (gs : list (string * text)) :
  well_grouped ip gl fp = true ->
  exists z,
    hd_error (run U number_pattern
                {| before := bef; after := grouped ip gl fp; groups := gs |}) = Some z /\
    before z = rev (grouped ip gl fp) ++ bef /\ after z = [] /\ groups z = gs.
Proof.
  intros W. destruct (well_grouped_parts ip gl fp W) as [Di [Li [Fg Ff]]].
  assert (Fg' : Forall (fun g => forallb (isdecimal U) g = true /\ length g = 3%nat) gl).
  { revert Fg. apply Forall_impl. intros g [A B].
    split; [apply ascii_digits_decimal; exact A | exact B]. }
  assert (S1 : stops U (concat (map (cons (code ",")) gl) ++ fraction fp)).
  { destruct gl as [|g gl]; [destruct fp as [f|]|]; cbn; reflexivity || exact I. }
  assert (S2 : match fraction fp with
               | [] => True
               | c :: _ => char_eqb c (code ",") = false
               end).
  { destruct fp as [f|]; [reflexivity | exact I]. }
  destruct fp as [f|].
  - destruct Ff as [Df Lf]. eexists. split.
    + unfold number_pattern, grouped.
      eapply first_Seq.
      { unfold Rep. apply first_Rep;
          [simpl; lia | apply ascii_digits_decimal; exact Di | intros _; exact S1]. }
      eapply first_Seq.
      { cbn [run after]. apply first_groups; [exact Fg' | exact S2 | lia]. }
      apply first_Opt. cbn [fraction].
      eapply first_Seq; [apply first_Cls; reflexivity|].
      match goal with
      | |- hd_error (run U _ {| before := ?b; after := _; groups := ?g |}) = _ =>
          pose proof (first_Rep U 1 1 f b [] g) as R
      end.
      rewrite app_nil_r in R. unfold Rep. apply R;
        [simpl; lia | apply ascii_digits_decimal; exact Df | intros _; exact I].
    + cbn [before after groups]. split; [|split; reflexivity].
      unfold grouped. cbn [fraction].
      rewrite !rev_app_distr. cbn [rev]. rewrite <- !app_assoc. reflexivity.
  - eexists. split.
    + unfold number_pattern, grouped.
      eapply first_Seq.
      { unfold Rep. apply first_Rep;
          [simpl; lia | apply ascii_digits_decimal; exact Di | intros _; exact S1]. }
      eapply first_Seq.
      { cbn [run after]. apply first_groups; [exact Fg' | exact S2 | lia]. }
      cbn [fraction]. apply first_Opt_skip. unfold Chr. apply run_Cls_stuck. exact I.
    + cbn [before after groups]. split; [|split; reflexivity].
      unfold grouped. cbn [fraction].
      rewrite app_nil_r, rev_app_distr, <- app_assoc. reflexivity.
Qed.

Lemma first_amount_group (ip : text) (gl : list text) (fp : option text)
    (bef : text) (gs : list (string * text)) :
  well_grouped ip gl fp = true ->
  exists z,
    hd_error (run U (Group "1" number_pattern)
                {| before := bef; after := grouped ip gl fp; groups := gs |}) = Some z /\
    after z = [] /\ group "1" (groups z) = Some (grouped ip gl fp).
Proof.
  intros W. destruct (first_number ip gl fp bef gs W) as [z [H [B [A G]]]].
  cbn [run]. destruct (run U number_pattern _) as [|z' l]; [discriminate|].
  injection H as ->. eexists. split; [reflexivity|].
  split; [exact A|]. unfold capture. cbn [groups group].
  rewrite (consumed_before _ z (grouped ip gl fp)); [reflexivity | exact B].
Qed.

Lemma hd_flat_map_inv (A B : Type) (f : A -> list B) (l : list A) (b : B) :
  hd_error (flat_map f l) = Some b -> exists a, In a l /\ hd_error (f a) = Some b.
Proof.
  induction l as [|a l IH]; simpl; [discriminate|].
  destruct (f a) as [|b' t] eqn:E.
  - intros H. destruct (IH H) as [a' [I H']]. exists a'. auto.
  - intros [= ->]. exists a. rewrite E. auto.
Qed.

Lemma split_at_number (p u w a : text) :
  p ++ w = u ++ a ->
  forallb (fun c => negb (isdecimal U c)) p = true ->
  forallb (fun c => negb (between 48 57 c)) u = true ->
  match w with [] => False | d :: _ => between 48 57 d = true end ->
  match a with [] => False | e :: _ => isdecimal U e = true end ->
  a = w.
Proof.
  revert u. induction p as [|c p IH]; intros [|x u] E P Q Hw Ha; simpl in *.
  - congruence.
  - subst w. apply andb_prop in Q. destruct Q as [Q _]. rewrite Hw in Q. discriminate.
  - subst a. apply andb_prop in P. destruct P as [P _]. rewrite Ha in P. discriminate.
  - injection E as -> E. apply andb_prop in P. destruct P as [_ P].
    apply andb_prop in Q. destruct Q as [_ Q]. apply (IH u); assumption.
Qed.

Lemma amount_prefix_alphabet :
  alphabet U (fun c => negb (between 48 57 c))
    (Seq (Opt (Alt (Lit rupee_literal)
              (Alt (Seq (Lit (txt "Rs")) (Opt (Chr ".")))
                   (Lit (txt "INR")))))
         (Opt (Cls CSpace))).
Proof.
  assert (L : forall k c, between 48 57 k = false -> in_class U (CLit k) c = true ->
                     negb (between 48 57 c) = true).
  { intros k c K H. cbn [in_class] in H. apply N.eqb_eq in H. subst c.
    rewrite K. reflexivity. }
  cbn [alphabet Lit rupee_literal txt Chr].
  repeat split; try (intros c; apply L; reflexivity); try exact I.
  intros c H. cbn [in_class] in H.
  destruct (between 48 57 c) eqn:B; [|reflexivity]. exfalso.
  unfold between in B. apply andb_prop in B. destruct B as [B1 B2].
  apply N.leb_le in B1, B2.
  unfold isspace, is_ascii, between, char_eqb in H.
  replace (c <? 128) with true in H by (symmetry; apply N.ltb_lt; lia).
  replace (c <=? 13) with false in H by (symmetry; apply N.leb_gt; lia).
  replace (c <=? 31) with false in H by (symmetry; apply N.leb_gt; lia).
  replace (c =? 32) with false in H by (symmetry; apply N.eqb_neq; lia).
  rewrite !andb_false_r in H. discriminate.
Qed.

Lemma grouped_head (ip : text) (gl : list text) (fp : option text) :
  well_grouped ip gl fp = true ->
  match grouped ip gl fp with [] => False | d :: _ => between 48 57 d = true end.
Proof.
  intros W. destruct (well_grouped_parts ip gl fp W) as [Di [Li _]].
  unfold grouped. destruct ip as [|d ip]; [simpl in Li; lia|].
  unfold ascii_digits in Di. simpl in Di. apply andb_prop in Di. tauto.
Qed.

(** A match that starts in the text before the amount ends with it, the
    whole amount in group 1. *)
Lemma amount_at (p ip : text) (gl : list text) (fp : option text)
    (bef : text) (z : cursor) :
  forallb (fun c => negb (isdecimal U c)) p = true ->
  well_grouped ip gl fp = true ->
  match_here U amount_pattern bef (p ++ grouped ip gl fp) = Some z ->
  after z = [] /\ group "1" (groups z) = Some (grouped ip gl fp).
Proof.
  intros P W H. unfold match_here, amount_pattern in H.
  rewrite run_Seq in H. apply hd_flat_map_inv in H. destruct H as [z1 [I1 H]].
  rewrite run_Seq in H. apply hd_flat_map_inv in H. destruct H as [z2 [I2 H]].
  destruct (run_sound U _ _ _ I1) as [u1 [L1 [_ A1]]].
  destruct (run_sound U _ _ _ I2) as [u2 [L2 [_ A2]]].
  cbn [after] in A1.
  assert (Q : forallb (fun c => negb (between 48 57 c)) (u1 ++ u2) = true).
  { apply (lang_alphabet U _ _ amount_prefix_alphabet).
    exists u1, u2. auto. }
  assert (Hin : In z (run U (Group "1" number_pattern) z2)).
  { destruct (run U (Group "1" number_pattern) z2); [discriminate|].
    injection H as ->. left. reflexivity. }
  destruct (run_sound U _ _ _ Hin) as [w' [L' [_ A']]].
  destruct (number_shape U w' L') as [c [ip' [rest [-> [Hc _]]]]].
  assert (E : after z2 = grouped ip gl fp).
  { apply (split_at_number p (u1 ++ u2)).
    - rewrite A1, A2, app_assoc. reflexivity.
    - exact P.
    - exact Q.
    - apply grouped_head. exact W.
    - rewrite A'. exact Hc. }
  destruct z2 as [b2 a2 g2]. cbn [after] in E. subst a2.
  destruct (first_amount_group ip gl fp b2 g2 W) as [z' [H' R]].
  rewrite H' in H. injection H as ->. exact R.
Qed.

Lemma amount_at_end (bef : text) : scan U amount_pattern 0 bef [] = [].
Proof.
  cbn [scan]. destruct (match_here U amount_pattern bef []) as [z|] eqn:E; [|reflexivity].
  exfalso. apply match_here_run in E.
  destruct (run_sound U _ _ _ E) as [w [L [_ A]]]. cbn [after] in A.
  symmetry in A. apply app_eq_nil in A. destruct A as [-> _].
  apply (amount_pattern_nonempty U [] L). reflexivity.
Qed.

Lemma scan_trailing (ip : text) (gl : list text) (fp : option text) :
  well_grouped ip gl fp = true ->
  forall p bef,
    forallb (fun c => negb (isdecimal U c)) p = true ->
    exists m,
      scan U amount_pattern 0 bef (p ++ grouped ip gl fp) = [m] /\
      group "1" (captures m) = Some (grouped ip gl fp).
Proof.
  intros W.
  assert (Hit : forall p bef z,
    forallb (fun c => negb (isdecimal U c)) p = true ->
    match_here U amount_pattern bef (p ++ grouped ip gl fp) = Some z ->
    exists m,
      scan U amount_pattern 0 bef (p ++ grouped ip gl fp) = [m] /\
      group "1" (captures m) = Some (grouped ip gl fp)).
  { intros p bef z P E. destruct (amount_at p ip gl fp bef z P W E) as [A G].
    exists (found_of bef z). split; [|exact G].
    rewrite (scan_hit U amount_pattern bef _ z E).
    - rewrite A, amount_at_end. reflexivity.
    - destruct (found_of_span U amount_pattern bef _ z E) as [_ [_ [_ L]]].
      apply (amount_pattern_nonempty U _ L). }
  induction p as [|c p IH]; intros bef P.
  - cbn [app].
    destruct (match_here U amount_pattern bef (grouped ip gl fp)) as [z|] eqn:E.
    + apply (Hit [] bef z P E).
    + exfalso. unfold match_here, amount_pattern in E.
      destruct (first_amount_group ip gl fp bef [] W) as [z [H _]].
      assert (I : In z (run U (Seq (Opt (Alt (Lit rupee_literal)
                    (Alt (Seq (Lit (txt "Rs")) (Opt (Chr "."))) (Lit (txt "INR")))))
                    (Seq (Opt (Cls CSpace)) (Group "1" number_pattern)))
                    {| before := bef; after := grouped ip gl fp; groups := [] |})).
      { rewrite run_Seq. apply in_flat_map. eexists. split.
        - cbn [run]. apply in_or_app. right. left. reflexivity.
        - rewrite run_Seq. apply in_flat_map. eexists. split.
          + cbn [run]. apply in_or_app. right. left. reflexivity.
          + destruct (run U (Group "1" number_pattern) _); [discriminate|].
            injection H as ->. left. reflexivity. }
      destruct (run U _ _); [contradiction | discriminate].
  - simpl in P. apply andb_prop in P. destruct P as [Pc P].
    destruct (match_here U amount_pattern bef ((c :: p) ++ grouped ip gl fp)) as [z|] eqn:E.
    + apply (Hit (c :: p) bef z); [simpl; rewrite Pc, P; reflexivity | exact E].
    + cbn [app] in *. rewrite (scan_miss U _ _ _ _ E). apply IH. exact P.
Qed.

Lemma remove_comma_groups (gl : list text) :
  Forall (fun g => ascii_digits g = true /\ length g = 3%nat) gl ->
  remove_char (code ",") (concat (map (cons (code ",")) gl)) = concat gl.
Proof.
  intros F. induction F as [|g gl [D _] F IH]; [reflexivity|].
  cbn [map concat]. rewrite remove_char_app, IH, remove_char_cons.
  replace (char_eqb (code ",") (code ",")) with true by reflexivity. cbn [negb].
  rewrite (remove_char_lacks _ g); [reflexivity|].
  apply ascii_digits_lacks; [reflexivity | exact D].
Qed.

End TrailingAmount.

(** X17.  When the only digits of a text are an amount written at its
    end (one to three digits, groups of three after commas, at most two
    decimals), [extract_amount] returns that amount: what [float] reads
    in the amount without its commas. *)
Theorem extract_amount_trailing_number (U : UnicodeDB)
    (prefix ip : text) (gl : list text) (fp : option text) :
  forallb (fun c => negb (isdecimal U c)) prefix = true ->
  well_grouped ip gl fp = true ->
  extract_amount U (prefix ++ grouped ip gl fp)
  = float U (ip ++ concat gl ++ fraction fp).
Proof.
  intros P W. unfold extract_amount, findall1, finditer.
  destruct (scan_trailing U ip gl fp W prefix [] P) as [m [-> G]].
  cbn [map last]. rewrite G. f_equal.
  destruct (well_grouped_parts ip gl fp W) as [Di [_ [Fg Ff]]].
  unfold grouped. rewrite !remove_char_app, (remove_comma_groups gl Fg).
  rewrite (remove_char_lacks _ ip) by (apply ascii_digits_lacks; [reflexivity | exact Di]).
  f_equal. f_equal. destruct fp as [f|]; [|reflexivity].
  cbn [fraction]. rewrite remove_char_cons.
  replace (char_eqb (code ".") (code ",")) with false by reflexivity. cbn [negb].
  rewrite (remove_char_lacks _ f); [reflexivity|].
  apply ascii_digits_lacks; [reflexivity | tauto].
Qed.

(** X17 on a total in rupees. *)
Lemma extract_amount_trailing_number_witness :
  extract_amount ascii_only
    (txt "Total: Rs. " ++ grouped (txt "1") [txt "234"] (Some (txt "56")))
  = float ascii_only (txt "1" ++ concat [txt "234"] ++ fraction (Some (txt "56"))).
Proof.
  apply extract_amount_trailing_number; reflexivity.
Defined.

(* ================================================================== *)
(** * The tokens of a text and the matches of a scan *)
(* ================================================================== *)
Section ScanMeets.
Context (U : UnicodeDB) (r : regex).
Hypothesis nonempty_words : forall w, lang U r w -> w <> [].

Lemma match_here_moves (bef aft : text) (z : cursor) :
  match_here U r bef aft = Some z ->
  exists w, w <> [] /\ lang U r w /\ before z = rev w ++ bef /\ aft = w ++ after z /\
            found_of bef z
            = {| start := length bef; stop := (length bef + length w)%nat;
                 whole := w; captures := groups z |}.
Proof.
  intros E. apply match_here_run in E.
  destruct (run_sound U r _ _ E) as [w [L [B A]]]. cbn [before after] in B, A.
  exists w. split; [apply nonempty_words; exact L|]. split; [exact L|].
  split; [exact B|]. split; [exact A|].
  unfold found_of. f_equal.
  - rewrite B, length_app, length_rev. lia.
  - apply consumed_before. exact B.
Qed.

(** No position where the pattern matches is passed over: it lies inside a
    match the scan reports, unless the scan was told to skip it. *)
Lemma scan_covers :
  forall aft skip bef pre rest,
    aft = pre ++ rest -> (skip <= length pre)%nat ->
    match_here U r (rev pre ++ bef) rest <> None ->
    exists m, In m (scan U r skip bef aft) /\
              (start m <= length bef + length pre < stop m)%nat.
Proof.
  induction aft as [|c aft IH]; intros skip bef pre rest E S H.
  - symmetry in E. apply app_eq_nil in E. destruct E as [-> ->].
    simpl in S. assert (skip = 0%nat) by lia. subst skip.
    cbn [rev app] in H. cbn [scan].
    destruct (match_here U r bef []) as [z|] eqn:M; [|congruence].
    destruct (match_here_moves _ _ _ M) as [w [N [_ [_ [_ F]]]]].
    exists (found_of bef z). split; [left; reflexivity|].
    rewrite F. cbn [start stop length]. destruct w; [congruence | simpl; lia].
  - destruct skip as [|k].
    + cbn [scan]. destruct (match_here U r bef (c :: aft)) as [z|] eqn:M.
      * destruct (match_here_moves _ _ _ M) as [w [N [_ [B [A F]]]]].
        destruct (Nat.ltb (length pre) (length w)) eqn:Inside.
        -- apply Nat.ltb_lt in Inside. exists (found_of bef z).
           split; [left; reflexivity|]. rewrite F. cbn [start stop]. lia.
        -- apply Nat.ltb_ge in Inside.
           destruct pre as [|c' pre];
             [destruct w; [congruence | simpl in Inside; lia]|].
           injection E as <- E.
           destruct (IH (length (before z) - length bef - 1)%nat (c :: bef) pre rest E)
             as [m [I R]].
           ++ rewrite B, length_app, length_rev. simpl in Inside. lia.
           ++ cbn [rev] in H. rewrite <- app_assoc in H. exact H.
           ++ exists m. split; [right; exact I|]. simpl in R |- *. lia.
      * destruct pre as [|c' pre]; [cbn [rev app] in H, E; rewrite <- E in H; congruence|].
        injection E as <- E.
        destruct (IH 0%nat (c :: bef) pre rest E) as [m [I R]].
        -- lia.
        -- cbn [rev] in H. rewrite <- app_assoc in H. exact H.
        -- exists m. split; [exact I|]. simpl in R |- *. lia.
    + destruct pre as [|c' pre]; [simpl in S; lia|].
      injection E as <- E. cbn [scan].
      destruct (IH k (c :: bef) pre rest E) as [m [I R]].
      * simpl in S. lia.
      * cbn [rev] in H. rewrite <- app_assoc in H. exact H.
      * exists m. split; [exact I|]. simpl in R |- *. lia.
Qed.

(** What [finditer] reports, and what it cannot miss. *)
Lemma finditer_found (s : text) (m : found) :
  In m (finditer U r s) ->
  exists pre z,
    s = pre ++ whole m ++ after z /\ length pre = start m /\
    stop m = (start m + length (whole m))%nat /\ whole m <> [] /\
    lang U r (whole m) /\ captures m = groups z /\
    before z = rev (whole m) ++ rev pre /\
    In z (run U r {| before := rev pre; after := whole m ++ after z; groups := [] |}).
Proof.
  unfold finditer. intros H. apply scan_In in H.
  destruct H as [bef [aft [z [E [M ->]]]]]. cbn [rev app] in E.
  pose proof (match_here_run U r _ _ _ M) as I.
  destruct (match_here_moves _ _ _ M) as [w [N [L [B [A F]]]]].
  exists (rev bef), z. rewrite F. cbn [start stop whole captures].
  rewrite rev_involutive, length_rev, <- A.
  repeat split; auto.
Qed.

Lemma finditer_covers (s pre rest : text) :
  s = pre ++ rest -> match_here U r (rev pre) rest <> None ->
  exists m, In m (finditer U r s) /\ (start m <= length pre < stop m)%nat.
Proof.
  intros E H. unfold finditer.
  destruct (scan_covers s 0%nat [] pre rest E ltac:(lia)) as [m [I R]].
  - rewrite app_nil_r. exact H.
  - exists m. split; [exact I|]. simpl in R. exact R.
Qed.

End ScanMeets.

Section TokenFacts.
Context (U : UnicodeDB).

(** The two [\b] of the date pattern hold where a match begins and where
    it ends. *)
Lemma date_pattern_boundaries (z0 z : cursor) :
  In z (run U date_pattern z0) ->
  boundary U (before z0) (after z0) /\ boundary U (before z) (after z).
Proof.
  unfold date_pattern, boundary. intros H.
  rewrite run_Seq in H. apply in_flat_map in H. destruct H as [z1 [H1 H]].
  cbn [run] in H1.
  destruct (xorb (word_at U (before z0)) (word_at U (after z0))) eqn:B0;
    [|contradiction].
  split; [reflexivity|].
  rewrite run_Seq in H. apply in_flat_map in H. destruct H as [z2 [_ H]].
  rewrite run_Seq in H. apply in_flat_map in H. destruct H as [z3 [_ H]].
  rewrite run_Seq in H. apply in_flat_map in H. destruct H as [z4 [_ H]].
  rewrite run_Seq in H. apply in_flat_map in H. destruct H as [z5 [_ H]].
  rewrite run_Seq in H. apply in_flat_map in H. destruct H as [z6 [_ H]].
  cbn [run] in H.
  destruct (xorb (word_at U (before z6)) (word_at U (after z6))) eqn:B1;
    [|contradiction].
  destruct H as [<- | []]. exact B1.
Qed.

Lemma date_pattern_complete (bef w post : text) (gs : list (string * text)) :
  lang U date_pattern w ->
  boundary U bef (w ++ post) -> boundary U (rev w ++ bef) post ->
  In {| before := rev w ++ bef; after := post; groups := gs |}
     (run U date_pattern {| before := bef; after := w ++ post; groups := gs |}).
Proof.
  unfold date_pattern, boundary. intros L B0 B1.
  destruct L as [e0 [w0 [-> [-> L]]]].
  destruct L as [a [w1 [-> [La L]]]].
  destruct L as [b [w2 [-> [Lb L]]]].
  destruct L as [c [w3 [-> [Lc L]]]].
  destruct L as [d [w4 [-> [Ld L]]]].
  destruct L as [e [e1 [-> [Le ->]]]].
  cbn [app] in *. rewrite app_nil_r in *.
  rewrite run_Seq. apply in_flat_map. eexists. split.
  { cbn [run before after]. rewrite B0. left. reflexivity. }
  rewrite run_Seq. apply in_flat_map.
  exists {| before := rev a ++ bef; after := (b ++ c ++ d ++ e) ++ post; groups := gs |}.
  split; [rewrite <- !app_assoc; apply run_complete; [reflexivity | exact La]|].
  rewrite run_Seq. apply in_flat_map.
  exists {| before := rev b ++ rev a ++ bef; after := (c ++ d ++ e) ++ post; groups := gs |}.
  split; [rewrite <- !app_assoc; apply run_complete; [reflexivity | exact Lb]|].
  rewrite run_Seq. apply in_flat_map.
  exists {| before := rev c ++ rev b ++ rev a ++ bef; after := (d ++ e) ++ post;
            groups := gs |}.
  split; [rewrite <- !app_assoc; apply run_complete; [reflexivity | exact Lc]|].
  rewrite run_Seq. apply in_flat_map.
  exists {| before := rev d ++ rev c ++ rev b ++ rev a ++ bef; after := e ++ post;
            groups := gs |}.
  split; [rewrite <- !app_assoc; apply run_complete; [reflexivity | exact Ld]|].
  rewrite run_Seq. apply in_flat_map.
  exists {| before := rev e ++ rev d ++ rev c ++ rev b ++ rev a ++ bef; after := post;
            groups := gs |}.
  split; [apply run_complete; [reflexivity | exact Le]|].
  assert (R : rev (a ++ b ++ c ++ d ++ e) ++ bef
              = rev e ++ rev d ++ rev c ++ rev b ++ rev a ++ bef).
  { rewrite !rev_app_distr, <- !app_assoc. reflexivity. }
  rewrite R in *. cbn [run before after]. rewrite B1. left. reflexivity.
Qed.

Lemma amount_pattern_complete (bef w post : text) :
  lang U amount_pattern w ->
  match_here U amount_pattern bef (w ++ post) <> None.
Proof.
  unfold amount_pattern. intros L.
  destruct L as [a [w1 [-> [La L]]]].
  destruct L as [b [c [-> [Lb Lc]]]].
  assert (I : exists z, In z (run U
     (Seq (Opt (Alt (Lit rupee_literal)
               (Alt (Seq (Lit (txt "Rs")) (Opt (Chr "."))) (Lit (txt "INR")))))
          (Seq (Opt (Cls CSpace)) (Group "1" number_pattern)))
     {| before := bef; after := (a ++ b ++ c) ++ post; groups := [] |})).
  { eexists. rewrite run_Seq. apply in_flat_map.
    exists {| before := rev a ++ bef; after := (b ++ c) ++ post; groups := [] |}.
    split; [rewrite <- !app_assoc; apply run_complete; [reflexivity | exact La]|].
    rewrite run_Seq. apply in_flat_map.
    exists {| before := rev b ++ rev a ++ bef; after := c ++ post; groups := [] |}.
    split; [rewrite <- !app_assoc; apply run_complete; [reflexivity | exact Lb]|].
    rewrite run_Group. apply in_map. apply run_complete; [reflexivity | exact Lc]. }
  destruct I as [z I]. unfold match_here.
  destruct (run U _ _); [contradiction | discriminate].
Qed.

(** Group 1 of a match of the amount pattern is the number the match ends
    with. *)
Lemma amount_group_suffix (z0 z : cursor) :
  In z (run U amount_pattern z0) ->
  exists marker number,
    before z = rev (marker ++ number) ++ before z0 /\
    group "1" (groups z) = Some number /\ lang U number_pattern number.
Proof.
  unfold amount_pattern. intros H.
  rewrite run_Seq in H. apply in_flat_map in H. destruct H as [z1 [H1 H]].
  rewrite run_Seq in H. apply in_flat_map in H. destruct H as [z2 [H2 H]].
  rewrite run_Group in H. apply in_map_iff in H. destruct H as [z3 [<- H]].
  destruct (run_sound U _ _ _ H1) as [a [_ [B1 _]]].
  destruct (run_sound U _ _ _ H2) as [b [_ [B2 _]]].
  destruct (run_sound U _ _ _ H) as [c [L [B3 _]]].
  exists (a ++ b), c. cbn [capture before groups group String.eqb Ascii.eqb Bool.eqb].
  split; [rewrite B3, B2, B1, !rev_app_distr, <- !app_assoc; reflexivity|].
  split; [|exact L]. rewrite (consumed_before _ _ _ B3). reflexivity.
Qed.

End TokenFacts.

Section Denoted.
Context (U : UnicodeDB).

Lemma digits_in_app (a b : text) :
  digits_in U (a ++ b) = digits_in U a ++ digits_in U b.
Proof.
  induction a as [|c a IH]; [reflexivity|].
  cbn [app digits_in]. destruct (decimal U c); rewrite IH; reflexivity.
Qed.

Lemma digits_in_remove (k : char) (s : text) :
  decimal U k = None -> digits_in U (remove_char k s) = digits_in U s.
Proof.
  intros K. unfold remove_char. induction s as [|c s IH]; [reflexivity|].
  cbn [filter digits_in]. unfold char_eqb at 1.
  destruct (N.eqb_spec c k) as [->|]; cbn [negb].
  - rewrite K. exact IH.
  - cbn [digits_in]. rewrite IH. reflexivity.
Qed.

Lemma digits_in_length (s : text) :
  forallb (isdecimal U) s = true -> length (digits_in U s) = length s.
Proof.
  induction s as [|c s IH]; [reflexivity|]. cbn [forallb digits_in]. intros H.
  apply andb_prop in H. destruct H as [Hc Hs]. unfold isdecimal in Hc.
  destruct (decimal U c); [|discriminate]. cbn [length]. rewrite (IH Hs). reflexivity.
Qed.

Lemma digits_value_base (s : text) :
  forallb (isdecimal U) s = true ->
  forall acc,
    digits_value U acc s
    = Some (fold_left (fun n d => n * 10 + d) (digits_in U s) acc).
Proof.
  induction s as [|c s IH]; [reflexivity|]. cbn [forallb digits_value digits_in].
  intros H acc. apply andb_prop in H. destruct H as [Hc Hs]. unfold isdecimal in Hc.
  destruct (decimal U c); [|discriminate]. cbn [fold_left]. apply IH. exact Hs.
Qed.

Lemma after_point_none (a : text) :
  forallb (fun x => negb (char_eqb x (code "."))) a = true -> after_point a = [].
Proof.
  induction a as [|c a IH]; [reflexivity|]. cbn [forallb after_point]. intros H.
  apply andb_prop in H. destruct H as [Hc Ha].
  destruct (char_eqb c (code ".")); [discriminate | auto].
Qed.

Lemma after_point_app (a fp : text) :
  forallb (fun x => negb (char_eqb x (code "."))) a = true ->
  after_point (a ++ code "." :: fp) = fp.
Proof.
  induction a as [|c a IH]; [reflexivity|]. cbn [forallb after_point app]. intros H.
  apply andb_prop in H. destruct H as [Hc Ha].
  destruct (char_eqb c (code ".")); [discriminate | auto].
Qed.

Lemma digit_or_comma_no_point (s : text) :
  forallb (digit_or_comma U) s = true ->
  forallb (fun x => negb (char_eqb x (code "."))) s = true.
Proof.
  induction s as [|c s IH]; [reflexivity|]. cbn [forallb]. intros H.
  apply andb_prop in H. destruct H as [Hc Hs]. rewrite (IH Hs), andb_true_r.
  unfold digit_or_comma in Hc. apply orb_prop in Hc. destruct Hc as [Hc | Hc].
  - rewrite (isdecimal_not U c (code ".") Hc); reflexivity.
  - unfold char_eqb in *. apply N.eqb_eq in Hc. subst c. reflexivity.
Qed.

(** What [float] reads in group 1 once its commas are removed is the
    number the group denotes. *)
Lemma float_denoted (w : text) :
  lang U number_pattern w ->
  float U (remove_char (code ",") w) = Ok (nearest_double (denoted U w)).
Proof.
  intros L. destruct (number_shape U _ L) as [c [ip [rest [-> [Hc [Hip Hrest]]]]]].
  assert (P : forallb (fun x => negb (char_eqb x (code "."))) (c :: ip) = true).
  { apply digit_or_comma_no_point. cbn [forallb]. unfold digit_or_comma at 1.
    rewrite Hc, Hip. reflexivity. }
  set (k := code ",").
  assert (K : decimal U k = None) by reflexivity.
  assert (Dip : forallb (isdecimal U) (remove_char k ip) = true)
    by (apply remove_comma_digits; exact Hip).
  assert (R : remove_char k ((c :: ip) ++ match rest with
                                          | Some fp => code "." :: fp
                                          | None => []
                                          end)
              = (c :: remove_char k ip) ++ match rest with
                                           | Some fp => code "." :: fp
                                           | None => []
                                           end).
  { rewrite remove_char_app, remove_char_cons.
    rewrite (isdecimal_not U _ k Hc) by reflexivity. cbv beta iota delta [negb].
    f_equal. destruct rest as [fp|]; [|reflexivity].
    rewrite remove_char_cons. change (negb (char_eqb (code ".") k)) with true.
    cbv iota. unfold k. rewrite (remove_comma_keep U _ Hrest). reflexivity. }
  rewrite R.
  destruct (float_value U c (remove_char k ip) rest Hc Dip Hrest) as [n [En F]].
  etransitivity; [exact F|].
  f_equal. f_equal. unfold denoted.
  assert (Dall : forallb (isdecimal U)
                   ((c :: remove_char k ip) ++ match rest with
                                               | Some fp => fp
                                               | None => []
                                               end) = true).
  { rewrite forallb_app. cbn [forallb]. rewrite Hc, Dip. cbn [andb].
    destruct rest; [exact Hrest | reflexivity]. }
  pose proof (digits_value_base _ Dall 0) as Eb.
  assert (En' : Some n = Some (fold_left (fun n d => n * 10 + d)
                    (digits_in U ((c :: remove_char k ip) ++ match rest with
                                                             | Some fp => fp
                                                             | None => []
                                                             end)) 0))
    by (etransitivity; [symmetry; exact En | exact Eb]).
  injection En' as ->.
  assert (Dg : digits_in U ((c :: remove_char k ip) ++ match rest with
                                                       | Some fp => fp
                                                       | None => []
                                                       end)
               = digits_in U ((c :: ip) ++ match rest with
                                           | Some fp => code "." :: fp
                                           | None => []
                                           end)).
  { rewrite !digits_in_app. f_equal.
    - cbn [digits_in]. rewrite (digits_in_remove k ip K). reflexivity.
    - destruct rest as [fp|]; reflexivity. }
  assert (Ln : length match rest with Some fp => fp | None => [] end
               = length (digits_in U (after_point
                   ((c :: ip) ++ match rest with
                                 | Some fp => code "." :: fp
                                 | None => []
                                 end)))).
  { destruct rest as [fp|].
    - rewrite (after_point_app _ fp P). symmetry. apply digits_in_length. exact Hrest.
    - rewrite app_nil_r, (after_point_none _ P). reflexivity. }
  unfold base_ten. rewrite <- Dg, <- Ln. reflexivity.
Qed.

End Denoted.

Section RepFacts.
Context (U : UnicodeDB).

Lemma lang_Upto_digits (n : nat) (w : text) :
  lang U (Upto n (Cls CDigit)) w <-> digit_run U 0 n w.
Proof.
  unfold digit_run. revert w. induction n as [|n IH]; intros w; cbn [Upto lang].
  - split.
    + intros ->. split; [reflexivity | simpl; lia].
    + intros [_ L]. destruct w; [reflexivity | simpl in L; lia].
  - split.
    + intros [-> | [a [b [-> [[c [-> Hc]] Lb]]]]]; [split; [reflexivity | simpl; lia]|].
      apply IH in Lb. destruct Lb as [D L]. cbn [in_class] in Hc.
      cbn [app forallb length]. rewrite Hc, D. split; [reflexivity | lia].
    + intros [D L]. destruct w as [|c w]; [left; reflexivity|]. right.
      cbn [forallb] in D. apply andb_prop in D. destruct D as [Hc D].
      exists [c], w. split; [reflexivity|]. split.
      * exists c. split; [reflexivity | exact Hc].
      * apply IH. split; [exact D | simpl in L; lia].
Qed.

Lemma lang_Rep_digits (lo m : nat) (w : text) :
  lang U (Exactly lo (Cls CDigit) (Upto m (Cls CDigit))) w
  <-> digit_run U lo (lo + m) w.
Proof.
  revert w. induction lo as [|lo IH]; intros w; cbn [Exactly].
  - apply lang_Upto_digits.
  - unfold digit_run in *. cbn [lang]. split.
    + intros [a [b [-> [[c [-> Hc]] Lb]]]]. apply IH in Lb. destruct Lb as [D L].
      cbn [in_class] in Hc. cbn [app forallb length]. rewrite Hc, D.
      split; [reflexivity | lia].
    + intros [D L]. destruct w as [|c w]; [simpl in L; lia|].
      cbn [forallb] in D. apply andb_prop in D. destruct D as [Hc D].
      exists [c], w. split; [reflexivity|]. split.
      * exists c. split; [reflexivity | exact Hc].
      * apply IH. split; [exact D | simpl in L; lia].
Qed.

Lemma lang_date_sep (w : text) :
  lang U (Cls (COneOf (txt "/-"))) w <-> exists c, w = [c] /\ date_sep c = true.
Proof.
  cbn [lang in_class]. unfold date_sep. split; intros [c [-> H]]; exists c;
    (split; [reflexivity|]); cbn [existsb txt map] in *;
    rewrite ?orb_false_r in *; exact H.
Qed.

(** The words of the date pattern are the tokens D[/-]M[/-]Y. *)
Lemma lang_date_pattern (w : text) : lang U date_pattern w <-> date_token U w.
Proof.
  unfold date_pattern, date_token, Rep. cbn [Nat.sub]. split.
  - intros [e0 [w0 [-> [-> L]]]].
    destruct L as [d [w1 [-> [Ld L]]]].
    destruct L as [x1 [w2 [-> [L1 L]]]].
    destruct L as [m [w3 [-> [Lm L]]]].
    destruct L as [x2 [w4 [-> [L2 L]]]].
    destruct L as [y [e1 [-> [Ly ->]]]].
    apply lang_date_sep in L1, L2.
    destruct L1 as [s1 [-> S1]]. destruct L2 as [s2 [-> S2]].
    apply (lang_Rep_digits 1 1) in Ld, Lm. apply (lang_Rep_digits 2 2) in Ly.
    exists d, s1, m, s2, y. rewrite app_nil_r. cbn [app]. auto 10.
  - intros [d [s1 [m [s2 [y [-> [Ld [S1 [Lm [S2 Ly]]]]]]]]]].
    exists [], (d ++ s1 :: m ++ s2 :: y). split; [reflexivity|]. split; [reflexivity|].
    exists d, (s1 :: m ++ s2 :: y). split; [reflexivity|].
    split; [apply (lang_Rep_digits 1 1); exact Ld|].
    exists [s1], (m ++ s2 :: y). split; [reflexivity|].
    split; [apply lang_date_sep; exists s1; auto|].
    exists m, (s2 :: y). split; [reflexivity|].
    split; [apply (lang_Rep_digits 1 1); exact Lm|].
    exists [s2], y. split; [reflexivity|].
    split; [apply lang_date_sep; exists s2; auto|].
    exists y, []. split; [rewrite app_nil_r; reflexivity|].
    split; [apply (lang_Rep_digits 2 2); exact Ly | reflexivity].
Qed.

End RepFacts.

Section AmountTokens.
Context (U : UnicodeDB).

Lemma lang_Lit (s w : text) : lang U (Lit s) w <-> w = s.
Proof.
  revert w. induction s as [|c s IH]; intros w; cbn [Lit lang]; [tauto|]. split.
  - intros [a [b [-> [[x [-> Hx]] Lb]]]]. cbn [in_class] in Hx.
    apply N.eqb_eq in Hx. subst x. apply IH in Lb. subst b. reflexivity.
  - intros ->. exists [c], s. split; [reflexivity|]. split.
    + exists c. split; [reflexivity | apply N.eqb_refl].
    + apply IH. reflexivity.
Qed.

Lemma lang_Chr (a : ascii) (w : text) : lang U (Chr a) w <-> w = [code a].
Proof.
  unfold Chr. cbn [lang in_class]. split.
  - intros [c [-> H]]. apply N.eqb_eq in H. subst c. reflexivity.
  - intros ->. exists (code a). split; [reflexivity | apply N.eqb_refl].
Qed.

Lemma lang_comma_groups (w : text) :
  lang U (Star (Seq (Chr ",") (Rep 3 3 (Cls CDigit)))) w
  <-> exists gl, w = concat (map (cons (code ",")) gl) /\ Forall (digit_run U 3 3) gl.
Proof.
  cbn [lang]. split.
  - intros [ws [-> F]]. induction F as [|x ws Hx F IH].
    + exists []. split; [reflexivity | constructor].
    + destruct IH as [gl [E G]].
      destruct Hx as [a [g [-> [La Lg]]]].
      apply lang_Chr in La. subst a.
      apply (lang_Rep_digits U 3 0) in Lg.
      exists (g :: gl). split; [cbn [map concat]; rewrite E; reflexivity|].
      constructor; assumption.
  - intros [gl [-> G]]. exists (map (cons (code ",")) gl). split; [reflexivity|].
    induction G as [|g gl Hg G IH]; [constructor|]. cbn [map]. constructor; [|exact IH].
    exists [code ","], g. split; [reflexivity|]. split.
    + apply lang_Chr. reflexivity.
    + apply (lang_Rep_digits U 3 0). exact Hg.
Qed.

(** The words of the number pattern are the grouped numbers. *)
Lemma lang_number_pattern (w : text) :
  lang U number_pattern w <-> grouped_number U w.
Proof.
  unfold number_pattern, grouped_number, grouped. split.
  - intros [ip [w1 [-> [Li [gs [w2 [-> [Lg Lf]]]]]]]].
    apply (lang_Rep_digits U 1 2) in Li.
    apply lang_comma_groups in Lg. destruct Lg as [gl [-> G]].
    destruct Lf as [-> | [p [f [-> [Lp Lf]]]]].
    + exists ip, gl, None. auto.
    + apply lang_Chr in Lp. subst p. apply (lang_Rep_digits U 1 1) in Lf.
      exists ip, gl, (Some f). auto.
  - intros [ip [gl [fp [-> [Di [G Df]]]]]].
    exists ip, (concat (map (cons (code ",")) gl) ++ fraction fp).
    split; [reflexivity|]. split; [apply (lang_Rep_digits U 1 2); exact Di|].
    exists (concat (map (cons (code ",")) gl)), (fraction fp).
    split; [reflexivity|]. split; [apply lang_comma_groups; exists gl; auto|].
    destruct fp as [f|]; [right | left; reflexivity].
    exists [code "."], f. split; [reflexivity|]. split.
    + apply lang_Chr. reflexivity.
    + apply (lang_Rep_digits U 1 1). exact Df.
Qed.

(** The words of the amount pattern are the amount tokens. *)
Lemma lang_amount_pattern (w : text) :
  lang U amount_pattern w <-> amount_token U w.
Proof.
  unfold amount_pattern, amount_token, currency_marker, one_blank. split.
  - intros [marker [w1 [-> [Lm [blank [number [-> [Lb Ln]]]]]]]].
    apply lang_number_pattern in Ln.
    exists marker, blank, number. split; [reflexivity|]. split; [|split].
    + destruct Lm as [-> | [Lm | [Lm | Lm]]]; [tauto | | |].
      * apply lang_Lit in Lm. tauto.
      * destruct Lm as [a [b [-> [La Lb']]]]. apply lang_Lit in La. subst a.
        destruct Lb' as [-> | Lb'].
        -- right. right. left. reflexivity.
        -- apply lang_Chr in Lb'. subst b. right. right. right. left. reflexivity.
      * apply lang_Lit in Lm. tauto.
    + destruct Lb as [-> | [c [-> Hc]]]; [left; reflexivity | right].
      exists c. split; [reflexivity | exact Hc].
    + exact Ln.
  - intros [marker [blank [number [-> [Hm [Hb Hn]]]]]].
    exists marker, (blank ++ number). split; [reflexivity|]. split; [|].
    + destruct Hm as [-> | [-> | [-> | [-> | ->]]]].
      * left. reflexivity.
      * right. left. apply lang_Lit. reflexivity.
      * right. right. left. exists (txt "Rs"), []. split; [reflexivity|].
        split; [apply lang_Lit; reflexivity | left; reflexivity].
      * right. right. left. exists (txt "Rs"), [code "."]. split; [reflexivity|].
        split; [apply lang_Lit; reflexivity | right; apply lang_Chr; reflexivity].
      * right. right. right. apply lang_Lit. reflexivity.
    + exists blank, number. split; [reflexivity|]. split.
      * destruct Hb as [-> | [c [-> Hc]]]; [left; reflexivity | right].
        exists c. split; [reflexivity | exact Hc].
      * apply lang_number_pattern. exact Hn.
Qed.

End AmountTokens.

Section ExtractorFacts.
Context (U : UnicodeDB).

(** The matches [finditer] reports for the amount pattern are amount
    tokens of the text, and no token is passed over. *)
Lemma finditer_amount_tokens (s : text) :
  (forall m, In m (finditer U amount_pattern s) ->
     amount_token_at U s (start m) (whole m) /\
     stop m = (start m + length (whole m))%nat /\
     exists marker number,
       whole m = marker ++ number /\ group "1" (captures m) = Some number /\
       grouped_number U number) /\
  (forall i w, amount_token_at U s i w ->
     exists m, In m (finditer U amount_pattern s) /\ (start m <= i < stop m)%nat).
Proof.
  split.
  - intros m Hm.
    destruct (finditer_found U amount_pattern (amount_pattern_nonempty U) s m Hm)
      as [pre [z [E [Lp [St [_ [L [C [B I]]]]]]]]].
    split; [exists pre, (after z); split; [exact E|]; split; [exact Lp|];
            apply lang_amount_pattern; exact L|].
    split; [exact St|].
    destruct (amount_group_suffix U _ _ I) as [marker [number [B' [G Ln]]]].
    cbn [before] in B'. exists marker, number.
    split; [|split; [rewrite C; exact G | apply lang_number_pattern; exact Ln]].
    rewrite B in B'. apply app_inv_tail in B'.
    apply (f_equal (@rev char)) in B'. rewrite !rev_involutive in B'. exact B'.
  - intros i w [pre [post [E [Lp T]]]]. subst i.
    apply (finditer_covers U amount_pattern (amount_pattern_nonempty U) s pre (w ++ post) E).
    apply amount_pattern_complete. apply lang_amount_pattern. exact T.
Qed.

(** The same for the date pattern, whose tokens stand between word
    boundaries. *)
Lemma finditer_date_tokens (s : text) :
  (forall m, In m (finditer U date_pattern s) ->
     date_token_at U s (start m) (whole m) /\
     stop m = (start m + length (whole m))%nat) /\
  (forall i w, date_token_at U s i w ->
     exists m, In m (finditer U date_pattern s) /\ (start m <= i < stop m)%nat).
Proof.
  split.
  - intros m Hm.
    destruct (finditer_found U date_pattern (date_pattern_nonempty U) s m Hm)
      as [pre [z [E [Lp [St [_ [L [C [B I]]]]]]]]].
    split; [|exact St].
    destruct (date_pattern_boundaries U _ _ I) as [B0 B1]. cbn [before after] in B0.
    exists pre, (after z). split; [exact E|]. split; [exact Lp|].
    split; [apply lang_date_pattern; exact L|]. split; [exact B0|].
    rewrite <- B. exact B1.
  - intros i w [pre [post [E [Lp [T [B0 B1]]]]]]. subst i.
    apply (finditer_covers U date_pattern (date_pattern_nonempty U) s pre (w ++ post) E).
    apply lang_date_pattern in T.
    pose proof (date_pattern_complete U (rev pre) w post [] T B0 B1) as I.
    unfold match_here. destruct (run U date_pattern _); [contradiction | discriminate].
Qed.

End ExtractorFacts.

(* ================================================================== *)
(** * What the formats of [extract_date] read *)
(* ================================================================== *)

Section PlainFacts.
Context (U : UnicodeDB).

Lemma iterate_groups (step : cursor -> list cursor) :
  (forall z0 z, In z (step z0) -> groups z = groups z0) ->
  forall fuel z0 z, In z (iterate step fuel z0) -> groups z = groups z0.
Proof.
  intros Hs. induction fuel as [|f IH]; intros z0 z H; cbn [iterate] in H.
  - destruct H as [<- | []]. reflexivity.
  - apply in_app_or in H. destruct H as [H | [<- | []]]; [|reflexivity].
    apply in_flat_map in H. destruct H as [z1 [H1 H]].
    apply filter_In in H1. destruct H1 as [H1 _].
    rewrite (IH _ _ H). apply Hs. exact H1.
Qed.

(** A pattern without groups leaves the captured groups as they are. *)
Lemma plain_groups (r : regex) :
  plain r = true -> forall z0 z, In z (run U r z0) -> groups z = groups z0.
Proof.
  induction r as [|k| |r1 IH1 r2 IH2|r1 IH1 r2 IH2|r1 IH1|r1 IH1|name r1 IH1];
    intros P z0 z H; cbn [plain] in P; try discriminate; cbn [run] in H.
  - destruct H as [<- | []]. reflexivity.
  - destruct (after z0) as [|c rest]; [contradiction|].
    destruct (in_class U k c); [|contradiction].
    destruct H as [<- | []]. reflexivity.
  - apply andb_prop in P. destruct P as [P1 P2].
    apply in_flat_map in H. destruct H as [z1 [H1 H]].
    rewrite (IH2 P2 _ _ H). apply IH1; assumption.
  - apply andb_prop in P. destruct P as [P1 P2].
    apply in_app_or in H. destruct H as [H | H]; [apply IH1 | apply IH2]; assumption.
  - apply in_app_or in H. destruct H as [H | [<- | []]]; [|reflexivity].
    apply IH1; assumption.
  - apply (iterate_groups (run U r1)) in H; [exact H|]. apply IH1. exact P.
Qed.

Lemma run_Group_sound (name : string) (r : regex) (z0 z : cursor) :
  plain r = true -> In z (run U (Group name r) z0) ->
  exists w, lang U r w /\ before z = rev w ++ before z0 /\
            after z0 = w ++ after z /\ groups z = (name, w) :: groups z0.
Proof.
  intros P H. rewrite run_Group in H. apply in_map_iff in H. destruct H as [z' [<- H]].
  destruct (run_sound U _ _ _ H) as [w [L [B A]]].
  exists w. cbn [capture before after groups].
  rewrite (consumed_before _ _ _ B), (plain_groups r P _ _ H). auto.
Qed.

Lemma run_Group_complete (name : string) (r : regex) (w bef aft : text)
    (gs : list (string * text)) :
  plain r = true -> lang U r w ->
  In {| before := rev w ++ bef; after := aft; groups := (name, w) :: gs |}
     (run U (Group name r) {| before := bef; after := w ++ aft; groups := gs |}).
Proof.
  intros P L. rewrite run_Group. apply in_map_iff.
  exists {| before := rev w ++ bef; after := aft; groups := gs |}. split.
  - unfold capture. cbn [before after groups]. f_equal. f_equal. f_equal.
    apply consumed_before. reflexivity.
  - apply run_complete; assumption.
Qed.

Lemma run_CLit_sound (c : char) (z0 z : cursor) :
  In z (run U (Cls (CLit c)) z0) ->
  before z = c :: before z0 /\ after z0 = c :: after z /\ groups z = groups z0.
Proof.
  cbn [run]. destruct (after z0) as [|x rest]; [contradiction|].
  cbn [in_class]. unfold char_eqb. destruct (N.eqb_spec x c) as [->|]; [|contradiction].
  intros [<- | []]. auto.
Qed.

End PlainFacts.

Section Fields.
Context (U : UnicodeDB).
Context (n1 n2 n3 : string) (D1 D2 D3 : regex) (sep : char) (width : nat).
Hypothesis plain1 : plain D1 = true.
Hypothesis plain2 : plain D2 = true.
Hypothesis plain3 : plain D3 = true.
Hypothesis alphabet1 : alphabet U no_sep D1.
Hypothesis alphabet2 : alphabet U no_sep D2.
Hypothesis width3 : forall w, lang U D3 w -> length w = width.
Hypothesis is_sep : no_sep sep = false.

Lemma fields_sound (z0 z : cursor) :
  In z (run U (Seq (Group n1 D1) (Seq (Cls (CLit sep))
         (Seq (Group n2 D2) (Seq (Cls (CLit sep)) (Seq (Group n3 D3) Eps))))) z0) ->
  exists a b y,
    lang U D1 a /\ lang U D2 b /\ lang U D3 y /\
    after z0 = a ++ sep :: b ++ sep :: y ++ after z /\
    groups z = (n3, y) :: (n2, b) :: (n1, a) :: groups z0.
Proof.
  intros H.
  rewrite run_Seq in H. apply in_flat_map in H. destruct H as [z1 [H1 H]].
  rewrite run_Seq in H. apply in_flat_map in H. destruct H as [z2 [H2 H]].
  rewrite run_Seq in H. apply in_flat_map in H. destruct H as [z3 [H3 H]].
  rewrite run_Seq in H. apply in_flat_map in H. destruct H as [z4 [H4 H]].
  rewrite run_Seq in H. apply in_flat_map in H. destruct H as [z5 [H5 H]].
  cbn [run] in H. destruct H as [<- | []].
  destruct (run_Group_sound U _ _ _ _ plain1 H1) as [a [La [_ [A1 G1]]]].
  destruct (run_CLit_sound U _ _ _ H2) as [_ [A2 G2]].
  destruct (run_Group_sound U _ _ _ _ plain2 H3) as [b [Lb [_ [A3 G3]]]].
  destruct (run_CLit_sound U _ _ _ H4) as [_ [A4 G4]].
  destruct (run_Group_sound U _ _ _ _ plain3 H5) as [y [Ly [_ [A5 G5]]]].
  exists a, b, y. split; [exact La|]. split; [exact Lb|]. split; [exact Ly|]. split.
  - rewrite A1, A2, A3, A4, A5. reflexivity.
  - rewrite G5, G4, G3, G2, G1. reflexivity.
Qed.

Lemma fields_complete (a b y bef post : text) (gs : list (string * text)) :
  lang U D1 a -> lang U D2 b -> lang U D3 y ->
  exists z,
    In z (run U (Seq (Group n1 D1) (Seq (Cls (CLit sep))
           (Seq (Group n2 D2) (Seq (Cls (CLit sep)) (Seq (Group n3 D3) Eps)))))
            {| before := bef; after := a ++ sep :: b ++ sep :: y ++ post;
               groups := gs |}).
Proof.
  intros La Lb Ly. eexists.
  rewrite run_Seq. apply in_flat_map. eexists.
  split; [apply run_Group_complete; [exact plain1 | exact La]|].
  rewrite run_Seq. apply in_flat_map. eexists. split.
  { cbn [run after in_class]. unfold char_eqb. rewrite N.eqb_refl. left. reflexivity. }
  rewrite run_Seq. apply in_flat_map. eexists.
  split; [apply run_Group_complete; [exact plain2 | exact Lb]|].
  rewrite run_Seq. apply in_flat_map. eexists. split.
  { cbn [run after in_class]. unfold char_eqb. rewrite N.eqb_refl. left. reflexivity. }
  rewrite run_Seq. apply in_flat_map. eexists.
  split; [apply run_Group_complete; [exact plain3 | exact Ly]|].
  cbn [run]. left. reflexivity.
Qed.

(** The match [re_match] finds on a string of three fields takes all of
    it, the fields in the groups. *)
Lemma fields_first (a b y : text) :
  lang U D1 a -> lang U D2 b -> lang U D3 y ->
  exists z,
    re_match U (Seq (Group n1 D1) (Seq (Cls (CLit sep))
       (Seq (Group n2 D2) (Seq (Cls (CLit sep)) (Seq (Group n3 D3) Eps)))))
      (a ++ sep :: b ++ sep :: y) = Some z /\
    after z = [] /\ groups z = [(n3, y); (n2, b); (n1, a)].
Proof.
  intros La Lb Ly.
  destruct (fields_complete a b y [] [] [] La Lb Ly) as [z0 I0].
  rewrite app_nil_r in I0. unfold re_match, match_here.
  destruct (run U _ _) as [|z l] eqn:R; [contradiction|].
  assert (I : In z (run U (Seq (Group n1 D1) (Seq (Cls (CLit sep))
       (Seq (Group n2 D2) (Seq (Cls (CLit sep)) (Seq (Group n3 D3) Eps)))))
         {| before := []; after := a ++ sep :: b ++ sep :: y; groups := [] |}))
    by (rewrite R; left; reflexivity).
  destruct (fields_sound _ _ I) as [a' [b' [y' [La' [Lb' [Ly' [A G]]]]]]].
  cbn [after groups] in A, G.
  destruct (split_unique no_sep _ _ _ _ is_sep is_sep a a'
              (lang_alphabet U _ _ alphabet1 _ La) (lang_alphabet U _ _ alphabet1 _ La') A)
    as [<- [_ A2]].
  destruct (split_unique no_sep _ _ _ _ is_sep is_sep b b'
              (lang_alphabet U _ _ alphabet2 _ Lb) (lang_alphabet U _ _ alphabet2 _ Lb') A2)
    as [<- [_ A3]].
  assert (N : after z = []).
  { apply (f_equal (@length char)) in A3. rewrite length_app in A3.
    rewrite (width3 _ Ly), (width3 _ Ly') in A3.
    destruct (after z); [reflexivity | simpl in A3; lia]. }
  rewrite N, app_nil_r in A3. subst y'.
  exists z. cbn [hd_error]. auto.
Qed.

Lemma fields_inv (c : text) (z : cursor) :
  re_match U (Seq (Group n1 D1) (Seq (Cls (CLit sep))
     (Seq (Group n2 D2) (Seq (Cls (CLit sep)) (Seq (Group n3 D3) Eps))))) c = Some z ->
  after z = [] ->
  exists a b y,
    lang U D1 a /\ lang U D2 b /\ lang U D3 y /\
    c = a ++ sep :: b ++ sep :: y /\ groups z = [(n3, y); (n2, b); (n1, a)].
Proof.
  intros E N. apply match_here_run in E.
  destruct (fields_sound _ _ E) as [a [b [y [La [Lb [Ly [A G]]]]]]].
  cbn [after groups] in A, G. rewrite N, app_nil_r in A.
  exists a, b, y. auto.
Qed.

End Fields.

Section StrptimeReads.
Context (U : UnicodeDB).
Hypothesis not_blank : digits_are_not_blank U.

Lemma range_decimal (lo hi c : char) :
  48 <= lo -> hi <= 57 -> between lo hi c = true -> isdecimal U c = true.
Proof.
  intros L H B. apply ascii_digit_decimal. unfold between in *.
  apply andb_prop in B. destruct B as [B1 B2]. apply N.leb_le in B1, B2.
  apply andb_true_intro. split; apply N.leb_le; lia.
Qed.

Lemma int_digits (w : text) :
  forallb (isdecimal U) w = true -> w <> [] -> int U w = Ok (number U w).
Proof.
  intros D N. unfold int, number, base_ten.
  destruct w as [|c w]; [congruence|].
  cbn [forallb] in D. apply andb_prop in D. destruct D as [Dc D].
  cbn [lstrip]. rewrite (not_blank c Dc).
  rewrite (digits_value_base U (c :: w)); [reflexivity|].
  cbn [forallb]. rewrite Dc, D. reflexivity.
Qed.

Lemma int_blank_digit (c : char) :
  isdecimal U c = true -> int U [code " "; c] = Ok (number U [code " "; c]).
Proof.
  intros Dc. unfold int, number, base_ten.
  change (lstrip U [code " "; c]) with (lstrip U [c]).
  cbn [lstrip]. rewrite (not_blank c Dc).
  rewrite (digits_value_base U [c]); [|cbn [forallb]; rewrite Dc; reflexivity].
  reflexivity.
Qed.

Ltac decimal_class H :=
  first [ exact H
        | refine (range_decimal _ _ _ _ _ H); vm_compute; discriminate
        | cbn [in_class] in H; unfold char_eqb in H; apply N.eqb_eq in H; subst;
          reflexivity ].

Lemma directive_d_int (w : text) : lang U directive_d w -> int U w = Ok (number U w).
Proof.
  unfold directive_d, digit_range, Chr. cbn [lang].
  intros [L | [L | [L | [L | L]]]].
  - destruct L as [a [b [-> [[c1 [-> H1]] [c2 [-> H2]]]]]].
    apply int_digits; [|discriminate]. cbn [app forallb].
    assert (isdecimal U c1 = true) as -> by decimal_class H1.
    assert (isdecimal U c2 = true) as -> by decimal_class H2. reflexivity.
  - destruct L as [a [b [-> [[c1 [-> H1]] [c2 [-> H2]]]]]].
    apply int_digits; [|discriminate]. cbn [app forallb].
    assert (isdecimal U c1 = true) as -> by decimal_class H1.
    assert (isdecimal U c2 = true) as -> by decimal_class H2. reflexivity.
  - destruct L as [a [b [-> [[c1 [-> H1]] [c2 [-> H2]]]]]].
    apply int_digits; [|discriminate]. cbn [app forallb].
    assert (isdecimal U c1 = true) as -> by decimal_class H1.
    assert (isdecimal U c2 = true) as -> by decimal_class H2. reflexivity.
  - destruct L as [c1 [-> H1]].
    apply int_digits; [|discriminate]. cbn [forallb].
    assert (isdecimal U c1 = true) as -> by decimal_class H1. reflexivity.
  - destruct L as [a [b [-> [[c1 [-> H1]] [c2 [-> H2]]]]]].
    cbn [in_class] in H1. unfold char_eqb in H1. apply N.eqb_eq in H1. subst c1.
    apply int_blank_digit. decimal_class H2.
Qed.

Lemma directive_m_int (w : text) : lang U directive_m w -> int U w = Ok (number U w).
Proof.
  unfold directive_m, digit_range, Chr. cbn [lang].
  intros [L | [L | L]].
  - destruct L as [a [b [-> [[c1 [-> H1]] [c2 [-> H2]]]]]].
    apply int_digits; [|discriminate]. cbn [app forallb].
    assert (isdecimal U c1 = true) as -> by decimal_class H1.
    assert (isdecimal U c2 = true) as -> by decimal_class H2. reflexivity.
  - destruct L as [a [b [-> [[c1 [-> H1]] [c2 [-> H2]]]]]].
    apply int_digits; [|discriminate]. cbn [app forallb].
    assert (isdecimal U c1 = true) as -> by decimal_class H1.
    assert (isdecimal U c2 = true) as -> by decimal_class H2. reflexivity.
  - destruct L as [c1 [-> H1]].
    apply int_digits; [|discriminate]. cbn [forallb].
    assert (isdecimal U c1 = true) as -> by decimal_class H1. reflexivity.
Qed.

Lemma directive_Y_int (w : text) : lang U directive_Y w -> int U w = Ok (number U w).
Proof.
  unfold directive_Y. cbn [lang].
  intros [w1 [w2 [-> [[c1 [-> H1]] [w3 [w4 [-> [[c2 [-> H2]]
    [w5 [w6 [-> [[c3 [-> H3]] [c4 [-> H4]]]]]]]]]]]]]].
  apply int_digits; [|discriminate]. cbn [app forallb]. cbn [in_class] in *.
  rewrite H1, H2, H3, H4. reflexivity.
Qed.

Lemma directive_y_int (w : text) : lang U directive_y w -> int U w = Ok (number U w).
Proof.
  unfold directive_y. cbn [lang].
  intros [w1 [w2 [-> [[c1 [-> H1]] [c2 [-> H2]]]]]].
  apply int_digits; [|discriminate]. cbn [app forallb]. cbn [in_class] in *.
  rewrite H1, H2. reflexivity.
Qed.

Lemma make_date_eq (y m dd : N) (d : calendar_date) :
  make_date y m dd = Ok d <->
  year d = y /\ month d = m /\ day d = dd /\ valid_date d = true.
Proof.
  unfold make_date. split.
  - destruct (valid_date _) eqn:V; [|discriminate]. intros [= <-]. auto.
  - destruct d as [y' m' d']. cbn [year month day]. intros [-> [-> [-> V]]].
    rewrite V. reflexivity.
Qed.

Ltac fields_of_match E N :=
  match type of E with
  | re_match ?U (Seq (Group ?n1 ?D1) (Seq _ (Seq (Group ?n2 ?D2)
      (Seq _ (Seq (Group ?n3 ?D3) Eps))))) ?c = Some ?z =>
      destruct (fields_inv U n1 n2 n3 D1 D2 D3 _ eq_refl eq_refl eq_refl c z E N)
        as [?a [?b [?y [?La [?Lb [?Ly [-> ?G]]]]]]]
  end.

Ltac match_of_fields A1 A2 W a b y La Lb Ly :=
  match goal with
  | |- context [re_match ?U (Seq (Group ?n1 ?D1) (Seq (Cls (CLit ?sep)) (Seq (Group ?n2 ?D2)
         (Seq _ (Seq (Group ?n3 ?D3) Eps))))) _] =>
      let z := fresh "z" in
      let E := fresh "E" in
      destruct (fields_first U n1 n2 n3 D1 D2 D3 sep _ eq_refl eq_refl eq_refl
                  A1 A2 W eq_refl a b y La Lb Ly) as [z [E [?N ?G]]];
      match goal with
      | |- context [re_match U ?R ?data] =>
          replace (re_match U R data) with (Some z) by (symmetry; exact E)
      end
  end.

(** Each format of [extract_date] reads a string as a date exactly when
    the string is laid out as the format says and its fields name a date of
    the calendar. *)
Lemma strptime_reads (c fmt : text) (d : calendar_date) :
  In fmt date_formats -> (strptime U c fmt = Ok d <-> reads U fmt c d).
Proof.
  intros [<- | [<- | [<- | [<- | []]]]].
  - (* %d/%m/%Y *)
    split.
    + intros H. unfold strptime in H.
      change (format_regex (txt "%d/%m/%Y"))
        with (Some (Seq directive_d (Seq (Cls (CLit (code "/")))
                 (Seq directive_m (Seq (Cls (CLit (code "/"))) (Seq directive_Y Eps))))))
        in H.
      cbv beta iota in H.
      destruct (re_match U _ c) as [z|] eqn:E; [|discriminate].
      destruct (after z) as [|x t] eqn:N; [|discriminate]. cbn [nonempty] in H.
      unfold directive_d, directive_m, directive_Y in E.
      fields_of_match E N.
      rewrite G in H. unfold year_of, int_group in H.
      cbn [group String.eqb Ascii.eqb Bool.eqb] in H.
      rewrite (directive_Y_int y Ly), (directive_m_int b Lb), (directive_d_int a La) in H.
      cbn [bind] in H. apply make_date_eq in H. destruct H as [Hy [Hm [Hd V]]].
      exists {| day_first := true; separator := code "/"; long_year := true |}, a, b, y.
      cbn [day_first separator long_year]. repeat split; auto.
    + intros [l [a [b [y [L [-> [La [Lb [Ly [Hd [Hm [Hy V]]]]]]]]]]]].
      injection L as <-. cbn [day_first separator long_year] in *.
      unfold strptime.
      change (format_regex (txt "%d/%m/%Y"))
        with (Some (Seq directive_d (Seq (Cls (CLit (code "/")))
                 (Seq directive_m (Seq (Cls (CLit (code "/"))) (Seq directive_Y Eps)))))).
      cbv beta iota. unfold directive_d, directive_m, directive_Y.
      match_of_fields (directive_d_alphabet U) (directive_m_alphabet U)
                      (directive_Y_length U) a b y La Lb Ly.
      cbv beta iota. rewrite N, G. cbn [nonempty]. unfold year_of, int_group.
      cbn [group String.eqb Ascii.eqb Bool.eqb].
      rewrite (directive_Y_int y Ly), (directive_m_int b Lb), (directive_d_int a La).
      cbn [bind]. apply make_date_eq. auto.
  - (* %d-%m-%Y *)
    split.
    + intros H. unfold strptime in H.
      change (format_regex (txt "%d-%m-%Y"))
        with (Some (Seq directive_d (Seq (Cls (CLit (code "-")))
                 (Seq directive_m (Seq (Cls (CLit (code "-"))) (Seq directive_Y Eps))))))
        in H.
      cbv beta iota in H.
      destruct (re_match U _ c) as [z|] eqn:E; [|discriminate].
      destruct (after z) as [|x t] eqn:N; [|discriminate]. cbn [nonempty] in H.
      unfold directive_d, directive_m, directive_Y in E.
      fields_of_match E N.
      rewrite G in H. unfold year_of, int_group in H.
      cbn [group String.eqb Ascii.eqb Bool.eqb] in H.
      rewrite (directive_Y_int y Ly), (directive_m_int b Lb), (directive_d_int a La) in H.
      cbn [bind] in H. apply make_date_eq in H. destruct H as [Hy [Hm [Hd V]]].
      exists {| day_first := true; separator := code "-"; long_year := true |}, a, b, y.
      cbn [day_first separator long_year]. repeat split; auto.
    + intros [l [a [b [y [L [-> [La [Lb [Ly [Hd [Hm [Hy V]]]]]]]]]]]].
      injection L as <-. cbn [day_first separator long_year] in *.
      unfold strptime.
      change (format_regex (txt "%d-%m-%Y"))
        with (Some (Seq directive_d (Seq (Cls (CLit (code "-")))
                 (Seq directive_m (Seq (Cls (CLit (code "-"))) (Seq directive_Y Eps)))))).
      cbv beta iota. unfold directive_d, directive_m, directive_Y.
      match_of_fields (directive_d_alphabet U) (directive_m_alphabet U)
                      (directive_Y_length U) a b y La Lb Ly.
      cbv beta iota. rewrite N, G. cbn [nonempty]. unfold year_of, int_group.
      cbn [group String.eqb Ascii.eqb Bool.eqb].
      rewrite (directive_Y_int y Ly), (directive_m_int b Lb), (directive_d_int a La).
      cbn [bind]. apply make_date_eq. auto.
  - (* %m/%d/%Y *)
    split.
    + intros H. unfold strptime in H.
      change (format_regex (txt "%m/%d/%Y"))
        with (Some (Seq directive_m (Seq (Cls (CLit (code "/")))
                 (Seq directive_d (Seq (Cls (CLit (code "/"))) (Seq directive_Y Eps))))))
        in H.
      cbv beta iota in H.
      destruct (re_match U _ c) as [z|] eqn:E; [|discriminate].
      destruct (after z) as [|x t] eqn:N; [|discriminate]. cbn [nonempty] in H.
      unfold directive_d, directive_m, directive_Y in E.
      fields_of_match E N.
      rewrite G in H. unfold year_of, int_group in H.
      cbn [group String.eqb Ascii.eqb Bool.eqb] in H.
      rewrite (directive_Y_int y Ly), (directive_m_int a La), (directive_d_int b Lb) in H.
      cbn [bind] in H. apply make_date_eq in H. destruct H as [Hy [Hm [Hd V]]].
      exists {| day_first := false; separator := code "/"; long_year := true |}, a, b, y.
      cbn [day_first separator long_year]. repeat split; auto.
    + intros [l [a [b [y [L [-> [La [Lb [Ly [Hd [Hm [Hy V]]]]]]]]]]]].
      injection L as <-. cbn [day_first separator long_year] in *.
      unfold strptime.
      change (format_regex (txt "%m/%d/%Y"))
        with (Some (Seq directive_m (Seq (Cls (CLit (code "/")))
                 (Seq directive_d (Seq (Cls (CLit (code "/"))) (Seq directive_Y Eps)))))).
      cbv beta iota. unfold directive_d, directive_m, directive_Y.
      match_of_fields (directive_m_alphabet U) (directive_d_alphabet U)
                      (directive_Y_length U) a b y Lb La Ly.
      cbv beta iota. rewrite N, G. cbn [nonempty]. unfold year_of, int_group.
      cbn [group String.eqb Ascii.eqb Bool.eqb].
      rewrite (directive_Y_int y Ly), (directive_m_int a Lb), (directive_d_int b La).
      cbn [bind]. apply make_date_eq. auto.
  - (* %d/%m/%y *)
    split.
    + intros H. unfold strptime in H.
      change (format_regex (txt "%d/%m/%y"))
        with (Some (Seq directive_d (Seq (Cls (CLit (code "/")))
                 (Seq directive_m (Seq (Cls (CLit (code "/"))) (Seq directive_y Eps))))))
        in H.
      cbv beta iota in H.
      destruct (re_match U _ c) as [z|] eqn:E; [|discriminate].
      destruct (after z) as [|x t] eqn:N; [|discriminate]. cbn [nonempty] in H.
      unfold directive_d, directive_m, directive_y in E.
      fields_of_match E N.
      rewrite G in H. unfold year_of, int_group in H.
      cbn [group String.eqb Ascii.eqb Bool.eqb] in H.
      rewrite (directive_y_int y Ly), (directive_m_int b Lb), (directive_d_int a La) in H.
      cbn [bind] in H. apply make_date_eq in H. destruct H as [Hy [Hm [Hd V]]].
      exists {| day_first := true; separator := code "/"; long_year := false |}, a, b, y.
      cbn [day_first separator long_year]. unfold century. repeat split; auto.
    + intros [l [a [b [y [L [-> [La [Lb [Ly [Hd [Hm [Hy V]]]]]]]]]]]].
      injection L as <-. cbn [day_first separator long_year] in *.
      unfold strptime.
      change (format_regex (txt "%d/%m/%y"))
        with (Some (Seq directive_d (Seq (Cls (CLit (code "/")))
                 (Seq directive_m (Seq (Cls (CLit (code "/"))) (Seq directive_y Eps)))))).
      cbv beta iota. unfold directive_d, directive_m, directive_y.
      match_of_fields (directive_d_alphabet U) (directive_m_alphabet U)
                      (directive_y_length U) a b y La Lb Ly.
      cbv beta iota. rewrite N, G. cbn [nonempty]. unfold year_of, int_group.
      cbn [group String.eqb Ascii.eqb Bool.eqb].
      rewrite (directive_y_int y Ly), (directive_m_int b Lb), (directive_d_int a La).
      cbn [bind]. apply make_date_eq. unfold century in Hy. auto.
Qed.

End StrptimeReads.

(** The condition on the table holds when it has no entry outside ASCII. *)
Lemma ascii_only_digits_not_blank : digits_are_not_blank ascii_only.
Proof.
  intros c D. unfold isdecimal, decimal in D. unfold isspace.
  destruct (is_ascii c); [|discriminate].
  destruct (between 48 57 c) eqn:B; [|discriminate].
  unfold between in *. apply andb_prop in B. destruct B as [B1 B2].
  apply N.leb_le in B1, B2. unfold char_eqb.
  replace (c <=? 13) with false by (symmetry; apply N.leb_gt; lia).
  replace (c <=? 31) with false by (symmetry; apply N.leb_gt; lia).
  replace (c =? 32) with false by (symmetry; apply N.eqb_neq; lia).
  rewrite !andb_false_r. reflexivity.
Qed.

(* ================================================================== *)
(** * The caches of the library *)
(* ================================================================== *)

Section RuntimeFacts.
Context (U : UnicodeDB).

Lemma cached_In (K V : Type) (eqb : K -> K -> bool) (key : K) (cache : list (K * V))
    (v : V) :
  (forall a b, eqb a b = true -> a = b) ->
  Stateful.cached eqb key cache = Some v -> In (key, v) cache.
Proof.
  intros Eq. induction cache as [|[k x] rest IH]; cbn [Stateful.cached]; [discriminate|].
  destruct (eqb k key) eqn:E.
  - intros [= ->]. apply Eq in E. subst k. left. reflexivity.
  - intros H. right. apply IH. exact H.
Qed.

Lemma source_eqb_eq (a b : Stateful.source) : Stateful.source_eqb a b = true -> a = b.
Proof.
  destruct a, b; cbn; try discriminate; try reflexivity.
  intros H. f_equal. apply text_eqb_eq. exact H.
Qed.

Lemma In_tl (A : Type) (x : A) (l : list A) : In x (tl l) -> In x l.
Proof. destruct l; [tauto | right; assumption]. Qed.

(** Compiling gives what the source compiles to, whatever the cache
    holds, and leaves the caches coherent. *)
Lemma compile_spec (src : Stateful.source) (rt : Stateful.runtime) :
  Stateful.coherent rt ->
  exists rt',
    Stateful._compile src rt
    = (match Stateful.sre_compile src with
       | Some p => Ok p
       | None => Raise (External "KeyError")
       end, rt') /\
    Stateful.coherent rt' /\
    Stateful.TimeRE_locale rt' = Stateful.TimeRE_locale rt /\
    Stateful.regex_cache rt' = Stateful.regex_cache rt.
Proof.
  intros [C1 C2]. unfold Stateful._compile.
  destruct (Stateful.cached Stateful.source_eqb src (Stateful.re_cache rt)) as [p|] eqn:E.
  - apply (cached_In _ _ _ _ _ _ source_eqb_eq) in E. rewrite (C1 _ _ E).
    exists rt. repeat split; assumption.
  - destruct (Stateful.sre_compile src) as [p|] eqn:S.
    + eexists. split; [reflexivity|]. split; [|split; reflexivity]. split.
      * cbn [Stateful.re_cache]. intros src' p' I. apply in_app_or in I.
        destruct I as [I | [[= <- <-] | []]]; [|exact S].
        apply C1. destruct (Nat.leb _ _); [apply In_tl|]; exact I.
      * exact C2.
    + exists rt. repeat split; assumption.
Qed.

Lemma strptime_parse (data fmt : text) :
  strptime U data fmt
  = match format_regex fmt with
    | Some r => Stateful.parse U r data
    | None => Raise ValueError
    end.
Proof. reflexivity. Qed.

(** [strptime] reads the same date, or fails alike, whatever the caches
    hold and whatever the locale is. *)
Lemma strptime_spec (env : Stateful.locale) (data fmt : text) (rt : Stateful.runtime) :
  Stateful.coherent rt ->
  exists rt',
    Stateful.strptime U env data fmt rt = (strptime U data fmt, rt') /\
    Stateful.coherent rt'.
Proof.
  intros C. unfold Stateful.strptime.
  set (rt1 := if Stateful.locale_eqb env (Stateful.TimeRE_locale rt) then rt else _).
  assert (C1 : Stateful.coherent rt1).
  { unfold rt1. destruct (Stateful.locale_eqb _ _); [exact C|].
    destruct C as [Ca Cb]. split; [exact Ca | intros ? ? []]. }
  clearbody rt1. clear C rt. cbv zeta.
  set (rt2 := if Nat.ltb _ _ then _ else rt1).
  assert (C2 : Stateful.coherent rt2).
  { unfold rt2. destruct (Nat.ltb _ _); [|exact C1].
    destruct C1 as [Ca Cb]. split; [exact Ca | intros ? ? []]. }
  clearbody rt2. clear C1 rt1.
  rewrite strptime_parse.
  destruct (Stateful.cached text_eqb fmt (Stateful.regex_cache rt2)) as [r|] eqn:E.
  - apply (cached_In _ _ _ _ _ _ (fun a b => proj1 (text_eqb_eq a b))) in E.
    destruct C2 as [Ca Cb]. rewrite (Cb _ _ E).
    exists rt2. split; [reflexivity | split; assumption].
  - destruct (compile_spec (Stateful.FormatSource fmt) rt2 C2) as [rt3 [E3 [[Ca Cb] [_ R3]]]].
    rewrite E3. cbn [Stateful.sre_compile].
    destruct (format_regex fmt) as [r|] eqn:F.
    + eexists. split; [reflexivity|]. split; [exact Ca|].
      cbn [Stateful.regex_cache]. intros f' r' I. apply in_app_or in I.
      destruct I as [I | [[= <- <-] | []]]; [apply Cb; exact I | exact F].
    + exists rt3. split; [reflexivity | split; assumption].
Qed.

Lemma try_formats_st (env : Stateful.locale) (c : text) (fmts : list text) :
  forall rt, Stateful.coherent rt ->
    exists rt',
      Stateful.try_formats U env c fmts rt = (try_formats U c fmts, rt') /\
      Stateful.coherent rt'.
Proof.
  induction fmts as [|f fmts IH]; intros rt C.
  - exists rt. split; [reflexivity | exact C].
  - cbn [Stateful.try_formats]. rewrite try_formats_cons.
    destruct (strptime_spec env c f rt C) as [rt1 [E C1]]. rewrite E.
    destruct (strptime U c f) as [d|e].
    + exists rt1. split; [reflexivity | exact C1].
    + apply IH. exact C1.
Qed.

Lemma try_candidates_st (env : Stateful.locale) (cands : list text) :
  forall rt, Stateful.coherent rt ->
    exists rt',
      Stateful.try_candidates U env cands rt = (try_candidates U cands, rt') /\
      Stateful.coherent rt'.
Proof.
  induction cands as [|c cands IH]; intros rt C.
  - exists rt. split; [reflexivity | exact C].
  - cbn [Stateful.try_candidates try_candidates].
    destruct (try_formats_st env c date_formats rt C) as [rt1 [E C1]]. rewrite E.
    destruct (try_formats U c date_formats) as [[d|]|e]; cbn [bind].
    + exists rt1. split; [reflexivity | exact C1].
    + apply IH. exact C1.
    + exists rt1. split; [reflexivity | exact C1].
Qed.

(** With coherent caches each extractor returns what it returns with
    none, and leaves the caches coherent. *)
Lemma extract_amount_st (s : text) (rt : Stateful.runtime) :
  Stateful.coherent rt ->
  exists rt',
    Stateful.extract_amount U s rt = (extract_amount U s, rt') /\
    Stateful.coherent rt'.
Proof.
  intros C. unfold Stateful.extract_amount.
  destruct (compile_spec Stateful.AmountSource rt C) as [rt1 [E [C1 _]]].
  rewrite E. cbn [Stateful.sre_compile]. exists rt1. split; [reflexivity | exact C1].
Qed.

Lemma extract_date_st (env : Stateful.locale) (s : text) (rt : Stateful.runtime) :
  Stateful.coherent rt ->
  exists rt',
    Stateful.extract_date U env s rt = (extract_date U s, rt') /\
    Stateful.coherent rt'.
Proof.
  intros C. unfold Stateful.extract_date.
  destruct (compile_spec Stateful.DateSource rt C) as [rt1 [E [C1 _]]].
  rewrite E. cbn [Stateful.sre_compile]. apply try_candidates_st. exact C1.
Qed.

Lemma fresh_coherent (env : Stateful.locale) : Stateful.coherent (Stateful.fresh env).
Proof. split; intros ? ? []. Qed.

End RuntimeFacts.

(** The condition on the caches is needed: an entry that is not what its
    format compiles to would change what [extract_date] returns. *)
Lemma stale_cache_would_show :
  fst (Stateful.extract_date ascii_only locale_C (txt "15/03/2024")
         {| Stateful.re_cache := []; Stateful.TimeRE_locale := locale_C;
            Stateful.regex_cache := [(txt "%d/%m/%Y", Eps)] |})
  = Ok None /\
  extract_date ascii_only (txt "15/03/2024")
  = Ok (Some {| year := 2024; month := 3; day := 15 |}).
Proof. split; vm_compute; reflexivity. Qed.

(* ================================================================== *)
(** * The field extractor: tokens, values and state *)
(* ================================================================== *)

(** C2 (as the code has it by design).  On
    ["Total: Rs. 1,234.56 on 15/03/2024"] the first match of the amount
    pattern is ["1,234.56"], but the currency marker is optional, so the
    pattern matches again inside the date that follows; [extract_amount]
    returns the number of the last match, which lies in the date, and not
    1234.56.  [extract_date] returns March 15, 2024. *)
Theorem scenario_total_rs (U : UnicodeDB) :
  let s := txt "Total: Rs. 1,234.56 on 15/03/2024" in
  (exists later,
     findall1 U amount_pattern s = txt "1,234.56" :: later /\ later <> []) /\
  slice s 23 33 = txt "15/03/2024" /\
  (exists ms m number,
     finditer U amount_pattern s = ms ++ [m] /\
     (23 <= start m)%nat /\ (stop m <= 33)%nat /\
     group "1" (captures m) = Some number /\
     extract_amount U s = Ok (nearest_double (denoted U number))) /\
  (forall q, extract_amount U s = Ok (Finite q) -> ~ (q == 1234.56)%Q) /\
  findall0 U date_pattern s = [txt "15/03/2024"] /\
  extract_date U s = Ok (Some {| year := 2024; month := 3; day := 15 |}).
Proof.
  cbv zeta. split; [eexists; split; [vm_compute; reflexivity | discriminate]|].
  split; [reflexivity|].
  split.
  - assert (E : finditer U amount_pattern (txt "Total: Rs. 1,234.56 on 15/03/2024")
                = removelast (finditer U amount_pattern
                                (txt "Total: Rs. 1,234.56 on 15/03/2024"))
                  ++ [last (finditer U amount_pattern
                              (txt "Total: Rs. 1,234.56 on 15/03/2024"))
                           {| start := 0; stop := 0; whole := []; captures := [] |}])
      by (vm_compute; reflexivity).
    eexists. eexists. eexists. split; [exact E|].
    split; [vm_compute; lia|]. split; [vm_compute; lia|].
    split; vm_compute; reflexivity.
  - split; [|split; vm_compute; reflexivity].
    intros q H. assert (E : extract_amount U (txt "Total: Rs. 1,234.56 on 15/03/2024")
                            = Ok (Finite 4)) by (vm_compute; reflexivity).
    rewrite E in H. injection H as <-. intros Q. vm_compute in Q. discriminate.
Qed.

(** C2, the claim as stated fails on the amount: the value returned is 4.0,
    which is not 1234.56. *)
Lemma scenario_total_rs_amount_is_not_1234_56 :
  (forall U, extract_amount U (txt "Total: Rs. 1,234.56 on 15/03/2024") = Ok (Finite 4)) /\
  ~ (4 == 1234.56)%Q.
Proof.
  split; [intros U; vm_compute; reflexivity|].
  intros H. vm_compute in H. discriminate.
Qed.

(** C3.  The matches of the amount pattern are the amount tokens of the
    text (a grouped number, optionally after a currency marker and a
    blank), left to right and without overlap, and no token is passed
    over: every one lies inside a reported match.  With no match
    [extract_amount] returns 0.0; otherwise it returns the number that
    group 1 of the last match denotes, its thousands separators passed
    over, as the nearest double.  On
    ["Item1 $5.00 Item2 $10.00 Total $15.00"] that is 15.00. *)
Theorem extract_amount_last_match (U : UnicodeDB) (s : text) :
  let ms := finditer U amount_pattern s in
  StronglySorted precedes ms /\
  (forall m, In m ms ->
     amount_token_at U s (start m) (whole m) /\
     stop m = (start m + length (whole m))%nat /\
     exists marker number,
       whole m = marker ++ number /\ group "1" (captures m) = Some number /\
       grouped_number U number) /\
  (forall i w, amount_token_at U s i w ->
     exists m, In m ms /\ (start m <= i < stop m)%nat) /\
  ((ms = [] /\ extract_amount U s = Ok (Finite 0))
   \/
   (exists ms' m number,
      ms = ms' ++ [m] /\ (forall m', In m' ms' -> precedes m' m) /\
      group "1" (captures m) = Some number /\
      extract_amount U s = Ok (nearest_double (denoted U number)))) /\
  extract_amount U (txt "Item1 $5.00 Item2 $10.00 Total $15.00") = Ok (Finite 15.00).
Proof.
  cbv zeta.
  destruct (finditer_amount_tokens U s) as [Found Covers].
  assert (S : StronglySorted precedes (finditer U amount_pattern s))
    by apply scan_sorted.
  split; [exact S|]. split; [exact Found|]. split; [exact Covers|].
  split; [|vm_compute; reflexivity].
  unfold extract_amount, findall1.
  remember (finditer U amount_pattern s) as ms eqn:Ems.
  destruct ms as [|m0 l]; [left; auto|].
  right. destruct (exists_last (l := m0 :: l) ltac:(discriminate)) as [ms' [m Em]].
  rewrite Em in *. clear Em.
  destruct (Found m ltac:(apply in_or_app; right; left; reflexivity))
    as [_ [_ [marker [number [_ [G N]]]]]].
  exists ms', m, number.
  split; [reflexivity|]. split; [exact (StronglySorted_last _ _ _ _ S)|].
  split; [exact G|].
  destruct (map _ (ms' ++ [m])) as [|x l'] eqn:M.
  - apply (f_equal (@length _)) in M. rewrite length_map, length_app in M.
    simpl in M. lia.
  - rewrite <- M, last_map_snoc. rewrite G.
    apply float_denoted. apply lang_number_pattern. exact N.
Qed.

(** C5.  The candidates of [extract_date] are the tokens D[/-]M[/-]Y of
    the text that stand between word boundaries, left to right and without
    overlap, and no such token is passed over.  [extract_date] never
    raises.  It returns no date exactly when no format parses any
    candidate.  Otherwise it returns the date, one of the calendar, of the
    first candidate that some format parses, read by the first format of
    the list that parses it; and whenever a day-first format parses that
    candidate the date returned is the day-first reading.  A format parses
    a string exactly when the string is laid out as the format says (day
    or month first, its separator twice, a year of four digits or of two)
    and its fields name a date of the calendar. *)
Theorem extract_date_first_parse (U : UnicodeDB) (s : text) :
  let ms := finditer U date_pattern s in
  let cands := findall0 U date_pattern s in
  cands = map whole ms /\
  StronglySorted precedes ms /\
  (forall m, In m ms ->
     date_token_at U s (start m) (whole m) /\
     stop m = (start m + length (whole m))%nat) /\
  (forall i w, date_token_at U s i w ->
     exists m, In m ms /\ (start m <= i < stop m)%nat) /\
  ((extract_date U s = Ok None /\
    forall c f, In c cands -> In f date_formats -> raises (strptime U c f))
   \/
   (exists d pre c post fs f fs',
      cands = pre ++ c :: post /\ date_formats = fs ++ f :: fs' /\
      strptime U c f = Ok d /\ valid_date d = true /\
      (forall c' f', In c' pre -> In f' date_formats -> raises (strptime U c' f')) /\
      (forall f', In f' fs -> raises (strptime U c f')) /\
      (forall f1 d1, In f1 day_first_formats -> strptime U c f1 = Ok d1 -> d = d1) /\
      extract_date U s = Ok (Some d))) /\
  (digits_are_not_blank U ->
   forall c f d, In f date_formats -> (strptime U c f = Ok d <-> reads U f c d)).
Proof.
  intros ms cands. split; [reflexivity|]. split; [apply scan_sorted|].
  destruct (finditer_date_tokens U s) as [Found Covers].
  split; [exact Found|]. split; [exact Covers|].
  split; [|intros NB c f d Hf; apply strptime_reads; assumption].
  unfold extract_date. fold cands.
  destruct (try_candidates_spec U cands)
    as [[N F] | [d [pre [c [post [fs [f [fs' [E1 [E2 [P [F1 [F2 [T1 T2]]]]]]]]]]]]]].
  - left. auto.
  - right. exists d, pre, c, post, fs, f, fs'. repeat split; auto.
    + apply (strptime_valid U c f d P).
    + intros f1 d1 I1 P1. pose proof (day_first_wins U c f1 d1 I1 P1) as W.
      rewrite T1 in W. congruence.
Qed.

(** C9.  The field extractor keeps nothing between calls but the
    library's caches, and these do not show: started in any runtime the
    library can have left, and whatever the locale is at each call,
    [extract_amount] run twice returns both times, with the same number,
    [extract_date] run twice returns both times, with the same date (or no
    date), the caches are left coherent, and the two results are those of
    every other run on the same text. *)
Theorem field_extractor_deterministic (U : UnicodeDB) (s : text)
    (rt : Stateful.runtime) (env1 env2 : Stateful.locale) :
  Stateful.coherent rt ->
  exists a d rt1 rt2 rt3 rt4,
    Stateful.extract_amount U s rt = (Ok a, rt1) /\
    Stateful.extract_amount U s rt1 = (Ok a, rt2) /\
    Stateful.extract_date U env1 s rt2 = (Ok d, rt3) /\
    Stateful.extract_date U env2 s rt3 = (Ok d, rt4) /\
    Stateful.coherent rt4 /\
    (forall rt' env, Stateful.coherent rt' ->
       fst (Stateful.extract_amount U s rt') = Ok a /\
       fst (Stateful.extract_date U env s rt') = Ok d).
Proof.
  intros C.
  destruct (extract_amount_returns U s) as [a [Ea _]].
  destruct (extract_date_returns U s) as [d Ed].
  destruct (extract_amount_st U s rt C) as [rt1 [E1 C1]].
  destruct (extract_amount_st U s rt1 C1) as [rt2 [E2 C2]].
  destruct (extract_date_st U env1 s rt2 C2) as [rt3 [E3 C3]].
  destruct (extract_date_st U env2 s rt3 C3) as [rt4 [E4 C4]].
  rewrite Ea in E1, E2. rewrite Ed in E3, E4.
  exists a, d, rt1, rt2, rt3, rt4. repeat (split; [assumption|]).
  intros rt' env C'.
  destruct (extract_amount_st U s rt' C') as [x [-> _]].
  destruct (extract_date_st U env s rt' C') as [y [-> _]].
  cbn [fst]. auto.
Qed.

(** C9 in a runtime with entries in both caches, the locale changing
    between the two runs. *)
Lemma field_extractor_deterministic_witness :
  exists a d rt1 rt2 rt3 rt4,
    Stateful.extract_amount ascii_only (txt "Paid Rs. 120.50 on 15/03/2024") warm_runtime
    = (Ok a, rt1) /\
    Stateful.extract_amount ascii_only (txt "Paid Rs. 120.50 on 15/03/2024") rt1
    = (Ok a, rt2) /\
    Stateful.extract_date ascii_only locale_C (txt "Paid Rs. 120.50 on 15/03/2024") rt2
    = (Ok d, rt3) /\
    Stateful.extract_date ascii_only locale_de (txt "Paid Rs. 120.50 on 15/03/2024") rt3
    = (Ok d, rt4) /\
    Stateful.coherent rt4 /\
    (forall rt' env, Stateful.coherent rt' ->
       fst (Stateful.extract_amount ascii_only (txt "Paid Rs. 120.50 on 15/03/2024") rt')
       = Ok a /\
       fst (Stateful.extract_date ascii_only env (txt "Paid Rs. 120.50 on 15/03/2024") rt')
       = Ok d).
Proof.
  apply field_extractor_deterministic.
  split; intros k v [H | [H | []]]; injection H as <- <-; reflexivity.
Defined.
